(** * The conversational session engine of the chat client

  A shallow embedding of the content codec ([parseMessageContent],
  [storeMessageInDB]), the two provider clients ([getGroqCompletion],
  [getOllamaCompletion]), the image helpers of [imagehandling.ts] and the
  session pipeline of [ChatInterface.tsx] ([sendMessage], [toggleMode],
  the realtime subscription callback, [MessageInput]'s [handleSend]),
  followed by the properties the specification states about them.

  The code around them is embedded as well: the availability monitor and
  the connection test, the loading and resetting of a conversation, the
  list of conversations of [ChatPage], the login and password forms and the
  text-to-speech helpers; their properties come last. *)

From Stdlib Require Import List NArith ZArith String Ascii Bool Arith Lia.
From Stdlib Require Import DecimalString Permutation.
Import ListNotations.

Set Implicit Arguments.

(** [length], [map] and [++] are the list operations throughout. *)
Abbreviation length := List.length (only parsing).
Abbreviation map := List.map (only parsing).

(** ** JavaScript strings and arrays

  A JavaScript string is a sequence of UTF-16 code units; [length],
  [substring], [startsWith] and the like count code units, so the
  embedding keeps strings as lists of code units. *)

Module JS.

Definition jsstring := list N.

(** A literal of the source, written with its ASCII characters. *)
Definition lit (s : string) : jsstring :=
  List.map N_of_ascii (list_ascii_of_string s).
Arguments lit s%_string.

Fixpoint str_eqb (a b : jsstring) : bool :=
  match a, b with
  | [], [] => true
  | x :: a', y :: b' => N.eqb x y && str_eqb a' b'
  | _, _ => false
  end.

(** [s.startsWith(prefix)] *)
Fixpoint startsWith (s prefix : jsstring) : bool :=
  match prefix, s with
  | [], _ => true
  | p :: prefix', c :: s' => N.eqb c p && startsWith s' prefix'
  | _ :: _, [] => false
  end.

(** [s.endsWith(suffix)] *)
Definition endsWith (s suffix : jsstring) : bool :=
  startsWith (rev s) (rev suffix).

(** [s.includes(sub)]: [sub] occurs at some position of [s]. *)
Fixpoint includes (s sub : jsstring) : bool :=
  startsWith s sub ||
  match s with
  | [] => false
  | _ :: s' => includes s' sub
  end.

(** [s.substring(a, b)]: the arguments are clamped to the length and
    swapped when [a > b]. *)
Definition substring (s : jsstring) (a b : nat) : jsstring :=
  let a' := Nat.min a (length s) in
  let b' := Nat.min b (length s) in
  let lo := Nat.min a' b' in
  let hi := Nat.max a' b' in
  firstn (hi - lo) (skipn lo s).

(** White space and line terminators, as [String.prototype.trim] strips
    them. *)
Definition isWhiteSpace (c : N) : bool :=
  existsb (N.eqb c)
    [9; 10; 11; 12; 13; 32; 160; 5760; 8192; 8193; 8194; 8195; 8196; 8197;
     8198; 8199; 8200; 8201; 8202; 8232; 8233; 8239; 8287; 12288; 65279]%N.

Fixpoint trimStart (s : jsstring) : jsstring :=
  match s with
  | c :: s' => if isWhiteSpace c then trimStart s' else s
  | [] => []
  end.

Definition trimEnd (s : jsstring) : jsstring := rev (trimStart (rev s)).

(** [s.trim()] *)
Definition trim (s : jsstring) : jsstring := trimEnd (trimStart s).

(** The decimal rendering of a non-negative integer, as a template literal
    interpolates it. *)
Definition numToString (n : N) : jsstring :=
  lit (NilZero.string_of_uint (N.to_uint n)).

(** Truthiness of a string: only the empty string is falsy. *)
Definition nonEmpty (s : jsstring) : bool :=
  match s with [] => false | _ :: _ => true end.

(** [x || d] for a string [x] that may be [undefined]. *)
Definition orElse (x : option jsstring) (d : jsstring) : jsstring :=
  match x with
  | Some (c :: s) => c :: s
  | _ => d
  end.

(** [arr.slice(-n)]: the last [n] elements (all of them when the array is
    shorter). *)
Definition slice_last {A} (n : nat) (l : list A) : list A :=
  skipn (length l - n) l.

(** [arr.slice(0, -1)]: all but the last element. *)
Definition slice_init {A} (l : list A) : list A :=
  firstn (length l - 1) l.

(** [arr[arr.length - 1]]: [None] stands for [undefined]. *)
Definition last_elem {A} (l : list A) : option A :=
  nth_error l (length l - 1).

(** [arr.includes(x)] on an array of strings. *)
Definition arr_includes (l : list jsstring) (x : jsstring) : bool :=
  existsb (str_eqb x) l.

End JS.
Import JS.

(** ** [src/types/index.ts] and the shapes of the requests *)

Module Types.

Inductive Role := user | assistant.

(** A [Message]; [id] is absent on a message that is not persisted yet
    ([Partial<Message>]).  [C] is the type of the content: a string for a
    stored message. *)
Record MessageOf (C : Type) := {
  id : option jsstring;
  chat_id : jsstring;
  role : Role;
  content : C;
  created_at : jsstring;
  model : option jsstring
}.

Definition Message := MessageOf jsstring.

(** The parts of a multimodal message body. *)
Inductive ContentPart :=
| TextPart (text : jsstring)
| ImageUrlPart (url : jsstring).

Inductive ApiContent :=
| Plain (s : jsstring)
| Parts (parts : list ContentPart).

Record ApiMessage := { api_role : Role; api_content : ApiContent }.

End Types.
Import Types.

(** ** [src/utils/imagehandling.ts] *)

Module ImageHandling.

(** The two attributes of a [File] the validation reads. *)
Record File := { type : jsstring; size : N }.

Definition MAX_SIZE : N := 4 * 1024 * 1024.

Definition isValidImageFile (file : File) : bool :=
  if negb (startsWith (type file) (lit "image/")) then false
  else if (MAX_SIZE <? size file)%N then false
  else true.

(** [text || "What's in this image?"] *)
Definition textOrDefault (text : jsstring) : jsstring :=
  if nonEmpty text then text else lit "What's in this image?".

Definition createImageMessage (text : jsstring) (images : list jsstring)
  : ApiMessage :=
  let content :=
    TextPart (textOrDefault text) :: map ImageUrlPart images in
  {| api_role := user; api_content := Parts content |}.

(** [modelSupportsVision]: only the Groq vision families are recognised. *)
Definition modelSupportsVision (modelName : jsstring) : bool :=
  includes modelName (lit "llama-4-scout") ||
  includes modelName (lit "llama-4-maverick").

End ImageHandling.

(** ** [JSON.parse] and [JSON.stringify]

    The runtime's JSON codec, as ECMA-404 and ECMAScript define it.  A number
    is kept as the exact decimal value of its literal; of its conversion to
    a binary64 double only the test for zero is used below (truthiness), and
    that test is exact.  The engine's limit on nesting depth is left out. *)

Module JSON.

(** The decimal [(-1)^neg * mant * 10^exp10]. *)
Record number := { neg : bool; mant : N; exp10 : Z }.

#[warnings="-register-all"]
Inductive value :=
| JNull
| JBool (b : bool)
| JNumber (n : number)
| JString (s : jsstring)
| JArray (elements : list value)
| JObject (members : list (jsstring * value)).

(** A literal denotes the double zero when its value is zero or rounds to
    zero, that is when it is at most [2^-1075] (ties go to the even
    neighbour, which is zero). *)
Definition isZero (n : number) : bool :=
  (mant n =? 0)%N ||
  ((exp10 n <? 0)%Z &&
   (Z.of_N (mant n) * 2 ^ 1075 <=? 10 ^ (- exp10 n))%Z).

(** [ToBoolean] on a parsed value. *)
Definition truthy (v : value) : bool :=
  match v with
  | JNull => false
  | JBool b => b
  | JNumber n => negb (isZero n)
  | JString s => nonEmpty s
  | JArray _ => true
  | JObject _ => true
  end.

(** Own property of an object, the last of duplicated keys winning. *)
Fixpoint lookup (key : jsstring) (members : list (jsstring * value))
  : option value :=
  match members with
  | [] => None
  | (k, v) :: rest =>
      match lookup key rest with
      | Some v' => Some v'
      | None => if str_eqb k key then Some v else None
      end
  end.

(** Reading the property [key] off a value, for a [key] that no prototype
    defines ([text], [images], [message], [content], [error]): [None] is a
    [TypeError] (reading a property of [null]), [Some None] is the value
    [undefined]. *)
Definition getProperty (v : value) (key : jsstring) : option (option value) :=
  match v with
  | JNull => None
  | JObject members => Some (lookup key members)
  | _ => Some None
  end.

(** A string value is shorter than [n]. *)
Definition shorter (n : nat) (v : value) : Prop :=
  forall str, v = JString str -> length str < n.

(** *** Lexical elements *)

Definition isJsonWhiteSpace (c : N) : bool :=
  (c =? 32)%N || (c =? 9)%N || (c =? 10)%N || (c =? 13)%N.

Fixpoint skip_ws (s : jsstring) : jsstring :=
  match s with
  | c :: s' => if isJsonWhiteSpace c then skip_ws s' else s
  | [] => []
  end.

Definition digit (c : N) : option N :=
  if ((48 <=? c) && (c <=? 57))%N then Some (c - 48)%N else None.

Definition hexDigit (c : N) : option N :=
  if ((48 <=? c) && (c <=? 57))%N then Some (c - 48)%N
  else if ((97 <=? c) && (c <=? 102))%N then Some (c - 87)%N
  else if ((65 <=? c) && (c <=? 70))%N then Some (c - 55)%N
  else None.

Definition hex4 (a b c d : N) : option N :=
  match hexDigit a, hexDigit b, hexDigit c, hexDigit d with
  | Some x, Some y, Some z, Some w => Some (((x * 16 + y) * 16 + z) * 16 + w)%N
  | _, _, _, _ => None
  end.

(** The longest run of decimal digits at the head of [s], as digit values. *)
Fixpoint span_digits (s : jsstring) : list N * jsstring :=
  match s with
  | c :: s' =>
      match digit c with
      | Some d => let (ds, rest) := span_digits s' in (d :: ds, rest)
      | None => ([], s)
      end
  | [] => ([], [])
  end.

Definition digits_value (ds : list N) : N :=
  fold_left (fun acc d => (10 * acc + d)%N) ds 0%N.

(** The characters of a string literal after its opening quote, up to and
    including the closing quote. *)
Fixpoint parse_string (s : jsstring) : option (jsstring * jsstring) :=
  match s with
  | [] => None
  | c :: r =>
      if (c =? 34)%N then Some ([], r)
      else if (c =? 92)%N then
        match r with
        | e :: r1 =>
            let simple (u : N) :=
              match parse_string r1 with
              | Some (str, rest) => Some (u :: str, rest)
              | None => None
              end in
            if (e =? 34)%N then simple 34%N
            else if (e =? 92)%N then simple 92%N
            else if (e =? 47)%N then simple 47%N
            else if (e =? 98)%N then simple 8%N
            else if (e =? 102)%N then simple 12%N
            else if (e =? 110)%N then simple 10%N
            else if (e =? 114)%N then simple 13%N
            else if (e =? 116)%N then simple 9%N
            else if (e =? 117)%N then
              match r1 with
              | h1 :: h2 :: h3 :: h4 :: r2 =>
                  match hex4 h1 h2 h3 h4, parse_string r2 with
                  | Some u, Some (str, rest) => Some (u :: str, rest)
                  | _, _ => None
                  end
              | _ => None
              end
            else None
        | [] => None
        end
      else if (c <? 32)%N then None
      else
        match parse_string r with
        | Some (str, rest) => Some (c :: str, rest)
        | None => None
        end
  end.

(** The rest of [s] after the character [c], when [s] starts with it. *)
Definition expect (c : N) (s : jsstring) : option jsstring :=
  match s with
  | x :: rest => if (x =? c)%N then Some rest else None
  | [] => None
  end.

(** A number literal: an optional minus sign, an integer part without
    leading zeros, an optional fraction and an optional exponent. *)
Definition parse_int (s : jsstring) : option (list N * jsstring) :=
  match s with
  | c :: r =>
      if (c =? 48)%N then Some ([0%N], r)
      else match digit c with
           | Some d => let (ds, rest) := span_digits r in Some (d :: ds, rest)
           | None => None
           end
  | [] => None
  end.

(** One digit at least. *)
Definition parse_digits (s : jsstring) : option (list N * jsstring) :=
  match span_digits s with
  | ([], _) => None
  | (ds, rest) => Some (ds, rest)
  end.

Definition parse_frac (s : jsstring) : option (list N * jsstring) :=
  match expect 46 s with
  | Some r => parse_digits r
  | None => Some ([], s)
  end.

Definition parse_exp (s : jsstring) : option (Z * jsstring) :=
  let digits (sign : Z) (r : jsstring) :=
    match parse_digits r with
    | Some (es, rest) => Some ((sign * Z.of_N (digits_value es))%Z, rest)
    | None => None
    end in
  match s with
  | c :: r =>
      if ((c =? 101) || (c =? 69))%N then
        match expect 43 r, expect 45 r with
        | Some r', _ => digits 1%Z r'
        | None, Some r' => digits (-1)%Z r'
        | None, None => digits 1%Z r
        end
      else Some (0%Z, s)
  | [] => Some (0%Z, s)
  end.

Definition parse_number (s : jsstring) : option (number * jsstring) :=
  let (sign, s1) :=
    match expect 45 s with
    | Some r => (true, r)
    | None => (false, s)
    end in
  match parse_int s1 with
  | Some (ds, s2) =>
      match parse_frac s2 with
      | Some (fs, s3) =>
          match parse_exp s3 with
          | Some (e, s4) =>
              Some ({| neg := sign;
                       mant := digits_value (ds ++ fs);
                       exp10 := (e - Z.of_nat (length fs))%Z |}, s4)
          | None => None
          end
      | None => None
      end
  | None => None
  end.

(** *** Values

    The recursive descent is written over a fuel that bounds the number of
    nested calls; [JSON_parse] supplies [2 * length s + 1], which is never
    exhausted ([parse_value_fuel] below). *)

Inductive result (A : Type) :=
| Ok (a : A) (rest : jsstring)
| SyntaxError
| OutOfFuel.
Arguments SyntaxError {A}.
Arguments OutOfFuel {A}.

Definition parse_literal (s : jsstring) : result value :=
  if startsWith s (lit "true") then Ok (JBool true) (skipn 4 s)
  else if startsWith s (lit "false") then Ok (JBool false) (skipn 5 s)
  else if startsWith s (lit "null") then Ok JNull (skipn 4 s)
  else match parse_number s with
       | Some (n, rest) => Ok (JNumber n) rest
       | None => SyntaxError
       end.

Fixpoint parse_value (fuel : nat) (s : jsstring) : result value :=
  match fuel with
  | O => OutOfFuel
  | S fuel' =>
      match skip_ws s with
      | [] => SyntaxError
      | c :: r =>
          if (c =? 91)%N then
            match expect 93 (skip_ws r) with
            | Some r' => Ok (JArray []) r'
            | None => parse_elements fuel' r []
            end
          else if (c =? 123)%N then
            match expect 125 (skip_ws r) with
            | Some r' => Ok (JObject []) r'
            | None => parse_members fuel' r []
            end
          else if (c =? 34)%N then
            match parse_string r with
            | Some (str, r') => Ok (JString str) r'
            | None => SyntaxError
            end
          else parse_literal (c :: r)
      end
  end

(** The elements of an array after its opening bracket or a comma; [acc]
    holds the elements read so far, last first. *)
with parse_elements (fuel : nat) (s : jsstring) (acc : list value)
  : result value :=
  match fuel with
  | O => OutOfFuel
  | S fuel' =>
      match parse_value fuel' s with
      | Ok v r =>
          match expect 44 (skip_ws r), expect 93 (skip_ws r) with
          | Some r', _ => parse_elements fuel' r' (v :: acc)
          | None, Some r' => Ok (JArray (rev (v :: acc))) r'
          | None, None => SyntaxError
          end
      | SyntaxError => SyntaxError
      | OutOfFuel => OutOfFuel
      end
  end

(** The members of an object after its opening brace or a comma. *)
with parse_members (fuel : nat) (s : jsstring) (acc : list (jsstring * value))
  : result value :=
  match fuel with
  | O => OutOfFuel
  | S fuel' =>
      match expect 34 (skip_ws s) with
      | Some r =>
          match parse_string r with
          | Some (key, r1) =>
              match expect 58 (skip_ws r1) with
              | Some r2 =>
                  match parse_value fuel' r2 with
                  | Ok v r3 =>
                      match expect 44 (skip_ws r3), expect 125 (skip_ws r3) with
                      | Some r4, _ => parse_members fuel' r4 ((key, v) :: acc)
                      | None, Some r4 =>
                          Ok (JObject (rev ((key, v) :: acc))) r4
                      | None, None => SyntaxError
                      end
                  | SyntaxError => SyntaxError
                  | OutOfFuel => OutOfFuel
                  end
              | None => SyntaxError
              end
          | None => SyntaxError
          end
      | None => SyntaxError
      end
  end.

(** [JSON.parse(s)]: [None] is the [SyntaxError] the call throws. *)
Definition JSON_parse (s : jsstring) : option value :=
  match parse_value (2 * length s + 1) s with
  | Ok v rest =>
      match skip_ws rest with
      | [] => Some v
      | _ :: _ => None
      end
  | _ => None
  end.

(** *** [JSON.stringify] of strings and arrays of strings *)

Definition hexChar (d : N) : N :=
  if (d <? 10)%N then (48 + d)%N else (87 + d)%N.

(** [\uXXXX] with lower-case digits. *)
Definition unicodeEscape (c : N) : jsstring :=
  [92; 117; hexChar (c / 4096 mod 16); hexChar (c / 256 mod 16);
   hexChar (c / 16 mod 16); hexChar (c mod 16)]%N.

Definition isLeadSurrogate (c : N) : bool := ((55296 <=? c) && (c <=? 56319))%N.
Definition isTrailSurrogate (c : N) : bool := ((56320 <=? c) && (c <=? 57343))%N.

Definition quoteChar (c : N) : jsstring :=
  if (c =? 8)%N then lit "\b"
  else if (c =? 9)%N then lit "\t"
  else if (c =? 10)%N then lit "\n"
  else if (c =? 12)%N then lit "\f"
  else if (c =? 13)%N then lit "\r"
  else if (c =? 34)%N then [92; 34]%N
  else if (c =? 92)%N then [92; 92]%N
  else if (c <? 32)%N then unicodeEscape c
  else if isLeadSurrogate c || isTrailSurrogate c then unicodeEscape c
  else [c].

(** The characters of a quoted string; a surrogate pair is copied, a lone
    surrogate is escaped. *)
Fixpoint quoteChars (s : jsstring) : jsstring :=
  match s with
  | [] => []
  | c :: r =>
      match r with
      | d :: r' =>
          if isLeadSurrogate c && isTrailSurrogate d
          then c :: d :: quoteChars r'
          else quoteChar c ++ quoteChars r
      | [] => quoteChar c
      end
  end.

(** [QuoteJSONString] *)
Definition quote (s : jsstring) : jsstring :=
  [34%N] ++ quoteChars s ++ [34%N].

Fixpoint join (sep : jsstring) (l : list jsstring) : jsstring :=
  match l with
  | [] => []
  | [x] => x
  | x :: rest => x ++ sep ++ join sep rest
  end.

(** [JSON.stringify({ text, images })] for a string and an array of
    strings. *)
Definition stringify_text_images (text : jsstring) (images : list jsstring)
  : jsstring :=
  lit "{" ++ quote (lit "text") ++ lit ":" ++ quote text ++ lit "," ++
  quote (lit "images") ++ lit ":[" ++ join (lit ",") (map quote images) ++
  lit "]}".

End JSON.

(** ** Asynchronous code as a tree of calls

    An [async] function is kept as the tree of the calls it awaits: each
    node is a call to a collaborator (or to the component's own state) and
    the continuation receives its answer.  [exec] runs a tree against a
    handler that threads a world. *)

Module Prog.

Unset Implicit Arguments.

Section Free.

Variable call : Type.
Variable resp : call -> Type.

Inductive prog (A : Type) : Type :=
| Ret (a : A)
| Vis (c : call) (k : resp c -> prog A).
Arguments Ret {A} a.
Arguments Vis {A} c k.

Fixpoint bind {A B : Type} (p : prog A) (f : A -> prog B) : prog B :=
  match p with
  | Ret a => f a
  | Vis c k => Vis c (fun x => bind (k x) f)
  end.

Definition trigger (c : call) : prog (resp c) := Vis c (fun x => Ret x).

Variable W : Type.
Variable handler : forall c : call, W -> resp c * W.

Fixpoint exec {A : Type} (p : prog A) (w : W) : A * W :=
  match p with
  | Ret a => (a, w)
  | Vis c k => let (x, w') := handler c w in exec (k x) w'
  end.

End Free.

Arguments Ret {call resp A} a.
Arguments Vis {call resp A} c k.
Arguments trigger {call resp} c.
Arguments bind {call resp A B} p f.
Arguments exec {call resp W} handler {A} p w.

Set Implicit Arguments.

End Prog.
Import Prog.

Declare Scope prog_scope.
Delimit Scope prog_scope with prog.
Notation "x <- c ;; k" := (bind c (fun x => k))
  (at level 61, c at next level, right associativity) : prog_scope.
Notation "c ;;; k" := (bind c (fun _ => k))
  (at level 61, right associativity) : prog_scope.

(** ** The provider clients ([utils/api]) *)

Module Api.

(** The build-time configuration read through [import.meta.env]. *)
Record Env := {
  VITE_GROQ_CHAT_API_KEY : option jsstring;
  VITE_GROQ_CHAT_MODEL : option jsstring
}.

(** What a client can throw: an [Error] the code builds, the [TypeError] the
    runtime raises on reading a property of [undefined], or whatever a
    collaborator threw. *)
Inductive JsError :=
| Error (message : jsstring)
| TypeError
| Foreign (message : jsstring).

Inductive outcome :=
| Returns (text : jsstring)
| Throws (e : JsError).

Record GroqRequest := {
  groq_model : jsstring;
  groq_messages : list ApiMessage;
  temperature : JSON.number;
  max_tokens : N
}.

Record OllamaRequest := {
  ollama_model : jsstring;
  ollama_messages : list ApiMessage;
  stream : bool
}.

(** The reply of the hosted completion endpoint, as the client reads it:
    [GroqThrows] when [fetch] rejects or the body cannot be read,
    [GroqNotOk] for a non-2xx status, with the upstream
    [error.message] when there is one. *)
Inductive GroqReply :=
| GroqThrows (e : JsError)
| GroqNotOk (status : N) (upstream : option jsstring)
| GroqOk (content : jsstring).

(** The reply of [/api/tags]: [TagsNoModels] when the body carries no
    [models] field. *)
Inductive TagsReply :=
| TagsThrows (e : JsError)
| TagsNotOk (status : N)
| TagsNoModels
| TagsModels (names : list jsstring).

(** The reply of [/api/chat]: [OllamaInvalid] when the body has no
    [message] or its [content] is not a string. *)
Inductive OllamaReply :=
| OllamaThrows (e : JsError)
| OllamaNotOk (status : N) (detail : option jsstring)
| OllamaInvalid
| OllamaOk (content : jsstring).

Inductive call :=
| fetchGroqChat (apiKey : jsstring) (body : GroqRequest)
| fetchOllamaTags
| fetchOllamaChat (body : OllamaRequest).

Definition resp (c : call) : Type :=
  match c with
  | fetchGroqChat _ _ => GroqReply
  | fetchOllamaTags => TagsReply
  | fetchOllamaChat _ => OllamaReply
  end.

Definition api (A : Type) := prog call resp A.

Local Open Scope prog_scope.

Definition groqDefaultModel : jsstring :=
  lit "meta-llama/llama-4-scout-17b-16e-instruct".

Definition ollamaDefaultModel : jsstring := lit "gemma3:4b-it-q4_K_M".

(** [{ role: msg.role, content: msg.content }] *)
Definition toApiMessage (msg : Message) : ApiMessage :=
  {| api_role := role msg; api_content := Plain (content msg) |}.

(** The [apiMessages] of [getGroqCompletion]. *)
Definition groqApiMessages (messages : list Message)
    (imageData : option (list jsstring)) : JsError + list ApiMessage :=
  match imageData with
  | Some (img :: imgs) =>
      let recentMessages := slice_last 10 messages in
      match last_elem recentMessages with
      | Some lastMessage =>
          let otherMessages := map toApiMessage (slice_init recentMessages) in
          let formattedContent :=
            TextPart (ImageHandling.textOrDefault (content lastMessage))
            :: map ImageUrlPart (img :: imgs) in
          inr (otherMessages ++
               [{| api_role := role lastMessage;
                   api_content := Parts formattedContent |}])
      | None => inl TypeError
      end
  | _ => inr (map toApiMessage messages)
  end.

Definition getGroqCompletion (env : Env) (messages : list Message)
    (imageData : option (list jsstring)) : api outcome :=
  match VITE_GROQ_CHAT_API_KEY env with
  | Some (k :: key) =>
      let groqChatApiKey := k :: key in
      let model := orElse (VITE_GROQ_CHAT_MODEL env) groqDefaultModel in
      match groqApiMessages messages imageData with
      | inr apiMessages =>
          reply <- trigger (fetchGroqChat groqChatApiKey
                      {| groq_model := model;
                         groq_messages := apiMessages;
                         temperature :=
                           {| JSON.neg := false; JSON.mant := 7;
                              JSON.exp10 := -1 |};
                         max_tokens := 2048 |}) ;;
          match reply return api outcome with
          | GroqThrows e => Ret (Throws e)
          | GroqNotOk status upstream =>
              Ret (Throws (Error
                (orElse upstream
                   (lit "Error calling Groq API: " ++ numToString status))))
          | GroqOk text => Ret (Returns text)
          end
      | inl e => Ret (Throws e)
      end
  | _ => Ret (Throws (Error (lit "Groq Chat API key is missing")))
  end.

(** [msg.role === 'assistant' ? 'assistant' : 'user'] *)
Definition ollamaRole (r : Role) : Role :=
  match r with
  | assistant => assistant
  | _ => user
  end.

Definition toOllamaMessage (msg : Message) : ApiMessage :=
  {| api_role := ollamaRole (role msg); api_content := Plain (content msg) |}.

(** The first [try] block of [getOllamaCompletion]: the model the request
    will name, or the error the block throws. *)
Definition checkOllamaModel (tags : TagsReply) (model : jsstring)
  : JsError + jsstring :=
  match tags with
  | TagsThrows e => inl e
  | TagsNotOk status =>
      inl (Error (lit "Ollama server not available: " ++ numToString status))
  | TagsNoModels => inl (Error (lit "No models found in Ollama"))
  | TagsModels availableModels =>
      if negb (arr_includes availableModels model) then
        match availableModels with
        | first :: _ => inr first
        | [] => inl (Error (lit "No models available in Ollama"))
        end
      else inr model
  end.

Definition ollamaUnavailable : jsstring :=
  lit "Ollama server not available or not running at http://localhost:11434. Please make sure Ollama is installed and running.".

(** The [requestBody] of [getOllamaCompletion]. *)
Definition ollamaRequestBody (messages : list Message) (model : jsstring)
    (imageData : option (list jsstring)) : JsError + OllamaRequest :=
  let hasVisionSupport := ImageHandling.modelSupportsVision model in
  let recentMessages := slice_last 10 messages in
  match hasVisionSupport, imageData with
  | true, Some (img :: imgs) =>
      match last_elem recentMessages with
      | Some lastMessage =>
          let otherMessages :=
            map toOllamaMessage (slice_init recentMessages) in
          let imageMessage :=
            ImageHandling.createImageMessage (content lastMessage)
              (img :: imgs) in
          inr {| ollama_model := model;
                 ollama_messages := otherMessages ++ [imageMessage];
                 stream := false |}
      | None => inl TypeError
      end
  | _, _ =>
      let cleanedMessages := map toOllamaMessage recentMessages in
      inr {| ollama_model := model;
             ollama_messages := cleanedMessages;
             stream := false |}
  end.

Definition getOllamaCompletion (messages : list Message)
    (model : option jsstring) (imageData : option (list jsstring))
  : api outcome :=
  let model :=
    match model with Some m => m | None => ollamaDefaultModel end in
  tags <- trigger fetchOllamaTags ;;
  match checkOllamaModel tags model with
  | inl e => Ret (Throws (Error ollamaUnavailable))
  | inr model =>
      match ollamaRequestBody messages model imageData with
      | inr requestBody =>
          reply <- trigger (fetchOllamaChat requestBody) ;;
          match reply return api outcome with
          | OllamaThrows e => Ret (Throws e)
          | OllamaNotOk status detail =>
              Ret (Throws (Error
                (orElse detail (lit "Ollama error: " ++ numToString status))))
          | OllamaInvalid =>
              Ret (Throws (Error (lit "Invalid response format from Ollama")))
          | OllamaOk text => Ret (Returns text)
          end
      | inl e => Ret (Throws e)
      end
  end.

(** Running a client against the collaborators: the oracle answers each call
    from the calls made so far, and the calls are recorded in order. *)
Definition oracle := list call -> forall c : call, resp c.

Definition handler (o : oracle) (c : call) (log : list call)
  : resp c * list call :=
  (o log c, log ++ [c]).

Definition run {A} (o : oracle) (p : api A) : A * list call :=
  exec (handler o) p [].

End Api.

(** ** [components/chat/ChatInterface.tsx] and [MessageInput] *)

Module Chat.

(** *** The content codec *)

(** What [parseMessageContent] returns.  The declared type promises a string
    and strings; what the function hands out at run time is whatever the
    parsed JSON carries, so the fields hold JSON values. *)
Record MessageContent := {
  text : JSON.value;
  images : list JSON.value
}.

Definition parseMessageContent (content : jsstring) : MessageContent :=
  let plain := {| text := JSON.JString content; images := [] |} in
  if startsWith content (lit "{") && endsWith content (lit "}") then
    match JSON.JSON_parse content with
    | Some parsed =>
        match JSON.getProperty parsed (lit "text") with
        | Some (Some parsed_text) =>
            {| text := if JSON.truthy parsed_text then parsed_text
                       else JSON.JString [];
               images :=
                 match JSON.getProperty parsed (lit "images") with
                 | Some (Some (JSON.JArray parsed_images)) => parsed_images
                 | _ => []
                 end |}
        | _ => plain
        end
    | None => plain
    end
  else plain.

(** The [content] string [storeMessageInDB] writes: the plain text when
    there are no images, the JSON of both otherwise. *)
Definition encodeContent (text : jsstring) (images : option (list jsstring))
  : jsstring :=
  match images with
  | Some (img :: imgs) => JSON.stringify_text_images text (img :: imgs)
  | _ => text
  end.

(** *** The component's state and its collaborators *)

Inductive Mode := online | offline.

Record User := { user_id : jsstring }.

(** An element of the in-memory sequence.  An object literal the component
    creates (a placeholder) carries the reference it is later compared by;
    a record decoded from a collaborator's reply is a different object from
    every placeholder and is never compared by reference otherwise. *)
Record Entry := { ref : option nat; msg : Message }.

(** [a === tmp] for a placeholder [tmp]. *)
Definition same_object (a tmp : Entry) : bool :=
  match ref a, ref tmp with
  | Some x, Some y => Nat.eqb x y
  | _, _ => false
  end.

Definition fromStore (m : Message) : Entry := {| ref := None; msg := m |}.

(** An error object: only its [message] is read. *)
Record Thrown := { message : jsstring }.

(** The [{ data, error }] a persistence call resolves to; the client
    reports a failure in [error] instead of rejecting. *)
Record DbResponse (A : Type) := { data : option A; db_error : option Thrown }.

Record State := {
  messages : list Entry;
  error : option jsstring;
  sending : bool;
  mode : Mode;
  ollamaModel : jsstring;
  ollamaAvailable : bool;
  (* MessageInput *)
  input_message : jsstring;
  input_images : list jsstring
}.

(** State setters and the creation of placeholders. *)
Inductive action :=
| SetMessages (f : list Entry -> list Entry)
| SetError (e : option jsstring)
| SetSending (b : bool)
| SetMode (m : Mode)
| SetInputMessage (s : jsstring)
| SetInputImages (l : list jsstring)
| NewObject (m : Message).

(** Calls to the collaborators: the persistence layer, the clock and the
    two provider clients. *)
Inductive request :=
| DateNow
| InsertMessage (chat_id : jsstring) (role : Role) (content : jsstring)
| SelectMessages (chat_id : jsstring)
| SelectChatTitle (chat_id : jsstring)
| UpdateChatTitle (chat_id : jsstring) (title : jsstring)
| UpdatePreferredMode (user_id : jsstring) (preferred_mode : Mode)
| GroqCompletion (messages : list (MessageOf JSON.value))
    (imageData : option (list jsstring))
| OllamaCompletion (messages : list (MessageOf JSON.value))
    (model : jsstring).

Definition action_resp (a : action) : Type :=
  match a with
  | NewObject _ => Entry
  | _ => unit
  end.

Definition reply (q : request) : Type :=
  match q with
  | DateNow => jsstring
  | InsertMessage _ _ _ => DbResponse (list Message)
  | SelectMessages _ => DbResponse (list Message)
  | SelectChatTitle _ => DbResponse jsstring
  | UpdateChatTitle _ _ => DbResponse unit
  | UpdatePreferredMode _ _ => DbResponse unit
  | GroqCompletion _ _ => (Thrown + jsstring)%type
  | OllamaCompletion _ _ => (Thrown + jsstring)%type
  end.

Definition call := (action + request)%type.

Definition resp (c : call) : Type :=
  match c with
  | inl a => action_resp a
  | inr q => reply q
  end.

Definition chat (A : Type) := prog call resp A.

Definition act (a : action) : chat (action_resp a) := @trigger call resp (inl a).
Definition ask (q : request) : chat (reply q) := @trigger call resp (inr q).

Definition setMessages f := act (SetMessages f).
Definition setError e := act (SetError e).
Definition setSending b := act (SetSending b).
Definition setMode m := act (SetMode m).

Local Open Scope prog_scope.

(** *** [storeMessageInDB] *)

Definition storeMessageInDB (chatId : jsstring) (role : Role)
    (text : jsstring) (images : option (list jsstring))
  : chat (DbResponse (list Message)) :=
  let content := encodeContent text images in
  ask (InsertMessage chatId role content).

(** *** The realtime subscription callback *)

(** [a === b] on identifiers that may be [undefined]. *)
Definition id_eqb (a b : option jsstring) : bool :=
  match a, b with
  | Some x, Some y => str_eqb x y
  | None, None => true
  | _, _ => false
  end.

(** The updater the callback hands to [setMessages]. *)
Definition mergeInsert (newMessage : Entry) (prev : list Entry) : list Entry :=
  let exists_ :=
    existsb (fun m => id_eqb (id (msg m)) (id (msg newMessage))) prev in
  if exists_ then prev else prev ++ [newMessage].

Definition onInsert (payload_new : Message) : chat unit :=
  let newMessage := fromStore payload_new in
  setMessages (mergeInsert newMessage).

(** *** [sendMessage] *)

(** [!images || images.length === 0] *)
Definition noImages (images : option (list jsstring)) : bool :=
  match images with
  | Some (_ :: _) => false
  | _ => true
  end.

(** [{ ...msg, content: text }] with the [text] of the decoded content. *)
Definition processMessage (m : Message) : MessageOf JSON.value :=
  {| id := id m; chat_id := chat_id m; role := role m;
     content := text (parseMessageContent (content m));
     created_at := created_at m; model := model m |}.

(** The title derived from the first message. *)
Definition newTitle (content : jsstring) : jsstring :=
  if 30 <? length content then substring content 0 30 ++ lit "..."
  else content.

(** The [TypeError] of [null.map(...)], in V8's wording. *)
Definition nullMapTypeError : Thrown :=
  {| message := lit "Cannot read properties of null (reading 'map')" |}.

Definition thinkingModel (mode : Mode) : jsstring :=
  match mode with
  | online => lit "groq-thinking"
  | offline => lit "ollama-thinking"
  end.

(** The call to the active provider client: [inl] is what the block
    throws. *)
Definition requestCompletion (env : Api.Env) (mode : Mode)
    (ollamaAvailable : bool) (ollamaModel : jsstring)
    (processedMessages : list (MessageOf JSON.value))
    (images : option (list jsstring)) : chat (Thrown + jsstring) :=
  match mode with
  | online =>
      match Api.VITE_GROQ_CHAT_API_KEY env with
      | Some (_ :: _) => ask (GroqCompletion processedMessages images)
      | _ =>
          Ret (inl {| message :=
            lit "Please set a valid Groq Chat API key in your .env file" |})
      end
  | offline =>
      if negb ollamaAvailable then
        Ret (inl {| message :=
          lit "Ollama is not running. Please start Ollama and try again." |})
      else
        r <- ask (OllamaCompletion processedMessages ollamaModel) ;;
        match r with
        | inl ollamaError =>
            Ret (inl {| message :=
              lit "Failed to get response from Ollama: "
              ++ message ollamaError |})
        | inr aiResponse => Ret (inr aiResponse)
        end
  end.

(** The title update after the first exchange. *)
Definition updateTitle (chatId : jsstring) (content : jsstring)
    (processedMessages : list (MessageOf JSON.value)) : chat unit :=
  if length processedMessages <=? 2 then
    t <- ask (SelectChatTitle chatId) ;;
    match db_error t, data t with
    | None, Some title =>
        if str_eqb title (lit "New Chat") then
          _ <- ask (UpdateChatTitle chatId (newTitle content)) ;; Ret tt
        else Ret tt
    | _, _ => Ret tt
    end
  else Ret tt.

(** The inner [try] block; [Some aiError] is what it throws. *)
Definition sendMessageInnerTry (env : Api.Env) (chatId : jsstring)
    (mode : Mode) (ollamaAvailable : bool) (ollamaModel : jsstring)
    (content : jsstring) (images : option (list jsstring))
    (processedMessages : list (MessageOf JSON.value))
    (tempAiMessage : Entry) : chat (option Thrown) :=
  completion <- requestCompletion env mode ollamaAvailable ollamaModel
                  processedMessages images ;;
  match completion with
  | inl aiError => Ret (Some aiError)
  | inr aiResponse =>
      setMessages (filter (fun m => negb (same_object m tempAiMessage))) ;;;
      r <- storeMessageInDB chatId assistant aiResponse None ;;
      match db_error r with
      | Some aiMessageError => Ret (Some aiMessageError)
      | None =>
          match data r with
          | Some (realAiMessage :: _) =>
              setMessages (fun prev =>
                filter (fun m => negb (same_object m tempAiMessage)) prev
                ++ [fromStore realAiMessage])
          | _ => Ret tt
          end ;;;
          updateTitle chatId content processedMessages ;;;
          Ret None
      end
  end.

(** The inner [catch] block. *)
Definition sendMessageInnerCatch (chatId : jsstring) (tempAiMessage : Entry)
    (aiError : Thrown) : chat unit :=
  setError (Some (lit "AI response error: " ++ message aiError)) ;;;
  setMessages (filter (fun m => negb (same_object m tempAiMessage))) ;;;
  e <- storeMessageInDB chatId assistant
         (lit "Sorry, I encountered an error while processing your request: "
          ++ message aiError ++ lit ". Please try again.")
         (Some []) ;;
  match data e with
  | Some (errorMsg :: _) =>
      setMessages (fun prev => prev ++ [fromStore errorMsg])
  | _ => Ret tt
  end.

(** The outer [try] block; [Some err] is what it throws. *)
Definition sendMessageTry (env : Api.Env) (chatId : jsstring)
    (mode : Mode) (ollamaAvailable : bool) (ollamaModel : jsstring)
    (content : jsstring) (images : option (list jsstring))
  : chat (option Thrown) :=
  setSending true ;;;
  setError None ;;;
  now <- ask DateNow ;;
  tempUserMessage <- act (NewObject
    {| id := None; chat_id := chatId; role := user;
       content := encodeContent content images;
       created_at := now; model := None |}) ;;
  setMessages (fun prev => prev ++ [tempUserMessage]) ;;;
  stored <- storeMessageInDB chatId user content images ;;
  match db_error stored with
  | Some userMessageError => Ret (Some userMessageError)
  | None =>
      match data stored with
      | Some (realUserMessage :: _) =>
          setMessages (map (fun m =>
            if same_object m tempUserMessage
            then fromStore realUserMessage else m))
      | _ => Ret tt
      end ;;;
      all <- ask (SelectMessages chatId) ;;
      match db_error all with
      | Some allMessagesError => Ret (Some allMessagesError)
      | None =>
          match data all with
          | None => Ret (Some nullMapTypeError)
          | Some allMessagesData =>
              let processedMessages := map processMessage allMessagesData in
              now' <- ask DateNow ;;
              tempAiMessage <- act (NewObject
                {| id := None; chat_id := chatId; role := assistant;
                   content := lit "..."; created_at := now';
                   model := Some (thinkingModel mode) |}) ;;
              setMessages (fun prev => prev ++ [tempAiMessage]) ;;;
              thrown <- sendMessageInnerTry env chatId mode ollamaAvailable
                          ollamaModel content images processedMessages
                          tempAiMessage ;;
              match thrown with
              | Some aiError =>
                  sendMessageInnerCatch chatId tempAiMessage aiError ;;;
                  Ret None
              | None => Ret None
              end
          end
      end
  end.

Definition sendMessage (env : Api.Env) (chatId : jsstring)
    (user : option User) (mode : Mode) (ollamaAvailable : bool)
    (ollamaModel : jsstring)
    (content : jsstring) (images : option (list jsstring)) : chat unit :=
  if (negb (nonEmpty (trim content)) && noImages images)
     || match user with None => true | Some _ => false end
     || negb (nonEmpty chatId)
  then Ret tt
  else
    thrown <- sendMessageTry env chatId mode ollamaAvailable ollamaModel
                content images ;;
    match thrown with
    | Some err =>
        setError (Some (lit "Error sending message: " ++ message err))
    | None => Ret tt
    end ;;;
    setSending false.

(** *** [toggleMode] *)

Definition toggleMode (user : option User) (mode : Mode)
    (ollamaAvailable : bool) : chat unit :=
  match mode, ollamaAvailable with
  | online, false =>
      setError (Some (lit
        "Ollama is not running. Please start Ollama before switching to offline mode."))
  | _, _ =>
      let newMode :=
        match mode with online => offline | offline => online end in
      setMode newMode ;;;
      match user with
      | Some u =>
          _ <- ask (UpdatePreferredMode (user_id u) newMode) ;; Ret tt
      | None => Ret tt
      end
  end.

(** *** [MessageInput] *)

(** [handleSend]: [onSendMessage] is the [sendMessage] of the enclosing
    component.  The two setters of the input run right after the
    synchronous prefix of [onSendMessage]; they touch fields nothing else
    writes, so they are placed after it. *)
Definition handleSend (disabled : bool) (message : jsstring)
    (images : list jsstring)
    (onSendMessage : jsstring -> option (list jsstring) -> chat unit)
  : chat unit :=
  if (nonEmpty (trim message) || (0 <? length images)) && negb disabled then
    onSendMessage message
      (if 0 <? length images then Some images else None) ;;;
    act (SetInputMessage []) ;;;
    act (SetInputImages [])
  else Ret tt.

(** The [disabled] prop [ChatInterface] passes to [MessageInput]. *)
Definition inputDisabled (st : State) : bool :=
  sending st ||
  (match mode st with offline => true | online => false end
   && negb (ollamaAvailable st)).

(** A Send request: the user submits the input of the rendered
    [MessageInput], whose props are those of the current state. *)
Definition requestSend (env : Api.Env) (chatId : jsstring)
    (user : option User) (st : State) : chat unit :=
  handleSend (inputDisabled st) (input_message st) (input_images st)
    (sendMessage env chatId user (mode st) (ollamaAvailable st)
       (ollamaModel st)).

(** The [disabled] attribute of the mode button. *)
Definition toggleDisabled (st : State) : bool :=
  match mode st with online => true | offline => false end
  && negb (ollamaAvailable st).

(** A mode-switch request: the user clicks the rendered mode button, whose
    [disabled] attribute and [onClick] handler are those of the current
    state.  A disabled button dispatches no click. *)
Definition requestToggleMode (user : option User) (st : State) : chat unit :=
  if toggleDisabled st then Ret tt
  else toggleMode user (mode st) (ollamaAvailable st).

(** *** Running the component *)

(** The world a handler runs in: the React state, the states it went
    through (oldest first, a state being recorded each time a setter
    replaces it), the next free object reference and the requests made so
    far. *)
Record World := {
  state : State;
  history : list State;
  next_ref : nat;
  log : list request
}.

(** The collaborators answer each request from the requests made so far. *)
Definition oracle := list request -> forall q : request, reply q.

Definition update (f : State -> State) (w : World) : World :=
  {| state := f (state w); history := history w ++ [state w];
     next_ref := next_ref w; log := log w |}.

Definition with_messages (f : list Entry -> list Entry) (st : State) : State :=
  {| messages := f (messages st); error := error st; sending := sending st;
     mode := mode st; ollamaModel := ollamaModel st;
     ollamaAvailable := ollamaAvailable st;
     input_message := input_message st; input_images := input_images st |}.

Definition with_error (e : option jsstring) (st : State) : State :=
  {| messages := messages st; error := e; sending := sending st;
     mode := mode st; ollamaModel := ollamaModel st;
     ollamaAvailable := ollamaAvailable st;
     input_message := input_message st; input_images := input_images st |}.

Definition with_sending (b : bool) (st : State) : State :=
  {| messages := messages st; error := error st; sending := b;
     mode := mode st; ollamaModel := ollamaModel st;
     ollamaAvailable := ollamaAvailable st;
     input_message := input_message st; input_images := input_images st |}.

Definition with_mode (m : Mode) (st : State) : State :=
  {| messages := messages st; error := error st; sending := sending st;
     mode := m; ollamaModel := ollamaModel st;
     ollamaAvailable := ollamaAvailable st;
     input_message := input_message st; input_images := input_images st |}.

Definition with_input_message (s : jsstring) (st : State) : State :=
  {| messages := messages st; error := error st; sending := sending st;
     mode := mode st; ollamaModel := ollamaModel st;
     ollamaAvailable := ollamaAvailable st;
     input_message := s; input_images := input_images st |}.

Definition with_input_images (l : list jsstring) (st : State) : State :=
  {| messages := messages st; error := error st; sending := sending st;
     mode := mode st; ollamaModel := ollamaModel st;
     ollamaAvailable := ollamaAvailable st;
     input_message := input_message st; input_images := l |}.

Definition perform (a : action) (w : World) : action_resp a * World :=
  match a return action_resp a * World with
  | SetMessages f => (tt, update (with_messages f) w)
  | SetError e => (tt, update (with_error e) w)
  | SetSending b => (tt, update (with_sending b) w)
  | SetMode m => (tt, update (with_mode m) w)
  | SetInputMessage s => (tt, update (with_input_message s) w)
  | SetInputImages l => (tt, update (with_input_images l) w)
  | NewObject m =>
      ({| ref := Some (next_ref w); msg := m |},
       {| state := state w; history := history w;
          next_ref := S (next_ref w); log := log w |})
  end.

Definition handler (o : oracle) (c : call) (w : World) : resp c * World :=
  match c return resp c * World with
  | inl a => perform a w
  | inr q =>
      (o (log w) q,
       {| state := state w; history := history w;
          next_ref := next_ref w; log := log w ++ [q] |})
  end.

Definition run {A} (o : oracle) (p : chat A) (w : World) : A * World :=
  exec (handler o) p w.

(** Every state of a run, the final one included. *)
Definition states (w : World) : list State := history w ++ [state w].

(** Requests to a provider client. *)
Definition isProviderCall (q : request) : bool :=
  match q with
  | GroqCompletion _ _ | OllamaCompletion _ _ => true
  | _ => false
  end.

(** The thinking placeholder is the one object the component creates with
    the content ["..."] and a [*-thinking] model. *)
Definition isThinking (e : Entry) : bool :=
  match ref e, model (msg e) with
  | Some _, Some m =>
      str_eqb m (lit "groq-thinking") || str_eqb m (lit "ollama-thinking")
  | _, _ => false
  end.

(** *** Vocabulary of the properties *)

(** A content string that [parseMessageContent] reads as structured: it has
    the outer shape of an object, parses, and the parsed value has a [text]
    property. *)
Definition structured (t : jsstring) : Prop :=
  startsWith t (lit "{") = true /\ endsWith t (lit "}") = true /\
  exists parsed v,
    JSON.JSON_parse t = Some parsed /\
    JSON.getProperty parsed (lit "text") = Some (Some v).

(** The input passes the guard at the head of [sendMessage]. *)
Definition sendable (content : jsstring) (images : option (list jsstring))
    (user : option User) (chatId : jsstring) : Prop :=
  (nonEmpty (trim content) = true \/ noImages images = false) /\
  user <> None /\ nonEmpty chatId = true.

(** The active provider can be called: the credential is configured in
    online mode, the local server was seen running in offline mode. *)
Definition providerReady (env : Api.Env) (mode : Mode) (avail : bool) : Prop :=
  match mode with
  | online => nonEmpty (orElse (Api.VITE_GROQ_CHAT_API_KEY env) []) = true
  | offline => avail = true
  end.

(** The request [sendMessage] makes to the active provider, and the answer
    of the collaborators to it. *)
Definition completionRequest (mode : Mode)
    (processed : list (MessageOf JSON.value))
    (images : option (list jsstring)) (model : jsstring) : request :=
  match mode with
  | online => GroqCompletion processed images
  | offline => OllamaCompletion processed model
  end.

Definition completionReply (o : oracle) (l : list request) (mode : Mode)
    (processed : list (MessageOf JSON.value))
    (images : option (list jsstring)) (model : jsstring) : Thrown + jsstring :=
  match mode with
  | online => o l (GroqCompletion processed images)
  | offline => o l (OllamaCompletion processed model)
  end.

Definition isRename (q : request) : bool :=
  match q with
  | UpdateChatTitle _ _ => true
  | _ => false
  end.

End Chat.

(** ** The image uploader ([ImageUploader.processFile]) *)

Module ImageUploader.

Import ImageHandling.

Inductive call :=
| setUploading (b : bool)
| setError (e : option jsstring)
| setDragActive (b : bool)
| compressImage (file : File)
| fileToBase64 (file : File)
| onImageUpload (dataUrl : jsstring).

Definition resp (c : call) : Type :=
  match c with
  | compressImage _ => (Chat.Thrown + File)%type
  | fileToBase64 _ => (Chat.Thrown + jsstring)%type
  | _ => unit
  end.

Definition uploader (A : Type) := prog call resp A.

Local Open Scope prog_scope.

(** The [try] block of [processFile]: [true] when it throws. *)
Definition processFileTry (file : File) : uploader bool :=
  @trigger call resp (setUploading true) ;;;
  @trigger call resp (setError None) ;;;
  if negb (isValidImageFile file) then
    @trigger call resp
      (setError (Some (lit "Please upload a valid image file (max 5MB)"))) ;;;
    Ret false
  else
    compressed <- @trigger call resp (compressImage file) ;;
    match compressed with
    | inl _ => Ret true
    | inr compressedFile =>
        converted <- @trigger call resp (fileToBase64 compressedFile) ;;
        match converted with
        | inl _ => Ret true
        | inr dataUrl =>
            @trigger call resp (onImageUpload dataUrl) ;;;
            Ret false
        end
    end.

Definition processFile (file : File) : uploader unit :=
  thrown <- processFileTry file ;;
  (if thrown : bool
   then @trigger call resp (setError (Some (lit "Failed to process image")))
   else Ret tt) ;;;
  @trigger call resp (setUploading false) ;;;
  @trigger call resp (setDragActive false).

Definition oracle := list call -> forall c : call, resp c.

Definition handler (o : oracle) (c : call) (log : list call)
  : resp c * list call :=
  (o log c, log ++ [c]).

Definition run {A} (o : oracle) (p : uploader A) : A * list call :=
  exec (handler o) p [].

(** The calls that process or hand over the image. *)
Definition isUpload (c : call) : bool :=
  match c with
  | compressImage _ | fileToBase64 _ | onImageUpload _ => true
  | _ => false
  end.

End ImageUploader.

(** ** Sample inputs *)

Module Samples.

Import Chat.

Definition dq : N := 34.

(** The text [{"text":"hi"}], typed by a user as a plain message. *)
Definition structuredLookingText : jsstring :=
  lit "{" ++ [dq] ++ lit "text" ++ [dq] ++ lit ":" ++ [dq] ++ lit "hi"
  ++ [dq] ++ lit "}".

(** A stored message, numbered [n]; user and assistant alternate. *)
Definition sample (n : nat) : Message :=
  {| id := Some (numToString (N.of_nat n)); chat_id := lit "chat-1";
     role := if Nat.even n then user else assistant;
     content := lit "message " ++ numToString (N.of_nat n);
     created_at := numToString (N.of_nat n); model := None |}.

Definition groqEnv : Api.Env :=
  {| Api.VITE_GROQ_CHAT_API_KEY := Some (lit "gsk-key");
     Api.VITE_GROQ_CHAT_MODEL := None |}.

Definition idle : State :=
  {| messages := []; error := None; sending := false; mode := online;
     ollamaModel := lit "gemma3:4b-it-q4_K_M"; ollamaAvailable := false;
     input_message := lit "Hello"; input_images := [] |}.

Definition busy : State := with_sending true idle.

Definition world (st : State) : World :=
  {| state := st; history := []; next_ref := 0; log := [] |}.

Definition alice : User := {| user_id := lit "user-1" |}.

Definition stored (chatId : jsstring) (r : Role) (c : jsstring) : Message :=
  {| id := Some (lit "m-1"); chat_id := chatId; role := r; content := c;
     created_at := lit "2025-01-01T00:00:00.000Z"; model := None |}.

Definition ok {A} (a : A) : DbResponse A :=
  {| data := Some a; db_error := None |}.

Definition failed {A} (m : jsstring) : DbResponse A :=
  {| data := None; db_error := Some {| message := m |} |}.

(** Collaborators that all succeed; the provider answers [provider]. *)
Definition answering (provider : Thrown + jsstring) : oracle :=
  fun _ q =>
    match q return reply q with
    | DateNow => lit "2025-01-01T00:00:00.000Z"
    | InsertMessage c r t => ok [stored c r t]
    | SelectMessages c => ok [stored c user (lit "Hello")]
    | SelectChatTitle _ => ok (lit "New Chat")
    | UpdateChatTitle _ _ => ok tt
    | UpdatePreferredMode _ _ => ok tt
    | GroqCompletion _ _ => provider
    | OllamaCompletion _ _ => provider
    end.

Definition happy : oracle := answering (inr (lit "Hi there")).

Definition providerDown : oracle :=
  answering (inl {| message := lit "upstream unavailable" |}).

(** A persistence layer that refuses every insert. *)
Definition storeDown : oracle :=
  fun l q =>
    match q return reply q with
    | InsertMessage _ _ _ => failed (lit "permission denied")
    | q' => happy l q'
    end.

(** A local server that runs with no model installed. *)
Definition noModels : Api.oracle :=
  fun _ c =>
    match c return Api.resp c with
    | Api.fetchGroqChat _ _ => Api.GroqOk (lit "Hi there")
    | Api.fetchOllamaTags => Api.TagsModels []
    | Api.fetchOllamaChat _ => Api.OllamaOk (lit "Hi there")
    end.

Definition longOpening : jsstring :=
  lit "This is a very long opening message exceeding thirty characters".

Definition textFile : ImageHandling.File :=
  {| ImageHandling.type := lit "text/plain"; ImageHandling.size := 10 |}.

End Samples.

(** ** Well-formed strings *)

Module Utf16.

(** A UTF-16 code unit. *)
Definition codeUnit (c : N) : Prop := (c < 65536)%N.

End Utf16.

(** ** Vocabulary of the properties of the session pipeline *)

Module Session.

Import Chat.

(** No element of the sequence is a thinking placeholder. *)
Definition noThinking (l : list Entry) : Prop :=
  Forall (fun e => isThinking e = false) l.

(** An element is no thinking placeholder, or it is the object [k]. *)
Definition okBut (k : nat) (e : Entry) : Prop :=
  isThinking e = false \/ ref e = Some k.


Definition flipMode (m : Mode) : Mode :=
  match m with online => offline | offline => online end.

(** The identifiers of a sequence, in order. *)
Definition ids (l : list Entry) : list (option jsstring) :=
  map (fun e => id (msg e)) l.

End Session.

(** ** The availability monitor ([isOllamaRunning], [getOllamaModels] and the
    [checkOllama] effect of [ChatInterface]) *)

Module Monitor.

(** What [fetch('http://localhost:11434/api/tags')] gives: the promise
    rejects, or a response with its [ok] flag and the names its body lists
    ([None] when the body cannot be read as JSON or has no [models]). *)
Inductive TagsResponse :=
| FetchRejected
| Response (ok : bool) (models : option (list jsstring)).

Record State := {
  ollamaAvailable : bool;
  availableModels : list jsstring;
  ollamaModel : jsstring;
  error : option jsstring
}.

Inductive call :=
| fetchTags
| setOllamaAvailable (b : bool)
| setAvailableModels (l : list jsstring)
| setOllamaModel (m : jsstring)
| setError (e : option jsstring).

Definition resp (c : call) : Type :=
  match c with
  | fetchTags => TagsResponse
  | _ => unit
  end.

Definition monitor (A : Type) := prog call resp A.

Local Open Scope prog_scope.

Definition isOllamaRunning : monitor bool :=
  response <- @trigger call resp fetchTags ;;
  match response return monitor bool with
  | FetchRejected => Ret false
  | Response ok _ => Ret ok
  end.

Definition getOllamaModels : monitor (list jsstring) :=
  response <- @trigger call resp fetchTags ;;
  match response return monitor (list jsstring) with
  | FetchRejected => Ret []
  | Response false _ => Ret []
  | Response true (Some names) => Ret names
  | Response true None => Ret []
  end.

(** [checkOllama]; [ollamaModel] is the value the effect closed over. *)
Definition checkOllama (ollamaModel : jsstring) : monitor unit :=
  running <- isOllamaRunning ;;
  @trigger call resp (setOllamaAvailable running) ;;;
  if running : bool then
    models <- getOllamaModels ;;
    @trigger call resp (setAvailableModels models) ;;;
    if (0 <? length models) && negb (arr_includes models ollamaModel) then
      match models with
      | first :: _ => @trigger call resp (setOllamaModel first)
      | [] => Ret tt
      end
    else Ret tt
  else Ret tt.

(** The [ollama] branch of [testConnection]; the two helpers never throw,
    so its [catch] block is not reached. *)
Definition testOllamaConnection (ollamaModel : jsstring) : monitor unit :=
  isRunning <- isOllamaRunning ;;
  if negb isRunning then
    @trigger call resp (setError (Some (lit
      "Ollama is not running. Please start Ollama and try again.")))
  else
    models <- getOllamaModels ;;
    if length models =? 0 then
      @trigger call resp (setError (Some (lit
        "Connected to Ollama, but no models were found. Please install at least one model.")))
    else
      @trigger call resp (setError (Some
        (lit "Ollama API connection successful. Available models: "
         ++ JSON.join (lit ", ") models))) ;;;
      if negb (arr_includes models ollamaModel) && (0 <? length models) then
        match models with
        | first :: _ => @trigger call resp (setOllamaModel first)
        | [] => Ret tt
        end
      else Ret tt.

(** The state and the number of probes made; the [n]-th probe is answered
    by [o n]. *)
Record World := { state : State; probes : nat }.

Definition oracle := nat -> TagsResponse.

Definition handler (o : oracle) (c : call) (w : World) : resp c * World :=
  match c return resp c * World with
  | fetchTags => (o (probes w), {| state := state w; probes := S (probes w) |})
  | setOllamaAvailable b =>
      (tt, {| state := {| ollamaAvailable := b;
                          availableModels := availableModels (state w);
                          ollamaModel := ollamaModel (state w);
                          error := error (state w) |};
              probes := probes w |})
  | setAvailableModels l =>
      (tt, {| state := {| ollamaAvailable := ollamaAvailable (state w);
                          availableModels := l;
                          ollamaModel := ollamaModel (state w);
                          error := error (state w) |};
              probes := probes w |})
  | setOllamaModel m =>
      (tt, {| state := {| ollamaAvailable := ollamaAvailable (state w);
                          availableModels := availableModels (state w);
                          ollamaModel := m;
                          error := error (state w) |};
              probes := probes w |})
  | setError e =>
      (tt, {| state := {| ollamaAvailable := ollamaAvailable (state w);
                          availableModels := availableModels (state w);
                          ollamaModel := ollamaModel (state w);
                          error := e |};
              probes := probes w |})
  end.

Definition run {A} (o : oracle) (p : monitor A) (w : World) : A * World :=
  exec (handler o) p w.

(** The probe finds the server running. *)
Definition answersOk (r : TagsResponse) : bool :=
  match r with
  | Response true _ => true
  | _ => false
  end.

(** The names a probe lists. *)
Definition listed (r : TagsResponse) : list jsstring :=
  match r with
  | Response true (Some names) => names
  | _ => []
  end.

End Monitor.

(** ** [modelSupportsGroqVision] ([utils/api]) *)

Module Capability.

Definition visionModels : list jsstring :=
  [lit "meta-llama/llama-4-scout-17b-16e-instruct";
   lit "meta-llama/llama-4-maverick-17b-128e-instruct";
   lit "llama-4-scout";
   lit "llama-4-maverick"].

(** Truthiness of a configuration value that may be absent. *)
Definition configured (x : option jsstring) : bool :=
  match x with
  | Some (_ :: _) => true
  | _ => false
  end.

Definition modelSupportsGroqVision (env : Api.Env) : bool :=
  let model := orElse (Api.VITE_GROQ_CHAT_MODEL env) Api.groqDefaultModel in
  existsb (fun m => includes model m) visionModels.

End Capability.

(** ** Vocabulary of the properties of [processFile] *)

Module Upload.

Import ImageUploader.

(** The call that hands the image to the parent. *)
Definition isHandOver (c : call) : bool :=
  match c with
  | onImageUpload _ => true
  | _ => false
  end.

(** A call that displays an error. *)
Definition isErrorReport (c : call) : bool :=
  match c with
  | setError (Some _) => true
  | _ => false
  end.

End Upload.

(** ** Loading and resetting the conversation ([fetchMessages],
    [resetChat]) *)

Module History.

Import Chat.

(** The part of the component's state the two functions write.  [messages]
    is [None] when the state holds [null]. *)
Record State := {
  messages : option (list Entry);
  loading : bool;
  error : option jsstring
}.

Inductive action :=
| SetMessages (v : option (list Entry))
| SetLoading (b : bool)
| SetError (e : option jsstring).

Inductive request :=
| SelectMessages (chat_id : jsstring)
| DeleteMessages (chat_id : jsstring)
| Confirm (text : jsstring).

Definition reply (q : request) : Type :=
  match q with
  | SelectMessages _ => DbResponse (list Message)
  | DeleteMessages _ => DbResponse unit
  | Confirm _ => bool
  end.

Definition call := (action + request)%type.

Definition resp (c : call) : Type :=
  match c with
  | inl _ => unit
  | inr q => reply q
  end.

Definition page (A : Type) := prog call resp A.

Definition act (a : action) : page unit := @trigger call resp (inl a).
Definition ask (q : request) : page (reply q) := @trigger call resp (inr q).

Local Open Scope prog_scope.

Definition fetchMessages (chatId : jsstring) : page unit :=
  if negb (nonEmpty chatId) then Ret tt
  else
    act (SetLoading true) ;;;
    act (SetError None) ;;;
    r <- ask (SelectMessages chatId) ;;
    match db_error r with
    | Some _ => act (SetError (Some (lit "Failed to load messages")))
    | None => act (SetMessages (option_map (map fromStore) (data r)))
    end ;;;
    act (SetLoading false).

Definition resetChat (chatId : jsstring) : page unit :=
  if negb (nonEmpty chatId) then Ret tt
  else
    confirmed <- ask (Confirm (lit
      "Are you sure you want to reset this chat? All messages will be deleted.")) ;;
    if negb confirmed then Ret tt
    else
      act (SetLoading true) ;;;
      r <- ask (DeleteMessages chatId) ;;
      match db_error r with
      | Some _ => act (SetError (Some (lit "Failed to reset chat")))
      | None => act (SetMessages (Some [])) ;;; act (SetError None)
      end ;;;
      act (SetLoading false).

Record World := { state : State; log : list request }.

Definition oracle := list request -> forall q : request, reply q.

Definition perform (a : action) (st : State) : State :=
  match a with
  | SetMessages v =>
      {| messages := v; loading := loading st; error := error st |}
  | SetLoading b =>
      {| messages := messages st; loading := b; error := error st |}
  | SetError e =>
      {| messages := messages st; loading := loading st; error := e |}
  end.

Definition handler (o : oracle) (c : call) (w : World) : resp c * World :=
  match c return resp c * World with
  | inl a => (tt, {| state := perform a (state w); log := log w |})
  | inr q => (o (log w) q, {| state := state w; log := log w ++ [q] |})
  end.

Definition run {A} (o : oracle) (p : page A) (w : World) : A * World :=
  exec (handler o) p w.

End History.

(** ** The list of conversations ([ChatPage]: [fetchChats],
    [createNewChat], [deleteChat]) *)

Module ChatPage.

Import Chat.

(** A [Chat] of [src/types/index.ts]. *)
Record ChatRecord := {
  id : jsstring;
  title : jsstring;
  created_at : jsstring;
  updated_at : jsstring;
  is_active : bool
}.

(** [chats] is [None] when the state holds the [null] a reply carried. *)
Record State := {
  chats : option (list ChatRecord);
  activeChat : option jsstring;
  loading : bool;
  error : option jsstring
}.

Inductive action :=
| StopPropagation
| SetChats (v : option (list ChatRecord))
| SetActiveChat (v : option jsstring)
| SetLoading (b : bool)
| SetError (e : option jsstring).

Inductive request :=
| Confirm (text : jsstring)
| SelectChats (user_id : jsstring)
| InsertChat (user_id : jsstring) (title : jsstring)
| DeactivateChat (chatId : jsstring).

Definition reply (q : request) : Type :=
  match q with
  | Confirm _ => bool
  | SelectChats _ => DbResponse (list ChatRecord)
  | InsertChat _ _ => DbResponse (list ChatRecord)
  | DeactivateChat _ => DbResponse unit
  end.

Definition call := (action + request)%type.

Definition resp (c : call) : Type :=
  match c with
  | inl _ => unit
  | inr q => reply q
  end.

Definition page (A : Type) := prog call resp A.

Definition act (a : action) : page unit := @trigger call resp (inl a).
Definition ask (q : request) : page (reply q) := @trigger call resp (inr q).

Local Open Scope prog_scope.

(** What [createNewChat] does once the insert has answered.  [chats] is the
    list of the render the function was created in. *)
Definition createNewChatThen (chats : list ChatRecord)
    (r : DbResponse (list ChatRecord)) : page unit :=
  match db_error r with
  | Some _ => act (SetError (Some (lit "Failed to create new chat")))
  | None =>
      match data r with
      | Some (newChat :: _) =>
          act (SetChats (Some (newChat :: chats))) ;;;
          act (SetActiveChat (Some (id newChat)))
      | _ => Ret tt
      end
  end.

Definition createNewChat (user : option User) (chats : list ChatRecord)
  : page unit :=
  match user with
  | None => Ret tt
  | Some u =>
      r <- ask (InsertChat (user_id u) (lit "New Chat")) ;;
      createNewChatThen chats r
  end.

(** [chat.id !== chatId] *)
Definition otherThan (chatId : jsstring) (chat : ChatRecord) : bool :=
  negb (str_eqb (id chat) chatId).

(** [activeChat === chatId] *)
Definition isActive (activeChat : option jsstring) (chatId : jsstring) : bool :=
  match activeChat with
  | Some a => str_eqb a chatId
  | None => false
  end.

(** [deleteChat]; [chats] and [activeChat] are the values of the render the
    handler was created in, which [createNewChat] shares.  The call to
    [createNewChat] is not awaited; nothing follows it in [deleteChat], so
    its effects come in the order written here. *)
Definition deleteChat (user : option User) (chats : list ChatRecord)
    (activeChat : option jsstring) (chatId : jsstring) : page unit :=
  act StopPropagation ;;;
  confirmed <- ask (Confirm (lit "Are you sure you want to delete this chat?")) ;;
  if negb confirmed then Ret tt
  else
    r <- ask (DeactivateChat chatId) ;;
    match db_error r with
    | Some _ => act (SetError (Some (lit "Failed to delete chat")))
    | None =>
        act (SetChats (Some (filter (otherThan chatId) chats))) ;;;
        if isActive activeChat chatId then
          let remainingChats := filter (otherThan chatId) chats in
          match remainingChats with
          | first :: _ => act (SetActiveChat (Some (id first)))
          | [] =>
              act (SetActiveChat None) ;;;
              createNewChat user chats
          end
        else Ret tt
    end.

(** [fetchChats]; [chats] is the list of the render the effect was created
    in.  [createNewChat] is not awaited: its insert is requested, the
    [finally] block clears the loading flag, and the rest of
    [createNewChat] runs when the insert answers. *)
Definition fetchChats (user : option User) (chats : list ChatRecord)
  : page unit :=
  match user with
  | None => Ret tt
  | Some u =>
      act (SetLoading true) ;;;
      act (SetError None) ;;;
      r <- ask (SelectChats (user_id u)) ;;
      match db_error r with
      | Some _ =>
          act (SetError (Some (lit "Failed to load chats"))) ;;;
          act (SetLoading false)
      | None =>
          act (SetChats (data r)) ;;;
          match data r with
          | Some (first :: _) =>
              act (SetActiveChat (Some (id first))) ;;;
              act (SetLoading false)
          | _ =>
              inserted <- ask (InsertChat (user_id u) (lit "New Chat")) ;;
              act (SetLoading false) ;;;
              createNewChatThen chats inserted
          end
      end
  end.

Record World := { state : State; log : list request }.

Definition oracle := list request -> forall q : request, reply q.

Definition perform (a : action) (st : State) : State :=
  match a with
  | StopPropagation => st
  | SetChats v =>
      {| chats := v; activeChat := activeChat st; loading := loading st;
         error := error st |}
  | SetActiveChat v =>
      {| chats := chats st; activeChat := v; loading := loading st;
         error := error st |}
  | SetLoading b =>
      {| chats := chats st; activeChat := activeChat st; loading := b;
         error := error st |}
  | SetError e =>
      {| chats := chats st; activeChat := activeChat st;
         loading := loading st; error := e |}
  end.

Definition handler (o : oracle) (c : call) (w : World) : resp c * World :=
  match c return resp c * World with
  | inl a => (tt, {| state := perform a (state w); log := log w |})
  | inr q => (o (log w) q, {| state := state w; log := log w ++ [q] |})
  end.

Definition run {A} (o : oracle) (p : page A) (w : World) : A * World :=
  exec (handler o) p w.

End ChatPage.

(** ** The login form ([Login.handleSubmit]) *)

Module LoginForm.

Import Chat.

(** What [signIn] gives: the promise rejects, or it resolves with an
    [error] that may be absent. *)
Inductive SignInResult :=
| Rejected
| Resolved (error : option Thrown).

Inductive call :=
| preventDefault
| setError (e : option jsstring)
| setLoading (b : bool)
| signIn (email password : jsstring)
| navigate (path : jsstring).

Definition resp (c : call) : Type :=
  match c with
  | signIn _ _ => SignInResult
  | _ => unit
  end.

Definition form (A : Type) := prog call resp A.

Local Open Scope prog_scope.

Definition handleSubmit (email password : jsstring) : form unit :=
  @trigger call resp preventDefault ;;;
  if negb (nonEmpty email) || negb (nonEmpty password) then
    @trigger call resp (setError (Some (lit "Please fill in all fields")))
  else
    @trigger call resp (setError None) ;;;
    @trigger call resp (setLoading true) ;;;
    result <- @trigger call resp (signIn email password) ;;
    match result with
    | Resolved (Some error) =>
        @trigger call resp (setError (Some (message error)))
    | Resolved None => @trigger call resp (navigate (lit "/chat"))
    | Rejected =>
        @trigger call resp
          (setError (Some (lit "An unexpected error occurred")))
    end ;;;
    @trigger call resp (setLoading false).

Definition oracle := list call -> forall c : call, resp c.

Definition handler (o : oracle) (c : call) (log : list call)
  : resp c * list call :=
  (o log c, log ++ [c]).

Definition run {A} (o : oracle) (p : form A) : A * list call :=
  exec (handler o) p [].

Definition isSignIn (c : call) : bool :=
  match c with
  | signIn _ _ => true
  | _ => false
  end.

Definition isNavigate (c : call) : bool :=
  match c with
  | navigate _ => true
  | _ => false
  end.

End LoginForm.

(** ** The password form ([ResetPassword.handleSubmit]) *)

Module PasswordForm.

Import Chat.

(** What [updatePassword] gives: the promise rejects, or it resolves with an
    [error] that may be absent. *)
Inductive UpdateResult :=
| Rejected
| Resolved (error : option Thrown).

Inductive call :=
| preventDefault
| setError (e : option jsstring)
| setLoading (b : bool)
| setSuccessMessage (m : option jsstring)
| updatePassword (password : jsstring)
| navigateLater (path : jsstring) (delay : N).

Definition resp (c : call) : Type :=
  match c with
  | updatePassword _ => UpdateResult
  | _ => unit
  end.

Definition form (A : Type) := prog call resp A.

Local Open Scope prog_scope.

Definition handleSubmit (password confirmPassword : jsstring) : form unit :=
  @trigger call resp preventDefault ;;;
  if negb (nonEmpty password) || negb (nonEmpty confirmPassword) then
    @trigger call resp (setError (Some (lit "Please fill in all fields")))
  else if negb (str_eqb password confirmPassword) then
    @trigger call resp (setError (Some (lit "Passwords do not match")))
  else if length password <? 6 then
    @trigger call resp
      (setError (Some (lit "Password must be at least 6 characters")))
  else
    @trigger call resp (setError None) ;;;
    @trigger call resp (setLoading true) ;;;
    result <- @trigger call resp (updatePassword password) ;;
    match result with
    | Resolved (Some error) =>
        @trigger call resp (setError (Some (message error)))
    | Resolved None =>
        @trigger call resp
          (setSuccessMessage (Some (lit "Password updated successfully!"))) ;;;
        @trigger call resp (navigateLater (lit "/login") 2000)
    | Rejected =>
        @trigger call resp
          (setError (Some (lit "An unexpected error occurred")))
    end ;;;
    @trigger call resp (setLoading false).

Definition oracle := list call -> forall c : call, resp c.

Definition handler (o : oracle) (c : call) (log : list call)
  : resp c * list call :=
  (o log c, log ++ [c]).

Definition run {A} (o : oracle) (p : form A) : A * list call :=
  exec (handler o) p [].

Definition isUpdate (c : call) : bool :=
  match c with
  | updatePassword _ => true
  | _ => false
  end.

(** The three checks of the form. *)
Definition valid (password confirmPassword : jsstring) : Prop :=
  password <> [] /\ confirmPassword = password /\ 6 <= length password.

End PasswordForm.

(** ** Text to speech ([utils/tts]) *)

Module Tts.

Definition DEFAULT_VOICE : jsstring := lit "Arista-PlayAI".

Definition isSuitableForTTS (text : jsstring) : bool :=
  (0 <? length text) && (length text <=? 5000).

Record SpeechRequest := {
  speech_model : jsstring;
  input : jsstring;
  voice : jsstring;
  response_format : jsstring
}.

(** The reply of the speech endpoint: [fetch] rejects or the blob cannot be
    read, a non-2xx status with the upstream [error.message] when the body
    has one, or the audio blob. *)
Inductive SpeechReply :=
| SpeechThrows (e : Api.JsError)
| SpeechNotOk (status : N) (upstream : option jsstring)
| SpeechOk (blob : nat).

Inductive call :=
| fetchSpeech (apiKey : jsstring) (body : SpeechRequest)
| createObjectURL (blob : nat)
| playAudio (audioUrl : jsstring).

(** [playAudio] hands back the audio element; a rejected [play()] is
    logged and changes nothing. *)
Definition resp (c : call) : Type :=
  match c with
  | fetchSpeech _ _ => SpeechReply
  | createObjectURL _ => jsstring
  | playAudio _ => nat
  end.

Definition tts (A : Type) := prog call resp A.

Local Open Scope prog_scope.

(** The value of an [async] function: what it returns or what it throws. *)
Inductive outcome (A : Type) :=
| Returns (a : A)
| Throws (e : Api.JsError).
Arguments Throws {A} e.

Definition textToSpeech (groqTtsApiKey : option jsstring)
    (text : jsstring) (voice : jsstring) : tts (outcome jsstring) :=
  match groqTtsApiKey with
  | Some (k :: key) =>
      reply <- @trigger call resp (fetchSpeech (k :: key)
                 {| speech_model := lit "playai-tts"; input := text;
                    voice := voice; response_format := lit "wav" |}) ;;
      match reply return tts (outcome jsstring) with
      | SpeechThrows e => Ret (Throws e)
      | SpeechNotOk status upstream =>
          Ret (Throws (Api.Error
            (orElse upstream
               (lit "Error calling Groq TTS API: " ++ numToString status))))
      | SpeechOk audioBlob =>
          audioUrl <- @trigger call resp (createObjectURL audioBlob) ;;
          Ret (Returns audioUrl)
      end
  | _ => Ret (Throws (Api.Error (lit "Groq TTS API key is missing")))
  end.

(** [speakText]: [Returns None] is the [null] of an unsuitable text. *)
Definition speakText (groqTtsApiKey : option jsstring)
    (text : jsstring) (voice : jsstring) : tts (outcome (option nat)) :=
  if negb (isSuitableForTTS text) then Ret (Returns None)
  else
    converted <- textToSpeech groqTtsApiKey text voice ;;
    match converted return tts (outcome (option nat)) with
    | Returns audioUrl =>
        audio <- @trigger call resp (playAudio audioUrl) ;;
        Ret (Returns (Some audio))
    | Throws e => Ret (Throws e)
    end.

Definition oracle := list call -> forall c : call, resp c.

Definition handler (o : oracle) (c : call) (log : list call)
  : resp c * list call :=
  (o log c, log ++ [c]).

Definition run {A} (o : oracle) (p : tts A) : A * list call :=
  exec (handler o) p [].

End Tts.

(** ** Further sample inputs *)

Module Inputs.

Definition picture : jsstring := lit "data:image/png;base64,iVBORw0KGgo=".

(** The text [{"text":0,"images":"x"}], typed by a user as a plain
    message. *)
Definition zeroText : jsstring :=
  lit "{" ++ [Samples.dq] ++ lit "text" ++ [Samples.dq] ++ lit ":0,"
  ++ [Samples.dq] ++ lit "images" ++ [Samples.dq] ++ lit ":"
  ++ [Samples.dq] ++ lit "x" ++ [Samples.dq] ++ lit "}".

Definition offlineIdle : Chat.State := Chat.with_mode Chat.offline Samples.idle.

(** A local server with one model installed. *)
Definition oneModel : Api.oracle :=
  fun _ c =>
    match c return Api.resp c with
    | Api.fetchGroqChat _ _ => Api.GroqOk (lit "Hi there")
    | Api.fetchOllamaTags => Api.TagsModels [lit "llama3:8b"]
    | Api.fetchOllamaChat _ => Api.OllamaOk (lit "Hi there")
    end.

Definition serverDown : Monitor.oracle := fun _ => Monitor.FetchRejected.

Definition serverUp : Monitor.oracle :=
  fun _ => Monitor.Response true (Some [lit "llama3:8b"]).

Definition monitorStart : Monitor.World :=
  {| Monitor.state :=
       {| Monitor.ollamaAvailable := true;
          Monitor.availableModels := [lit "gemma3:4b-it-q4_K_M"];
          Monitor.ollamaModel := lit "gemma3:4b-it-q4_K_M";
          Monitor.error := None |};
     Monitor.probes := 0 |}.

(** A persistence layer that answers every request; the user answers the
    confirmation dialog with [confirmed]. *)
Definition historyOk (confirmed : bool) : History.oracle :=
  fun _ q =>
    match q return History.reply q with
    | History.SelectMessages c =>
        Samples.ok [Samples.stored c user (lit "Hello")]
    | History.DeleteMessages _ => Samples.ok tt
    | History.Confirm _ => confirmed
    end.

(** An account service that accepts the new password. *)
Definition updateOk : PasswordForm.oracle :=
  fun _ c =>
    match c return PasswordForm.resp c with
    | PasswordForm.updatePassword _ => PasswordForm.Resolved None
    | PasswordForm.preventDefault => tt
    | PasswordForm.setError _ => tt
    | PasswordForm.setLoading _ => tt
    | PasswordForm.setSuccessMessage _ => tt
    | PasswordForm.navigateLater _ _ => tt
    end.

(** A speech endpoint that answers with a blob. *)
Definition speaker : Tts.oracle :=
  fun _ c =>
    match c return Tts.resp c with
    | Tts.fetchSpeech _ _ => Tts.SpeechOk 0
    | Tts.createObjectURL _ => lit "blob:audio"
    | Tts.playAudio _ => 0
    end.

(** Two conversations, and a persistence layer for the list of them: every
    request succeeds, the dialog is confirmed, an insert returns [fresh]. *)
Definition chatA : ChatPage.ChatRecord :=
  {| ChatPage.id := lit "chat-a"; ChatPage.title := lit "First";
     ChatPage.created_at := lit "2025-01-01T00:00:00.000Z";
     ChatPage.updated_at := lit "2025-01-01T00:00:00.000Z";
     ChatPage.is_active := true |}.

Definition chatB : ChatPage.ChatRecord :=
  {| ChatPage.id := lit "chat-b"; ChatPage.title := lit "Second";
     ChatPage.created_at := lit "2025-01-02T00:00:00.000Z";
     ChatPage.updated_at := lit "2025-01-02T00:00:00.000Z";
     ChatPage.is_active := true |}.

Definition fresh : ChatPage.ChatRecord :=
  {| ChatPage.id := lit "chat-new"; ChatPage.title := lit "New Chat";
     ChatPage.created_at := lit "2025-01-03T00:00:00.000Z";
     ChatPage.updated_at := lit "2025-01-03T00:00:00.000Z";
     ChatPage.is_active := true |}.

Definition chatsOk (rows : list ChatPage.ChatRecord) : ChatPage.oracle :=
  fun _ q =>
    match q return ChatPage.reply q with
    | ChatPage.Confirm _ => true
    | ChatPage.SelectChats _ => Samples.ok rows
    | ChatPage.InsertChat _ _ => Samples.ok [fresh]
    | ChatPage.DeactivateChat _ => Samples.ok tt
    end.

Definition sidebar (rows : list ChatPage.ChatRecord)
    (active : option jsstring) : ChatPage.World :=
  {| ChatPage.state :=
       {| ChatPage.chats := Some rows; ChatPage.activeChat := active;
          ChatPage.loading := false; ChatPage.error := None |};
     ChatPage.log := [] |}.

(** An account service that lets the user in. *)
Definition signInOk : LoginForm.oracle :=
  fun _ c =>
    match c return LoginForm.resp c with
    | LoginForm.signIn _ _ => LoginForm.Resolved None
    | LoginForm.preventDefault => tt
    | LoginForm.setError _ => tt
    | LoginForm.setLoading _ => tt
    | LoginForm.navigate _ => tt
    end.

Definition page : History.World :=
  {| History.state :=
       {| History.messages := Some []; History.loading := false;
          History.error := None |};
     History.log := [] |}.

End Inputs.

(** * Properties *)

Import JSON Chat.

(** ** Strings *)

Lemma str_eqb_eq (a b : jsstring) : str_eqb a b = true <-> a = b.
Proof.
  revert b; induction a as [|x a IH]; intros [|y b]; simpl;
    try (split; [discriminate | discriminate]); try tauto.
  rewrite andb_true_iff, N.eqb_eq, IH.
  split; [intros [-> ->]; reflexivity | intros [= -> ->]; auto].
Qed.

Lemma id_eqb_eq a b : id_eqb a b = true <-> a = b.
Proof.
  destruct a, b; simpl; try (split; congruence).
  rewrite str_eqb_eq. split; congruence.
Qed.

(** ** [JSON.parse] is total, and a parsed string is shorter than its text *)

Lemma skip_ws_length s : length (skip_ws s) <= length s.
Proof.
  induction s as [|c s IH]; simpl; [lia|].
  destruct (isJsonWhiteSpace c); simpl; lia.
Qed.

Lemma span_digits_length s ds rest :
  span_digits s = (ds, rest) -> length rest + length ds = length s.
Proof.
  revert ds rest; induction s as [|c s IH]; simpl; intros ds rest H.
  - injection H as <- <-. reflexivity.
  - destruct (digit c).
    + destruct (span_digits s) as [ds' rest'] eqn:E.
      injection H as <- <-. specialize (IH _ _ eq_refl). simpl. lia.
    + injection H as <- <-. simpl. lia.
Qed.

Lemma parse_string_length s str rest :
  parse_string s = Some (str, rest) -> length rest < length s.
Proof.
  remember (length s) as n eqn:Hn.
  revert s Hn str rest.
  induction n as [n IH] using lt_wf_ind.
  intros s Hn str rest H.
  destruct s as [|c r]; [discriminate|].
  simpl in H.
  destruct (c =? 34)%N.
  { injection H as <- <-. subst. simpl. lia. }
  destruct (c =? 92)%N.
  { destruct r as [|e r1]; [discriminate|].
    assert (Hsimple : forall u, match parse_string r1 with
              | Some (str, rest) => Some (u :: str, rest)
              | None => None end = Some (str, rest) -> length rest < n).
    { intros u Hu. destruct (parse_string r1) as [[s' r']|] eqn:E; [|discriminate].
      injection Hu as <- <-.
      assert (length r' < length r1) by (eapply (IH (length r1)); subst; simpl; eauto; lia).
      subst; simpl; lia. }
    repeat match type of H with
           | (if ?b then _ else _) = _ => destruct b; [eapply Hsimple; exact H|]
           end.
    destruct (e =? 117)%N; [|discriminate].
    destruct r1 as [|h1 [|h2 [|h3 [|h4 r2]]]]; try discriminate.
    destruct (hex4 h1 h2 h3 h4); [|discriminate].
    destruct (parse_string r2) as [[s' r']|] eqn:E; [|discriminate].
    injection H as <- <-.
    assert (length r' < length r2) by (eapply (IH (length r2)); subst; simpl; eauto; lia).
    subst; simpl; lia. }
  destruct (c <? 32)%N; [discriminate|].
  destruct (parse_string r) as [[s' r']|] eqn:E; [|discriminate].
  injection H as <- <-.
  assert (length r' < length r) by (eapply (IH (length r)); subst; simpl; eauto; lia).
  subst; simpl; lia.
Qed.

Lemma startsWith_length s p : startsWith s p = true -> length p <= length s.
Proof.
  revert s; induction p as [|x p IH]; intros [|c s]; simpl; try lia; try discriminate.
  rewrite andb_true_iff. intros [_ H]. apply IH in H. lia.
Qed.

Lemma parse_int_length s ds rest :
  parse_int s = Some (ds, rest) -> length rest < length s.
Proof.
  destruct s as [|c r]; simpl; [discriminate|].
  destruct (c =? 48)%N.
  - intros [= <- <-]. lia.
  - destruct (digit c); [|discriminate].
    destruct (span_digits r) as [ds' rest'] eqn:E.
    intros [= <- <-]. apply span_digits_length in E. lia.
Qed.

Lemma expect_length c s r : expect c s = Some r -> length s = S (length r).
Proof.
  destruct s as [|x rest]; simpl; [discriminate|].
  destruct (x =? c)%N; [intros [= ->]; reflexivity | discriminate].
Qed.

Lemma parse_digits_length s ds rest :
  parse_digits s = Some (ds, rest) -> length rest < length s.
Proof.
  unfold parse_digits.
  destruct (span_digits s) as [[|d ds'] rest'] eqn:E; [discriminate|].
  intros [= <- <-]. apply span_digits_length in E. simpl in E. lia.
Qed.

Lemma parse_frac_length s fs rest :
  parse_frac s = Some (fs, rest) -> length rest <= length s.
Proof.
  unfold parse_frac.
  destruct (expect 46 s) as [r|] eqn:E.
  - intros H. apply parse_digits_length in H. apply expect_length in E. lia.
  - intros [= <- <-]. lia.
Qed.

Lemma parse_exp_length s e rest :
  parse_exp s = Some (e, rest) -> length rest <= length s.
Proof.
  unfold parse_exp.
  destruct s as [|c r]; [intros [= <- <-]; lia|].
  destruct ((c =? 101) || (c =? 69))%N; [|intros [= <- <-]; lia].
  assert (Hd : forall sign r0, length r0 <= length r ->
     match parse_digits r0 with
     | Some (es, rest) => Some ((sign * Z.of_N (digits_value es))%Z, rest)
     | None => None
     end = Some (e, rest) -> length rest <= length (c :: r)).
  { intros sign r0 Hr0 H.
    destruct (parse_digits r0) as [[es rest']|] eqn:E; [|discriminate].
    injection H as <- <-. apply parse_digits_length in E. simpl. lia. }
  destruct (expect 43 r) as [r'|] eqn:E1.
  { apply Hd. apply expect_length in E1. lia. }
  destruct (expect 45 r) as [r'|] eqn:E2.
  { apply Hd. apply expect_length in E2. lia. }
  apply Hd. lia.
Qed.

Lemma parse_number_length s n rest :
  parse_number s = Some (n, rest) -> length rest < length s.
Proof.
  unfold parse_number.
  destruct (expect 45 s) as [r|] eqn:E.
  - apply expect_length in E.
    destruct (parse_int r) as [[ds s2]|] eqn:Ei; [|discriminate].
    destruct (parse_frac s2) as [[fs s3]|] eqn:Ef; [|discriminate].
    destruct (parse_exp s3) as [[e s4]|] eqn:Ee; [|discriminate].
    intros [= <- <-].
    apply parse_int_length in Ei. apply parse_frac_length in Ef.
    apply parse_exp_length in Ee. lia.
  - destruct (parse_int s) as [[ds s2]|] eqn:Ei; [|discriminate].
    destruct (parse_frac s2) as [[fs s3]|] eqn:Ef; [|discriminate].
    destruct (parse_exp s3) as [[e s4]|] eqn:Ee; [|discriminate].
    intros [= <- <-].
    apply parse_int_length in Ei. apply parse_frac_length in Ef.
    apply parse_exp_length in Ee. lia.
Qed.

Lemma parse_literal_length s v rest :
  parse_literal s = Ok v rest -> length rest < length s.
Proof.
  unfold parse_literal.
  destruct (startsWith s (lit "true")) eqn:Et.
  { intros H. assert (Hr : rest = skipn 4 s) by congruence.
    apply startsWith_length in Et. rewrite Hr, length_skipn.
    change (length (lit "true")) with 4 in Et. lia. }
  destruct (startsWith s (lit "false")) eqn:Ef.
  { intros H. assert (Hr : rest = skipn 5 s) by congruence.
    apply startsWith_length in Ef. rewrite Hr, length_skipn.
    change (length (lit "false")) with 5 in Ef. lia. }
  destruct (startsWith s (lit "null")) eqn:En.
  { intros H. assert (Hr : rest = skipn 4 s) by congruence.
    apply startsWith_length in En. rewrite Hr, length_skipn.
    change (length (lit "null")) with 4 in En. lia. }
  destruct (parse_number s) as [[n r]|] eqn:E; [|discriminate].
  intros [= <- <-]. eapply parse_number_length; eauto.
Qed.

Lemma parse_literal_fuel s : parse_literal s <> OutOfFuel.
Proof.
  unfold parse_literal.
  repeat match goal with |- context [if ?b then _ else _] => destruct b end;
    try discriminate.
  destruct (parse_number s) as [[n r]|]; discriminate.
Qed.

(** One step of each of the three parsers. *)
Lemma parse_value_S fuel s :
  parse_value (S fuel) s =
    match skip_ws s with
    | [] => SyntaxError
    | c :: r =>
        if (c =? 91)%N then
          match expect 93 (skip_ws r) with
          | Some r' => Ok (JArray []) r'
          | None => parse_elements fuel r []
          end
        else if (c =? 123)%N then
          match expect 125 (skip_ws r) with
          | Some r' => Ok (JObject []) r'
          | None => parse_members fuel r []
          end
        else if (c =? 34)%N then
          match parse_string r with
          | Some (str, r') => Ok (JString str) r'
          | None => SyntaxError
          end
        else parse_literal (c :: r)
    end.
Proof. reflexivity. Qed.

Lemma parse_elements_S fuel s acc :
  parse_elements (S fuel) s acc =
    match parse_value fuel s with
    | Ok v r =>
        match expect 44 (skip_ws r), expect 93 (skip_ws r) with
        | Some r', _ => parse_elements fuel r' (v :: acc)
        | None, Some r' => Ok (JArray (rev (v :: acc))) r'
        | None, None => SyntaxError
        end
    | SyntaxError => SyntaxError
    | OutOfFuel => OutOfFuel
    end.
Proof. reflexivity. Qed.

Lemma parse_members_S fuel s acc :
  parse_members (S fuel) s acc =
    match expect 34 (skip_ws s) with
    | Some r =>
        match parse_string r with
        | Some (key, r1) =>
            match expect 58 (skip_ws r1) with
            | Some r2 =>
                match parse_value fuel r2 with
                | Ok v r3 =>
                    match expect 44 (skip_ws r3), expect 125 (skip_ws r3) with
                    | Some r4, _ => parse_members fuel r4 ((key, v) :: acc)
                    | None, Some r4 =>
                        Ok (JObject (rev ((key, v) :: acc))) r4
                    | None, None => SyntaxError
                    end
                | SyntaxError => SyntaxError
                | OutOfFuel => OutOfFuel
                end
            | None => SyntaxError
            end
        | None => SyntaxError
        end
    | None => SyntaxError
    end.
Proof. reflexivity. Qed.

Lemma parse_consumes fuel :
  (forall s v r, parse_value fuel s = Ok v r -> length r < length s) /\
  (forall s acc v r, parse_elements fuel s acc = Ok v r -> length r < length s) /\
  (forall s acc v r, parse_members fuel s acc = Ok v r -> length r < length s).
Proof.
  induction fuel as [|fuel (IHv & IHe & IHm)].
  { repeat split; intros; discriminate. }
  repeat split.
  - intros s v r. rewrite parse_value_S.
    pose proof (skip_ws_length s) as Hs.
    destruct (skip_ws s) as [|c r0]; [discriminate|]. simpl in Hs.
    destruct (c =? 91)%N.
    { pose proof (skip_ws_length r0) as Hr0.
      destruct (expect 93 (skip_ws r0)) as [r'|] eqn:E.
      - intros [= <- <-]. apply expect_length in E. lia.
      - intros H. apply IHe in H. lia. }
    destruct (c =? 123)%N.
    { pose proof (skip_ws_length r0) as Hr0.
      destruct (expect 125 (skip_ws r0)) as [r'|] eqn:E.
      - intros [= <- <-]. apply expect_length in E. lia.
      - intros H. apply IHm in H. lia. }
    destruct (c =? 34)%N.
    { destruct (parse_string r0) as [[str r']|] eqn:E; [|discriminate].
      intros [= <- <-]. apply parse_string_length in E. lia. }
    intros H. apply parse_literal_length in H. simpl in H. lia.
  - intros s acc v r. rewrite parse_elements_S.
    destruct (parse_value fuel s) as [v0 r0| |] eqn:Ev; try discriminate.
    apply IHv in Ev. pose proof (skip_ws_length r0) as Hr0.
    destruct (expect 44 (skip_ws r0)) as [r'|] eqn:E1.
    { intros H. apply IHe in H. apply expect_length in E1. lia. }
    destruct (expect 93 (skip_ws r0)) as [r'|] eqn:E2; [|discriminate].
    intros [= <- <-]. apply expect_length in E2. lia.
  - intros s acc v r. rewrite parse_members_S.
    pose proof (skip_ws_length s) as Hs.
    destruct (expect 34 (skip_ws s)) as [r0|] eqn:E0; [|discriminate].
    apply expect_length in E0.
    destruct (parse_string r0) as [[key r1]|] eqn:Es; [|discriminate].
    apply parse_string_length in Es. pose proof (skip_ws_length r1) as Hr1.
    destruct (expect 58 (skip_ws r1)) as [r2|] eqn:E2; [|discriminate].
    apply expect_length in E2.
    destruct (parse_value fuel r2) as [v0 r3| |] eqn:Ev; try discriminate.
    apply IHv in Ev. pose proof (skip_ws_length r3) as Hr3.
    destruct (expect 44 (skip_ws r3)) as [r4|] eqn:E4.
    { intros H. apply IHm in H. apply expect_length in E4. lia. }
    destruct (expect 125 (skip_ws r3)) as [r4|] eqn:E5; [|discriminate].
    intros [= <- <-]. apply expect_length in E5. lia.
Qed.

Lemma parse_enough_fuel fuel :
  (forall s, 2 * length s + 1 <= fuel -> parse_value fuel s <> OutOfFuel) /\
  (forall s acc, 2 * length s + 2 <= fuel ->
     parse_elements fuel s acc <> OutOfFuel) /\
  (forall s acc, 2 * length s + 2 <= fuel ->
     parse_members fuel s acc <> OutOfFuel).
Proof.
  induction fuel as [|fuel (IHv & IHe & IHm)].
  { repeat split; intros; lia. }
  destruct (parse_consumes fuel) as (Cv & Ce & Cm).
  repeat split.
  - intros s Hf. rewrite parse_value_S.
    pose proof (skip_ws_length s) as Hs.
    destruct (skip_ws s) as [|c r0]; [discriminate|]. simpl in Hs.
    destruct (c =? 91)%N.
    { destruct (expect 93 (skip_ws r0)); [discriminate|]. apply IHe. lia. }
    destruct (c =? 123)%N.
    { destruct (expect 125 (skip_ws r0)); [discriminate|]. apply IHm. lia. }
    destruct (c =? 34)%N.
    { destruct (parse_string r0) as [[str r']|]; discriminate. }
    apply parse_literal_fuel.
  - intros s acc Hf. rewrite parse_elements_S.
    destruct (parse_value fuel s) as [v0 r0| |] eqn:Ev; try discriminate.
    + apply Cv in Ev. pose proof (skip_ws_length r0) as Hr0.
      destruct (expect 44 (skip_ws r0)) as [r'|] eqn:E1.
      { apply expect_length in E1. apply IHe. lia. }
      destruct (expect 93 (skip_ws r0)); discriminate.
    + exfalso. apply (IHv s); [lia | exact Ev].
  - intros s acc Hf. rewrite parse_members_S.
    pose proof (skip_ws_length s) as Hs.
    destruct (expect 34 (skip_ws s)) as [r0|] eqn:E0; [|discriminate].
    apply expect_length in E0.
    destruct (parse_string r0) as [[key r1]|] eqn:Es; [|discriminate].
    apply parse_string_length in Es. pose proof (skip_ws_length r1) as Hr1.
    destruct (expect 58 (skip_ws r1)) as [r2|] eqn:E2; [|discriminate].
    apply expect_length in E2.
    destruct (parse_value fuel r2) as [v0 r3| |] eqn:Ev; try discriminate.
    + apply Cv in Ev. pose proof (skip_ws_length r3) as Hr3.
      destruct (expect 44 (skip_ws r3)) as [r4|] eqn:E4.
      { apply expect_length in E4. apply IHm. lia. }
      destruct (expect 125 (skip_ws r3)); discriminate.
    + exfalso. apply (IHv r2); [lia | exact Ev].
Qed.

(** [JSON_parse] never runs out of fuel: its [None] is always a syntax
    error of the text. *)
Theorem parse_value_fuel s : parse_value (2 * length s + 1) s <> OutOfFuel.
Proof. apply parse_enough_fuel. lia. Qed.

Lemma parse_string_content s str rest :
  parse_string s = Some (str, rest) -> length str + length rest < length s.
Proof.
  remember (length s) as n eqn:Hn.
  revert s Hn str rest.
  induction n as [n IH] using lt_wf_ind.
  intros s Hn str rest H.
  destruct s as [|c r]; [discriminate|].
  simpl in H.
  destruct (c =? 34)%N.
  { injection H as <- <-. subst. simpl. lia. }
  destruct (c =? 92)%N.
  { destruct r as [|e r1]; [discriminate|].
    assert (Hsimple : forall u, match parse_string r1 with
              | Some (str, rest) => Some (u :: str, rest)
              | None => None end = Some (str, rest) ->
              length str + length rest < n).
    { intros u Hu. destruct (parse_string r1) as [[s' r']|] eqn:E; [|discriminate].
      injection Hu as <- <-.
      assert (length s' + length r' < length r1)
        by (eapply (IH (length r1)); subst; simpl; eauto; lia).
      subst; simpl; lia. }
    repeat match type of H with
           | (if ?b then _ else _) = _ => destruct b; [eapply Hsimple; exact H|]
           end.
    destruct (e =? 117)%N; [|discriminate].
    destruct r1 as [|h1 [|h2 [|h3 [|h4 r2]]]]; try discriminate.
    destruct (hex4 h1 h2 h3 h4); [|discriminate].
    destruct (parse_string r2) as [[s' r']|] eqn:E; [|discriminate].
    injection H as <- <-.
    assert (length s' + length r' < length r2)
      by (eapply (IH (length r2)); subst; simpl; eauto; lia).
    subst; simpl; lia. }
  destruct (c <? 32)%N; [discriminate|].
  destruct (parse_string r) as [[s' r']|] eqn:E; [|discriminate].
  injection H as <- <-.
  assert (length s' + length r' < length r)
    by (eapply (IH (length r)); subst; simpl; eauto; lia).
  subst; simpl; lia.
Qed.

Lemma parse_literal_shape s v r :
  parse_literal s = Ok v r ->
  (forall str, v <> JString str) /\ (forall m, v <> JObject m).
Proof.
  unfold parse_literal.
  repeat match goal with
         | |- context [if ?b then _ else _] => destruct b
         end;
    try (intros [= <- <-]; split; intros; discriminate).
  destruct (parse_number s) as [[n rest]|]; [|discriminate].
  intros [= <- <-]; split; intros; discriminate.
Qed.

Lemma parse_elements_shape fuel s acc v r :
  parse_elements fuel s acc = Ok v r -> exists l, v = JArray l.
Proof.
  revert s acc. induction fuel as [|fuel IH]; intros s acc; [discriminate|].
  rewrite parse_elements_S.
  destruct (parse_value fuel s) as [v0 r0| |]; try discriminate.
  destruct (expect 44 (skip_ws r0)); [apply IH|].
  destruct (expect 93 (skip_ws r0)); [|discriminate].
  intros [= <- <-]. eauto.
Qed.

Lemma parse_string_value fuel s str r :
  parse_value fuel s = Ok (JString str) r -> length str < length s.
Proof.
  destruct fuel as [|fuel]; [discriminate|].
  rewrite parse_value_S.
  pose proof (skip_ws_length s) as Hs.
  destruct (skip_ws s) as [|c r0]; [discriminate|]. simpl in Hs.
  destruct (c =? 91)%N.
  { destruct (expect 93 (skip_ws r0)); [discriminate|].
    intros H. apply parse_elements_shape in H. destruct H; discriminate. }
  destruct (c =? 123)%N.
  { destruct (expect 125 (skip_ws r0)); [discriminate|].
    intros H. exfalso. revert H. generalize (@nil (jsstring * value)).
    generalize r0. clear.
    induction fuel as [|fuel IH]; intros s acc; [discriminate|].
    rewrite parse_members_S.
    repeat match goal with
    | |- context [match ?x with _ => _ end] =>
        lazymatch x with
        | expect 44 _ => destruct x; [apply IH|]
        | _ => destruct x as [[? ?]|] || destruct x
        end
    end; discriminate. }
  destruct (c =? 34)%N.
  { destruct (parse_string r0) as [[str' r']|] eqn:E; [|discriminate].
    intros [= <- <-]. apply parse_string_content in E. lia. }
  intros H. apply parse_literal_shape in H. destruct H as [H _].
  exfalso. exact (H str eq_refl).
Qed.

Lemma parse_members_short fuel n s acc v r :
  parse_members fuel s acc = Ok v r ->
  length s <= n ->
  Forall (fun kv => shorter n (snd kv)) acc ->
  exists members,
    v = JObject members /\ Forall (fun kv => shorter n (snd kv)) members.
Proof.
  revert s acc. induction fuel as [|fuel IH]; intros s acc; [discriminate|].
  rewrite parse_members_S. intros H Hn Hacc.
  pose proof (skip_ws_length s) as Hs.
  destruct (expect 34 (skip_ws s)) as [r0|] eqn:E0; [|discriminate].
  apply expect_length in E0.
  destruct (parse_string r0) as [[key r1]|] eqn:Es; [|discriminate].
  apply parse_string_length in Es. pose proof (skip_ws_length r1) as Hr1.
  destruct (expect 58 (skip_ws r1)) as [r2|] eqn:E2; [|discriminate].
  apply expect_length in E2.
  destruct (parse_value fuel r2) as [v0 r3| |] eqn:Ev; try discriminate.
  assert (Hv0 : shorter n v0).
  { intros str ->. apply parse_string_value in Ev. lia. }
  destruct (parse_consumes fuel) as (Cv & _ & _).
  apply Cv in Ev. pose proof (skip_ws_length r3) as Hr3.
  destruct (expect 44 (skip_ws r3)) as [r4|] eqn:E4.
  { apply expect_length in E4.
    apply IH in H; [exact H | lia | constructor; assumption]. }
  destruct (expect 125 (skip_ws r3)) as [r4|]; [|discriminate].
  injection H as <- <-. eexists. split; [reflexivity|].
  change (rev acc ++ [(key, v0)]) with (rev ((key, v0) :: acc)).
  apply Forall_rev. constructor; assumption.
Qed.

Lemma parse_object_short fuel s members r :
  parse_value fuel s = Ok (JObject members) r ->
  Forall (fun kv => shorter (length s) (snd kv)) members.
Proof.
  destruct fuel as [|fuel]; [discriminate|].
  rewrite parse_value_S.
  pose proof (skip_ws_length s) as Hs.
  destruct (skip_ws s) as [|c r0]; [discriminate|]. simpl in Hs.
  destruct (c =? 91)%N.
  { destruct (expect 93 (skip_ws r0)); [discriminate|].
    intros H. apply parse_elements_shape in H. destruct H; discriminate. }
  destruct (c =? 123)%N.
  { destruct (expect 125 (skip_ws r0)).
    - intros [= <- <-]. constructor.
    - intros H.
      apply (@parse_members_short _ (length s)) in H; [|lia|constructor].
      destruct H as (m & [= ->] & Hm). exact Hm. }
  destruct (c =? 34)%N.
  { destruct (parse_string r0) as [[str' r']|]; discriminate. }
  intros H. apply parse_literal_shape in H. destruct H as [_ H].
  exfalso. exact (H members eq_refl).
Qed.

Lemma lookup_In key members v :
  lookup key members = Some v -> exists k, In (k, v) members.
Proof.
  induction members as [|[k v0] rest IH]; simpl; [discriminate|].
  destruct (lookup key rest) as [v'|].
  - intros [= ->]. destruct (IH eq_refl) as (k' & Hin). eauto.
  - destruct (str_eqb k key); [|discriminate].
    intros [= ->]. eauto.
Qed.

Lemma parseMessageContent_structured t :
  structured t ->
  parseMessageContent t <> {| text := JString t; images := [] |}.
Proof.
  intros (Hs & He & parsed & v & Hp & Hg) Heq.
  unfold parseMessageContent in Heq. rewrite Hs, He, Hp, Hg in Heq.
  cbn [andb] in Heq.
  assert (Ht : (if truthy v then v else JString []) = JString t)
    by (injection Heq; auto).
  clear Heq.
  destruct t as [|c t']; [discriminate Hs|].
  destruct (truthy v); [subst v | discriminate Ht].
  unfold JSON_parse in Hp.
  destruct (parse_value (2 * length (c :: t') + 1) (c :: t'))
    as [v0 rest| |] eqn:Ev; try discriminate.
  destruct (skip_ws rest); [|discriminate]. injection Hp as ->.
  destruct parsed as [| | | | |members]; try discriminate Hg.
  injection Hg as Hl.
  apply parse_object_short in Ev.
  apply lookup_In in Hl. destruct Hl as (k & Hin).
  rewrite Forall_forall in Ev. specialize (Ev _ Hin (c :: t') eq_refl).
  lia.
Qed.

(** ** The content codec *)

Lemma parseMessageContent_plain s :
  ~ structured s ->
  parseMessageContent s = {| text := JString s; images := [] |}.
Proof.
  intros Hn. unfold parseMessageContent.
  destruct (startsWith s (lit "{")) eqn:Es; [|reflexivity].
  destruct (endsWith s (lit "}")) eqn:Ee; [|reflexivity].
  cbn [andb].
  destruct (JSON_parse s) as [parsed|] eqn:Ep; [|reflexivity].
  destruct (getProperty parsed (lit "text")) as [[v|]|] eqn:Eg;
    try reflexivity.
  exfalso. apply Hn. repeat split; try assumption. exists parsed, v. auto.
Qed.

(** C1, as the code has it.  [encode(t, [])] is [t] for every text [t];
    decoding it gives back [{text: t, images: []}] exactly when [t] is not
    itself read as structured content, that is unless [t] starts with an
    opening brace, ends with a closing brace and parses as a JSON object
    with a [text] property.  Such a [t] is decoded instead to the [text]
    property of the parsed object, or the empty string when that property
    is falsy, and to its [images] property when that is an array, or no
    image otherwise. *)
Theorem C1_roundtrip_unless_structured (t : jsstring) :
  encodeContent t (Some []) = t /\
  encodeContent t None = t /\
  (parseMessageContent (encodeContent t (Some [])) =
     {| text := JString t; images := [] |} <-> ~ structured t) /\
  (forall parsed parsed_text,
     startsWith t (lit "{") = true -> endsWith t (lit "}") = true ->
     JSON_parse t = Some parsed ->
     getProperty parsed (lit "text") = Some (Some parsed_text) ->
     parseMessageContent (encodeContent t (Some [])) =
       {| text := if truthy parsed_text then parsed_text else JString [];
          images :=
            match getProperty parsed (lit "images") with
            | Some (Some (JArray parsed_images)) => parsed_images
            | _ => []
            end |}).
Proof.
  split; [reflexivity|]. split; [reflexivity|].
  cbn [encodeContent]. split; [split|].
  - intros Heq Hs. exact (parseMessageContent_structured Hs Heq).
  - apply parseMessageContent_plain.
  - intros parsed parsed_text Hs He Hp Hg.
    unfold parseMessageContent. rewrite Hs, He, Hp, Hg. reflexivity.
Qed.

Lemma C1_roundtrip_unless_structured_witness :
  (~ structured (lit "Hello") /\
   parseMessageContent (encodeContent (lit "Hello") (Some [])) =
     {| text := JString (lit "Hello"); images := [] |}) /\
  (structured Inputs.zeroText /\
   parseMessageContent (encodeContent Inputs.zeroText (Some [])) =
     {| text := JString []; images := [] |}).
Proof.
  assert (Hn : ~ structured (lit "Hello")).
  { intros (H & _). vm_compute in H. discriminate H. }
  split.
  - split; [exact Hn|].
    exact (proj2 (proj1 (proj2 (proj2
             (C1_roundtrip_unless_structured (lit "Hello"))))) Hn).
  - split.
    + split; [reflexivity|]. split; [reflexivity|].
      exists (JObject
                [(lit "text",
                  JNumber {| neg := false; mant := 0; exp10 := 0 |});
                 (lit "images", JString (lit "x"))]),
             (JNumber {| neg := false; mant := 0; exp10 := 0 |}).
      split; reflexivity.
    + exact (proj2 (proj2 (proj2
               (C1_roundtrip_unless_structured Inputs.zeroText)))
               (JObject
                  [(lit "text",
                    JNumber {| neg := false; mant := 0; exp10 := 0 |});
                   (lit "images", JString (lit "x"))])
               (JNumber {| neg := false; mant := 0; exp10 := 0 |})
               eq_refl eq_refl eq_refl eq_refl).
Defined.

(** C1 as stated fails: a plain message whose text is [{"text":"hi"}] is
    stored unchanged and decoded as the text [hi]. *)
Lemma C1_counterexample :
  encodeContent Samples.structuredLookingText (Some []) =
    Samples.structuredLookingText /\
  parseMessageContent (encodeContent Samples.structuredLookingText (Some [])) =
    {| text := JString (lit "hi"); images := [] |} /\
  parseMessageContent (encodeContent Samples.structuredLookingText (Some [])) <>
    {| text := JString Samples.structuredLookingText; images := [] |}.
Proof.
  split; [reflexivity|].
  split; [vm_compute; reflexivity|].
  vm_compute. discriminate.
Qed.

(** C2.  A string that does not parse, or whose parsed value has no [text]
    property, is decoded as plain text: [{text: s, images: []}]. *)
Theorem C2_decode_fallback (s : jsstring) :
  JSON_parse s = None \/
  (exists parsed, JSON_parse s = Some parsed /\
     forall v, getProperty parsed (lit "text") <> Some (Some v)) ->
  parseMessageContent s = {| text := JString s; images := [] |}.
Proof.
  intros H. apply parseMessageContent_plain.
  intros (_ & _ & parsed & v & Hp & Hg).
  destruct H as [H | (parsed' & Hp' & Hnone)]; [congruence|].
  rewrite Hp in Hp'. injection Hp' as <-. exact (Hnone v Hg).
Qed.

Lemma C2_decode_fallback_witness :
  JSON_parse (lit "{not json}") = None /\
  parseMessageContent (lit "{not json}") =
    {| text := JString (lit "{not json}"); images := [] |}.
Proof.
  split; [reflexivity|].
  apply (C2_decode_fallback (lit "{not json}")).
  left. reflexivity.
Defined.

(** ** The provider clients *)

Lemma slice_last_length {A} n (l : list A) : length (slice_last n l) <= n.
Proof. unfold slice_last. rewrite length_skipn. lia. Qed.

Lemma slice_init_length {A} (l : list A) :
  length (slice_init l) = length l - 1.
Proof. unfold slice_init. rewrite length_firstn. lia. Qed.

(** The Local client caps the request, with or without images. *)
Lemma ollamaRequestBody_capped messages model imageData body :
  Api.ollamaRequestBody messages model imageData = inr body ->
  length (Api.ollama_messages body) <= 10.
Proof.
  unfold Api.ollamaRequestBody.
  pose proof (slice_last_length 10 messages) as Hcap.
  destruct (ImageHandling.modelSupportsVision model);
    [destruct imageData as [[|img imgs]|] |]; cbn beta iota;
    try destruct (last_elem (slice_last 10 messages)) as [lastMessage|] eqn:El;
    try discriminate;
    intros [= <-]; cbn [Api.ollama_messages];
    rewrite ?length_app, ?length_map, ?slice_init_length; simpl; lia.
Qed.

Lemma getOllamaCompletion_capped (o : Api.oracle) messages model imageData
    body :
  In (Api.fetchOllamaChat body)
     (snd (Api.run o (Api.getOllamaCompletion messages model imageData))) ->
  length (Api.ollama_messages body) <= 10.
Proof.
  unfold Api.run, Api.getOllamaCompletion.
  cbn -[Api.ollamaRequestBody Api.checkOllamaModel].
  destruct (Api.checkOllamaModel _ _) as [e|m]; cbn -[Api.ollamaRequestBody].
  { intros [H|[]]; discriminate H. }
  destruct (Api.ollamaRequestBody messages m imageData) as [e|b] eqn:Eb;
    cbn.
  { intros [H|[]]; discriminate H. }
  match goal with |- context [match ?x with _ => _ end] => destruct x end;
    cbn; intros [H|[H|[]]]; try discriminate H;
    injection H as <-; eapply ollamaRequestBody_capped; eauto.
Qed.

(** The Remote client caps the request when images are attached. *)
Lemma groqApiMessages_vision_capped messages img imgs apiMessages :
  Api.groqApiMessages messages (Some (img :: imgs)) = inr apiMessages ->
  length apiMessages <= 10.
Proof.
  unfold Api.groqApiMessages.
  pose proof (slice_last_length 10 messages) as Hcap.
  destruct (last_elem (slice_last 10 messages)) as [lastMessage|] eqn:El;
    [|discriminate].
  intros [= <-].
  rewrite length_app, length_map, slice_init_length. simpl. lia.
Qed.

(** Without images the Remote client maps the whole history. *)
Lemma groqApiMessages_text_only messages imageData :
  noImages imageData = true ->
  Api.groqApiMessages messages imageData =
    inr (map Api.toApiMessage messages).
Proof. destruct imageData as [[|? ?]|]; simpl; congruence. Qed.

(** C3 fails on the text-only path of the Remote client: with a history of
    eleven messages and no image, the one request [getGroqCompletion] sends
    carries all eleven, whatever the collaborator answers. *)
Theorem C3_groq_text_request_not_capped (o : Api.oracle) :
  let history := map Samples.sample (seq 0 11) in
  let body :=
    {| Api.groq_model := Api.groqDefaultModel;
       Api.groq_messages := map Api.toApiMessage history;
       Api.temperature :=
         {| JSON.neg := false; JSON.mant := 7; JSON.exp10 := -1 |};
       Api.max_tokens := 2048 |} in
  snd (Api.run o (Api.getGroqCompletion Samples.groqEnv history None)) =
    [Api.fetchGroqChat (lit "gsk-key") body] /\
  length (Api.groq_messages body) = 11.
Proof.
  split; [|reflexivity].
  unfold Api.run. cbn.
  match goal with |- context [match ?x with _ => _ end] => destruct x end;
    reflexivity.
Qed.

(** The first half of C7: a missing model is replaced by the first
    installed one, and the request is sent under that name. *)
Lemma getOllamaCompletion_substitutes (o : Api.oracle) messages model
    imageData first rest :
  o [] Api.fetchOllamaTags = Api.TagsModels (first :: rest) ->
  arr_includes (first :: rest) model = false ->
  match Api.ollamaRequestBody messages first imageData with
  | inr body =>
      Api.ollama_model body = first /\
      snd (Api.run o
             (Api.getOllamaCompletion messages (Some model) imageData)) =
        [Api.fetchOllamaTags; Api.fetchOllamaChat body]
  | inl e =>
      Api.run o (Api.getOllamaCompletion messages (Some model) imageData) =
        (Api.Throws e, [Api.fetchOllamaTags])
  end.
Proof.
  intros Ht Hinc. unfold Api.run, Api.getOllamaCompletion.
  cbn -[Api.ollamaRequestBody arr_includes]. rewrite Ht.
  cbn -[Api.ollamaRequestBody arr_includes]. rewrite Hinc.
  cbn -[Api.ollamaRequestBody arr_includes].
  destruct (Api.ollamaRequestBody messages first imageData) as [e|body] eqn:Eb.
  - reflexivity.
  - split.
    + unfold Api.ollamaRequestBody in Eb.
      destruct (ImageHandling.modelSupportsVision first);
        [destruct imageData as [[|? ?]|] |];
        try destruct (last_elem _); try discriminate;
        injection Eb as <-; reflexivity.
    + cbn -[lit].
      match goal with |- context [match ?x with _ => _ end] => destruct x end;
        reflexivity.
Qed.

(** C7 fails on its second half: when the server lists no model, the error
    [No models available in Ollama] is raised inside the first [try] block
    and replaced by its [catch]; the call throws the message of an
    unreachable server, after the one request to [/api/tags]. *)
Theorem C7_no_models_error_masked (o : Api.oracle) messages model imageData :
  o [] Api.fetchOllamaTags = Api.TagsModels [] ->
  Api.run o (Api.getOllamaCompletion messages model imageData) =
    (Api.Throws (Api.Error Api.ollamaUnavailable), [Api.fetchOllamaTags]) /\
  Api.Error Api.ollamaUnavailable <>
    Api.Error (lit "No models available in Ollama").
Proof.
  intros H. split.
  - unfold Api.run, Api.getOllamaCompletion.
    cbn -[Api.ollamaUnavailable]. rewrite H. reflexivity.
  - vm_compute. discriminate.
Qed.

Lemma C7_no_models_error_masked_witness :
  Samples.noModels [] Api.fetchOllamaTags = Api.TagsModels [] /\
  Api.run Samples.noModels
    (Api.getOllamaCompletion [Samples.sample 0]
       (Some Api.ollamaDefaultModel) None) =
    (Api.Throws (Api.Error Api.ollamaUnavailable), [Api.fetchOllamaTags]).
Proof.
  split; [reflexivity|].
  exact (proj1 (C7_no_models_error_masked Samples.noModels
                  [Samples.sample 0] (Some Api.ollamaDefaultModel) None
                  eq_refl)).
Defined.

(** ** The session pipeline *)

Lemma sendable_guard content images user chatId :
  sendable content images user chatId ->
  (negb (nonEmpty (trim content)) && noImages images)
     || match user with None => true | Some _ => false end
     || negb (nonEmpty chatId) = false.
Proof.
  intros ([H|H] & Hu & Hc); rewrite Hc; destruct user; try congruence;
    rewrite H; simpl; rewrite ?andb_false_r; reflexivity.
Qed.

Lemma newTitle_spec content :
  newTitle content =
    if length content <=? 30 then content
    else firstn 30 content ++ lit "...".
Proof.
  unfold newTitle, substring.
  destruct (Nat.ltb_spec 30 (length content)) as [Hlt|Hge];
    destruct (Nat.leb_spec (length content) 30) as [Hle|Hgt]; try lia;
    [|reflexivity].
  rewrite Nat.min_0_l, (Nat.min_l 30) by lia.
  reflexivity.
Qed.

(** One step of a run of [sendMessage]: compute up to the next answer of a
    collaborator, then use what is known about it. *)
Ltac run_step :=
  cbn -[lit encodeContent app processMessage List.map Nat.leb newTitle
        str_eqb];
  repeat match goal with
  | |- context [encodeContent ?x None] =>
      change (encodeContent x None) with x
  end;
  match goal with
  | H : ?x = _ |- context [match ?x with _ => _ end] => rewrite H
  | H : ?x = _ |- context [if ?x then _ else _] => rewrite H
  | |- context [match data ?r with _ => _ end] =>
      destruct (data r) as [[|? ?]|]
  end.

(** C4.  A change-event whose record identifier equals the identifier of a
    message of the in-memory sequence leaves the sequence as it is;
    otherwise the record is appended, once, at the end; delivering the same
    event again changes nothing.  The callback makes no request. *)
Theorem C4_reconcile_idempotent (o : oracle) (w : World) (payload : Message) :
  let prev := messages (state w) in
  let w' := snd (run o (onInsert payload) w) in
  ((exists m, In m prev /\ id (msg m) = id payload) ->
     messages (state w') = prev) /\
  ((forall m, In m prev -> id (msg m) <> id payload) ->
     messages (state w') = prev ++ [fromStore payload]) /\
  messages (state (snd (run o (onInsert payload) w'))) = messages (state w') /\
  log w' = log w.
Proof.
  intros prev w'. subst w'. cbn. fold prev. unfold mergeInsert. cbn.
  assert (Hyes : (exists m, In m prev /\ id (msg m) = id payload) ->
                 existsb (fun m => id_eqb (id (msg m)) (id payload)) prev
                 = true).
  { intros (m & Hin & Hid). apply existsb_exists. exists m.
    split; [exact Hin | apply id_eqb_eq; exact Hid]. }
  repeat split.
  - intros H. rewrite (Hyes H). reflexivity.
  - intros Hnone.
    destruct (existsb _ prev) eqn:E; [|reflexivity].
    apply existsb_exists in E. destruct E as (m & Hin & Hid).
    apply id_eqb_eq in Hid. exfalso. exact (Hnone m Hin Hid).
  - destruct (existsb _ prev) eqn:E.
    + rewrite E. reflexivity.
    + rewrite existsb_app. cbn.
      replace (id_eqb (id payload) (id payload)) with true
        by (symmetry; apply id_eqb_eq; reflexivity).
      rewrite orb_true_r. reflexivity.
Qed.

Lemma C4_reconcile_idempotent_witness :
  let w :=
    Samples.world
      (with_messages (fun _ => [fromStore (Samples.sample 0)]) Samples.idle) in
  (exists m, In m (messages (state w)) /\
             id (msg m) = id (Samples.sample 0)) /\
  messages (state (snd (run Samples.happy (onInsert (Samples.sample 0)) w))) =
    [fromStore (Samples.sample 0)] /\
  (forall m, In m (messages (state w)) ->
             id (msg m) <> id (Samples.sample 1)) /\
  messages (state (snd (run Samples.happy (onInsert (Samples.sample 1)) w))) =
    [fromStore (Samples.sample 0); fromStore (Samples.sample 1)].
Proof.
  intros w.
  assert (H0 : exists m, In m (messages (state w)) /\
                         id (msg m) = id (Samples.sample 0)).
  { exists (fromStore (Samples.sample 0)). split; [left|]; reflexivity. }
  assert (H1 : forall m, In m (messages (state w)) ->
                         id (msg m) <> id (Samples.sample 1)).
  { intros m [<-|[]]. vm_compute. discriminate. }
  split; [exact H0|].
  split.
  { exact (proj1 (C4_reconcile_idempotent Samples.happy w (Samples.sample 0))
             H0). }
  split; [exact H1|].
  exact (proj1 (proj2 (C4_reconcile_idempotent Samples.happy w
                         (Samples.sample 1))) H1).
Defined.

(** C5.  When the insert of the user message answers with an error, the
    Send makes no request beyond the clock read and that insert (so no
    provider call), every state it goes through holds the earlier sequence
    with at most the user placeholder appended (so no thinking placeholder),
    the placeholder is still there at the end, the error is shown and
    [sending] is reset. *)
Theorem C5_user_persist_failure (env : Api.Env) (chatId : jsstring)
    (user : option User) (mode : Mode) (avail : bool) (model : jsstring)
    (content : jsstring) (images : option (list jsstring))
    (o : oracle) (w : World) (err : Thrown) :
  let placeholder :=
    {| ref := Some (next_ref w);
       msg := {| id := None; chat_id := chatId; role := Types.user;
                 content := encodeContent content images;
                 created_at := o (log w) DateNow; model := None |} |} in
  let insert :=
    InsertMessage chatId Types.user (encodeContent content images) in
  sendable content images user chatId ->
  db_error (o (log w ++ [DateNow]) insert) = Some err ->
  let w' :=
    snd (run o (sendMessage env chatId user mode avail model content images)
           w) in
  log w' = log w ++ [DateNow; insert] /\
  filter isProviderCall (log w') = filter isProviderCall (log w) /\
  (exists later,
     states w' = states w ++ later /\
     Forall (fun st => messages st = messages (state w) \/
                       messages st = messages (state w) ++ [placeholder])
            later) /\
  isThinking placeholder = false /\
  messages (state w') = messages (state w) ++ [placeholder] /\
  error (state w') = Some (lit "Error sending message: " ++ message err) /\
  sending (state w') = false.
Proof.
  intros placeholder insert Hs Herr w'.
  subst w'. unfold sendMessage. rewrite (sendable_guard Hs).
  unfold run, sendMessageTry, storeMessageInDB.
  cbn -[lit encodeContent app filter].
  fold insert. rewrite Herr.
  cbn -[lit encodeContent app filter].
  split; [rewrite <- app_assoc; reflexivity|].
  split.
  { rewrite !filter_app. cbn. rewrite !app_nil_r. reflexivity. }
  split.
  { unfold states, update. cbn -[lit encodeContent app].
    eexists. split.
    - rewrite <- !app_assoc. reflexivity.
    - cbn -[lit encodeContent].
      repeat first
        [ apply Forall_nil
        | apply Forall_cons; [cbn -[lit encodeContent app]; auto |] ]. }
  repeat split.
Qed.

Lemma C5_user_persist_failure_witness :
  let w := Samples.world Samples.idle in
  let w' :=
    snd (run Samples.storeDown
           (sendMessage Samples.groqEnv (lit "chat-1") (Some Samples.alice)
              online false (lit "gemma3:4b-it-q4_K_M") (lit "Hello") None)
           w) in
  sendable (lit "Hello") None (Some Samples.alice) (lit "chat-1") /\
  log w' = [DateNow; InsertMessage (lit "chat-1") Types.user (lit "Hello")] /\
  error (state w') =
    Some (lit "Error sending message: permission denied").
Proof.
  intros w w'.
  assert (Hs : sendable (lit "Hello") None (Some Samples.alice)
                 (lit "chat-1")).
  { split; [left; reflexivity | split; [discriminate | reflexivity]]. }
  split; [exact Hs|].
  pose proof (@C5_user_persist_failure Samples.groqEnv (lit "chat-1")
                (Some Samples.alice) online false (lit "gemma3:4b-it-q4_K_M")
                (lit "Hello") None Samples.storeDown w
                {| message := lit "permission denied" |} Hs eq_refl)
    as (Hlog & _ & _ & _ & _ & Herr & _).
  split; [exact Hlog | exact Herr].
Defined.

(** The requests of a run depend on the answers of the collaborators and
    on the values the handler closed over, not on the React state of the
    world. *)
Lemma run_state_irrelevant {A} (o : oracle) (p : chat A) (w1 w2 : World) :
  log w1 = log w2 -> next_ref w1 = next_ref w2 ->
  fst (run o p w1) = fst (run o p w2) /\
  log (snd (run o p w1)) = log (snd (run o p w2)).
Proof.
  unfold run. revert w1 w2.
  induction p as [a|c k IH]; intros w1 w2 Hl Hn;
    [split; [reflexivity | exact Hl]|].
  destruct c as [a|q].
  - destruct a; cbn; try (apply IH; cbn; assumption).
    rewrite Hn. apply IH; cbn; congruence.
  - cbn. rewrite Hl. apply IH; cbn; congruence.
Qed.

(** [sendMessage] itself does not read the [sending] flag: the guard of a
    Send in flight is the [disabled] prop of [MessageInput], its only
    caller. *)
Lemma sendMessage_does_not_test_sending (o : oracle) env chatId user mode
    avail model content images (w : World) b :
  log (snd (run o
              (sendMessage env chatId user mode avail model content images)
              (update (with_sending b) w))) =
  log (snd (run o
              (sendMessage env chatId user mode avail model content images)
              w)).
Proof. apply run_state_irrelevant; reflexivity. Qed.

(** C6.  While [sending] is set, a Send request does nothing at all: the
    [disabled] prop makes [handleSend] skip the call to [sendMessage], so
    the state, the log of requests and the input are left as they were. *)
Theorem C6_send_rejected_while_sending (env : Api.Env) (chatId : jsstring)
    (user : option User) (o : oracle) (w : World) :
  sending (state w) = true ->
  run o (requestSend env chatId user (state w)) w = (tt, w).
Proof.
  intros Hs. unfold requestSend, handleSend, inputDisabled. rewrite Hs.
  cbn. rewrite andb_false_r. reflexivity.
Qed.

Lemma C6_send_rejected_while_sending_witness :
  sending (state (Samples.world Samples.busy)) = true /\
  run Samples.happy
    (requestSend Samples.groqEnv (lit "chat-1") (Some Samples.alice)
       (state (Samples.world Samples.busy)))
    (Samples.world Samples.busy) = (tt, Samples.world Samples.busy).
Proof.
  split; [reflexivity|].
  apply (@C6_send_rejected_while_sending Samples.groqEnv (lit "chat-1")
           (Some Samples.alice) Samples.happy (Samples.world Samples.busy)).
  reflexivity.
Defined.

(** [toggleMode] has a guard of its own: called in online mode with the
    availability flag down it only sets the error.  The mode button never
    calls it in that state. *)
Lemma toggleMode_guard (user : option User) (o : oracle) (w : World) :
  let w' := snd (run o (toggleMode user online false) w) in
  state w' =
    with_error
      (Some (lit "Ollama is not running. Please start Ollama before switching to offline mode."))
      (state w) /\
  log w' = log w.
Proof. split; reflexivity. Qed.

(** C8, as the code has it.  In online mode with the availability flag down
    the mode button is disabled, so a mode switch is rejected without
    reaching [toggleMode]: the mode stays online, no request is made, and
    nothing else changes either; no error is set. *)
Theorem C8_offline_switch_rejected (user : option User) (o : oracle)
    (w : World) :
  mode (state w) = online ->
  ollamaAvailable (state w) = false ->
  let w' := snd (run o (requestToggleMode user (state w)) w) in
  mode (state w') = online /\
  log w' = log w /\
  error (state w') = error (state w) /\
  w' = w.
Proof.
  intros Hm Ha w'. subst w'. unfold requestToggleMode, toggleDisabled.
  rewrite Hm, Ha. cbn. rewrite Hm. repeat split.
Qed.

Lemma C8_offline_switch_rejected_witness :
  let w := Samples.world Samples.idle in
  let w' :=
    snd (run Samples.happy
           (requestToggleMode (Some Samples.alice) (state w)) w) in
  mode (state w) = online /\ ollamaAvailable (state w) = false /\
  mode (state w') = online /\ log w' = [].
Proof.
  intros w w'.
  split; [reflexivity|]. split; [reflexivity|].
  pose proof (@C8_offline_switch_rejected (Some Samples.alice) Samples.happy
                w eq_refl eq_refl) as (Hmode & Hlog & _).
  split; [exact Hmode | exact Hlog].
Defined.

(** C8 as stated fails: in online mode with the availability flag down and
    no error displayed, a mode switch leaves no error displayed. *)
Lemma C8_counterexample :
  let w := Samples.world Samples.idle in
  let w' :=
    snd (run Samples.happy
           (requestToggleMode (Some Samples.alice) (state w)) w) in
  mode (state w) = online /\ ollamaAvailable (state w) = false /\
  error (state w') = None /\
  ~ (exists shown, error (state w') = Some shown).
Proof.
  intros w w'. repeat split. intros (shown & H). discriminate H.
Qed.

(** C9, as the code has it.  In a Send whose user message is stored, whose
    re-fetched history has at most two messages, whose provider call
    returns, whose assistant message is stored and whose title query
    answers the default [New Chat], the last request is the rename, to the
    user's text when it has at most 30 code units and to its first 30
    followed by [...] otherwise. *)
Theorem C9_title_after_completed_exchange (env : Api.Env) (chatId : jsstring)
    (user : option User) (mode : Mode) (avail : bool) (model : jsstring)
    (content : jsstring) (images : option (list jsstring))
    (o : oracle) (w : World) (rows : list Message) (aiResponse : jsstring) :
  let processed := map processMessage rows in
  let q1 := InsertMessage chatId Types.user (encodeContent content images) in
  let q2 := SelectMessages chatId in
  let q3 := completionRequest mode processed images model in
  let q4 := InsertMessage chatId assistant aiResponse in
  let q5 := SelectChatTitle chatId in
  let l1 := log w ++ [DateNow] in
  let l2 := l1 ++ [q1] in
  let l3 := l2 ++ [q2] in
  let l4 := l3 ++ [DateNow] in
  let l5 := l4 ++ [q3] in
  let l6 := l5 ++ [q4] in
  let l7 := l6 ++ [q5] in
  sendable content images user chatId ->
  db_error (o l1 q1) = None ->
  db_error (o l2 q2) = None ->
  data (o l2 q2) = Some rows ->
  length rows <= 2 ->
  providerReady env mode avail ->
  completionReply o l4 mode processed images model = inr aiResponse ->
  db_error (o l5 q4) = None ->
  db_error (o l6 q5) = None ->
  data (o l6 q5) = Some (lit "New Chat") ->
  let w' :=
    snd (run o (sendMessage env chatId user mode avail model content images)
           w) in
  let title :=
    if length content <=? 30 then content
    else firstn 30 content ++ lit "..." in
  log w' = l7 ++ [UpdateChatTitle chatId title].
Proof.
  intros processed q1 q2 q3 q4 q5 l1 l2 l3 l4 l5 l6 l7
    Hs H1 H2 H2d Hlen Hready Hc H4 H5 H5d w' title.
  assert (Hlen' : (length processed <=? 2) = true).
  { apply Nat.leb_le. unfold processed. rewrite length_map. exact Hlen. }
  assert (Htitle : str_eqb (lit "New Chat") (lit "New Chat") = true)
    by reflexivity.
  subst title. rewrite <- newTitle_spec.
  subst w' l7 l6 l5 l4 l3 l2 l1 q1 q2 q3 q4 q5 processed.
  unfold sendMessage. rewrite (sendable_guard Hs).
  unfold run, sendMessageTry, sendMessageInnerTry, sendMessageInnerCatch,
    updateTitle, requestCompletion, storeMessageInDB.
  destruct mode; cbn [providerReady completionReply completionRequest] in *.
  - destruct (Api.VITE_GROQ_CHAT_API_KEY env) as [[|k key]|];
      try discriminate Hready.
    repeat run_step; reflexivity.
  - rewrite Hready.
    repeat run_step; reflexivity.
Qed.

Lemma C9_title_after_completed_exchange_witness :
  let send content :=
    snd (run Samples.happy
           (sendMessage Samples.groqEnv (lit "chat-1") (Some Samples.alice)
              online false (lit "gemma3:4b-it-q4_K_M") content None)
           (Samples.world Samples.idle)) in
  sendable (lit "Hello") None (Some Samples.alice) (lit "chat-1") /\
  sendable Samples.longOpening None (Some Samples.alice) (lit "chat-1") /\
  last (log (send (lit "Hello"))) DateNow =
    UpdateChatTitle (lit "chat-1") (lit "Hello") /\
  last (log (send Samples.longOpening)) DateNow =
    UpdateChatTitle (lit "chat-1") (lit "This is a very long opening me...").
Proof.
  intros send.
  assert (Hs : forall c, nonEmpty (trim c) = true ->
                 sendable c None (Some Samples.alice) (lit "chat-1")).
  { intros c Hc. split; [left; exact Hc | split; [discriminate|reflexivity]]. }
  split; [apply Hs; reflexivity|]. split; [apply Hs; reflexivity|].
  split.
  - unfold send.
    rewrite (@C9_title_after_completed_exchange Samples.groqEnv (lit "chat-1")
               (Some Samples.alice) online false (lit "gemma3:4b-it-q4_K_M")
               (lit "Hello") None Samples.happy (Samples.world Samples.idle)
               [Samples.stored (lit "chat-1") Types.user (lit "Hello")]
               (lit "Hi there")
               (Hs (lit "Hello") eq_refl) eq_refl eq_refl eq_refl (le_S _ _ (le_n 1))
               eq_refl eq_refl eq_refl eq_refl eq_refl).
    reflexivity.
  - unfold send.
    rewrite (@C9_title_after_completed_exchange Samples.groqEnv (lit "chat-1")
               (Some Samples.alice) online false (lit "gemma3:4b-it-q4_K_M")
               Samples.longOpening None Samples.happy
               (Samples.world Samples.idle)
               [Samples.stored (lit "chat-1") Types.user (lit "Hello")]
               (lit "Hi there")
               (Hs Samples.longOpening eq_refl) eq_refl eq_refl eq_refl (le_S _ _ (le_n 1))
               eq_refl eq_refl eq_refl eq_refl eq_refl).
    reflexivity.
Defined.

(** When the provider call throws, the Send stores the synthetic error
    message as its last request and makes no rename. *)
Lemma no_rename_when_provider_throws (env : Api.Env) (chatId : jsstring)
    (user : option User) (mode : Mode) (avail : bool) (model : jsstring)
    (content : jsstring) (images : option (list jsstring))
    (o : oracle) (w : World) (rows : list Message) (aiError : Thrown) :
  let processed := map processMessage rows in
  let q1 := InsertMessage chatId Types.user (encodeContent content images) in
  let q2 := SelectMessages chatId in
  let q3 := completionRequest mode processed images model in
  let l1 := log w ++ [DateNow] in
  let l2 := l1 ++ [q1] in
  let l3 := l2 ++ [q2] in
  let l4 := l3 ++ [DateNow] in
  sendable content images user chatId ->
  db_error (o l1 q1) = None ->
  db_error (o l2 q2) = None ->
  data (o l2 q2) = Some rows ->
  providerReady env mode avail ->
  completionReply o l4 mode processed images model = inl aiError ->
  let w' :=
    snd (run o (sendMessage env chatId user mode avail model content images)
           w) in
  let shown :=
    match mode with
    | online => message aiError
    | offline => lit "Failed to get response from Ollama: " ++ message aiError
    end in
  log w' = l4 ++ [q3; InsertMessage chatId assistant
                        (lit "Sorry, I encountered an error while processing your request: "
                         ++ shown ++ lit ". Please try again.")] /\
  error (state w') = Some (lit "AI response error: " ++ shown).
Proof.
  intros processed q1 q2 q3 l1 l2 l3 l4 Hs H1 H2 H2d Hready Hc w'.
  subst w' l4 l3 l2 l1 q1 q2 q3 processed.
  unfold sendMessage. rewrite (sendable_guard Hs).
  unfold run, sendMessageTry, sendMessageInnerTry, sendMessageInnerCatch,
    updateTitle, requestCompletion, storeMessageInDB.
  destruct mode; cbn [providerReady completionReply completionRequest] in *.
  - destruct (Api.VITE_GROQ_CHAT_API_KEY env) as [[|k key]|];
      try discriminate Hready.
    repeat run_step.
    all: change (encodeContent ?x (Some [])) with x.
    all: split; [rewrite <- !app_assoc; reflexivity | reflexivity].
  - rewrite Hready.
    repeat run_step.
    all: change (encodeContent ?x (Some [])) with x.
    all: split; [rewrite <- !app_assoc; reflexivity | reflexivity].
Qed.

(** C9 as stated fails: a first exchange (one message in the re-fetched
    history) on a conversation still titled [New Chat], whose provider call
    throws, ends without any rename; the synthetic error message is stored
    instead. *)
Lemma C9_counterexample :
  let w' :=
    snd (run Samples.providerDown
           (sendMessage Samples.groqEnv (lit "chat-1") (Some Samples.alice)
              online false (lit "gemma3:4b-it-q4_K_M") (lit "Hello") None)
           (Samples.world Samples.idle)) in
  data (Samples.providerDown [] (SelectMessages (lit "chat-1"))) =
    Some [Samples.stored (lit "chat-1") Types.user (lit "Hello")] /\
  data (Samples.providerDown [] (SelectChatTitle (lit "chat-1"))) =
    Some (lit "New Chat") /\
  existsb isRename (log w') = false /\
  ~ In (UpdateChatTitle (lit "chat-1") (lit "Hello")) (log w').
Proof.
  intros w'.
  split; [reflexivity|]. split; [reflexivity|].
  assert (Hnone : existsb isRename (log w') = false) by (vm_compute; reflexivity).
  split; [exact Hnone|].
  intros Hin.
  assert (Hex : existsb isRename (log w') = true).
  { apply existsb_exists. eexists. split; [exact Hin | reflexivity]. }
  rewrite Hnone in Hex. discriminate Hex.
Qed.

(** ** Image-file validation *)

(** C10.  [isValidImageFile] accepts a file exactly when its MIME type
    starts with [image/] and its size is at most 4 * 1024 * 1024 bytes; a
    file it rejects is neither compressed, converted nor handed to the
    upload callback by [processFile], which only reports the error. *)
Theorem C10_isValidImageFile (file : ImageHandling.File) :
  (ImageHandling.isValidImageFile file = true <->
     startsWith (ImageHandling.type file) (lit "image/") = true /\
     (ImageHandling.size file <= 4 * 1024 * 1024)%N) /\
  (ImageHandling.isValidImageFile file = false ->
     forall o : ImageUploader.oracle,
       snd (ImageUploader.run o (ImageUploader.processFile file)) =
         [ImageUploader.setUploading true;
          ImageUploader.setError None;
          ImageUploader.setError
            (Some (lit "Please upload a valid image file (max 5MB)"));
          ImageUploader.setUploading false;
          ImageUploader.setDragActive false]).
Proof.
  split.
  - unfold ImageHandling.isValidImageFile, ImageHandling.MAX_SIZE.
    destruct (startsWith _ _); cbn [negb].
    + destruct (N.ltb_spec (4 * 1024 * 1024) (ImageHandling.size file)).
      * split; [discriminate | intros [_ Hle]; lia].
      * split; [intros _; split; [reflexivity | lia] | reflexivity].
    + split; [discriminate | intros [H _]; discriminate H].
  - intros Hrej o.
    unfold ImageUploader.run, ImageUploader.processFile,
      ImageUploader.processFileTry.
    rewrite Hrej. reflexivity.
Qed.

Lemma C10_isValidImageFile_witness :
  ImageHandling.isValidImageFile Samples.textFile = false /\
  forall o : ImageUploader.oracle,
    existsb ImageUploader.isUpload
      (snd (ImageUploader.run o (ImageUploader.processFile Samples.textFile)))
    = false.
Proof.
  split; [reflexivity|].
  intros o.
  rewrite (proj2 (C10_isValidImageFile Samples.textFile) eq_refl o).
  reflexivity.
Defined.

(** * Further properties of the code *)

Import Utf16 Session.

(** ** The content codec, with images *)

Lemma hexDigit_hexChar d : (d < 16)%N -> hexDigit (hexChar d) = Some d.
Proof.
  intros H. unfold hexChar, hexDigit.
  destruct (N.ltb_spec d 10).
  - replace ((48 <=? 48 + d) && (48 + d <=? 57))%N with true.
    + f_equal. lia.
    + symmetry. apply andb_true_iff. split; apply N.leb_le; lia.
  - replace ((48 <=? 87 + d) && (87 + d <=? 57))%N with false.
    + replace ((97 <=? 87 + d) && (87 + d <=? 102))%N with true.
      * f_equal. lia.
      * symmetry. apply andb_true_iff. split; apply N.leb_le; lia.
    + symmetry. apply andb_false_iff. right. apply N.leb_gt. lia.
Qed.

Lemma hex4_unicodeEscape c :
  codeUnit c ->
  hex4 (hexChar (c / 4096 mod 16)) (hexChar (c / 256 mod 16))
       (hexChar (c / 16 mod 16)) (hexChar (c mod 16)) = Some c.
Proof.
  intros Hc. unfold hex4, codeUnit in *.
  rewrite !hexDigit_hexChar by (apply N.mod_lt; discriminate).
  f_equal.
  zify. Z.to_euclidean_division_equations. lia.
Qed.

Lemma parse_string_escape c tail str rest :
  parse_string tail = Some (str, rest) ->
  codeUnit c ->
  parse_string (unicodeEscape c ++ tail) = Some (c :: str, rest).
Proof.
  intros Ht Hc. unfold unicodeEscape.
  cbn [app parse_string].
  change (92 =? 34)%N with false. change (92 =? 92)%N with true.
  change (117 =? 34)%N with false. change (117 =? 92)%N with false.
  change (117 =? 47)%N with false. change (117 =? 98)%N with false.
  change (117 =? 102)%N with false. change (117 =? 110)%N with false.
  change (117 =? 114)%N with false. change (117 =? 116)%N with false.
  change (117 =? 117)%N with true. cbv iota.
  rewrite (hex4_unicodeEscape Hc), Ht. reflexivity.
Qed.

Lemma parse_string_plain c tail str rest :
  parse_string tail = Some (str, rest) ->
  c <> 34%N -> c <> 92%N -> (32 <= c)%N ->
  parse_string (c :: tail) = Some (c :: str, rest).
Proof.
  intros Ht H34 H92 H32. cbn [parse_string].
  apply N.eqb_neq in H34, H92. rewrite H34, H92.
  replace (c <? 32)%N with false by (symmetry; apply N.ltb_ge; exact H32).
  rewrite Ht. reflexivity.
Qed.

Lemma parse_string_quoteChar c tail str rest :
  parse_string tail = Some (str, rest) ->
  codeUnit c ->
  parse_string (quoteChar c ++ tail) = Some (c :: str, rest).
Proof.
  intros Ht Hc. unfold quoteChar.
  destruct (N.eqb_spec c 8) as [->|H8].
  { cbn. rewrite Ht. reflexivity. }
  destruct (N.eqb_spec c 9) as [->|H9].
  { cbn. rewrite Ht. reflexivity. }
  destruct (N.eqb_spec c 10) as [->|H10].
  { cbn. rewrite Ht. reflexivity. }
  destruct (N.eqb_spec c 12) as [->|H12].
  { cbn. rewrite Ht. reflexivity. }
  destruct (N.eqb_spec c 13) as [->|H13].
  { cbn. rewrite Ht. reflexivity. }
  destruct (N.eqb_spec c 34) as [->|H34].
  { cbn. rewrite Ht. reflexivity. }
  destruct (N.eqb_spec c 92) as [->|H92].
  { cbn. rewrite Ht. reflexivity. }
  destruct (N.ltb_spec c 32) as [Hlt|Hge].
  { apply parse_string_escape; assumption. }
  destruct (isLeadSurrogate c || isTrailSurrogate c).
  { apply parse_string_escape; assumption. }
  apply parse_string_plain; assumption.
Qed.

Lemma quoteChars_pair c d r :
  quoteChars (c :: d :: r) =
    if isLeadSurrogate c && isTrailSurrogate d
    then c :: d :: quoteChars r
    else quoteChar c ++ quoteChars (d :: r).
Proof. reflexivity. Qed.

Lemma parse_string_quoteChars s rest :
  Forall codeUnit s ->
  parse_string (quoteChars s ++ 34%N :: rest) = Some (s, rest).
Proof.
  remember (length s) as n eqn:Hn. revert s Hn.
  induction n as [n IH] using lt_wf_ind. intros s Hn Hs.
  destruct s as [|c r]; [reflexivity|].
  inversion Hs as [|? ? Hc Hr]; subst.
  destruct r as [|d r'].
  - cbn [quoteChars]. apply parse_string_quoteChar; [reflexivity | exact Hc].
  - rewrite quoteChars_pair.
    destruct (isLeadSurrogate c && isTrailSurrogate d) eqn:Epair.
    + apply andb_true_iff in Epair. destruct Epair as [Hl Ht].
      inversion Hr as [|? ? Hd Hr']; subst.
      unfold isLeadSurrogate in Hl. unfold isTrailSurrogate in Ht.
      apply andb_true_iff in Hl, Ht.
      destruct Hl as [Hl1 Hl2], Ht as [Ht1 Ht2].
      apply N.leb_le in Hl1, Hl2, Ht1, Ht2.
      cbn [app].
      apply parse_string_plain; try lia.
      apply parse_string_plain; try lia.
      apply (IH (length r')); [simpl; lia | reflexivity | exact Hr'].
    + rewrite <- app_assoc.
      apply parse_string_quoteChar; [|exact Hc].
      apply (IH (length (d :: r'))); [simpl; lia | reflexivity | exact Hr].
Qed.

(** [JSON.parse(JSON.stringify(s))] for a string. *)
Lemma parse_string_quote s rest :
  Forall codeUnit s ->
  expect 34 (quote s ++ rest) = Some (quoteChars s ++ 34%N :: rest).
Proof.
  intros _. unfold quote. cbn. rewrite <- app_assoc. reflexivity.
Qed.

Lemma skip_ws_head c s :
  isJsonWhiteSpace c = false -> skip_ws (c :: s) = c :: s.
Proof. intros H. cbn [skip_ws]. rewrite H. reflexivity. Qed.

Lemma quote_head s rest :
  quote s ++ rest = 34%N :: (quoteChars s ++ 34%N :: rest).
Proof. unfold quote. cbn. rewrite <- app_assoc. reflexivity. Qed.

Lemma expect_quote c s rest :
  (34 =? c)%N = false -> expect c (skip_ws (quote s ++ rest)) = None.
Proof.
  intros Hc. rewrite quote_head, skip_ws_head by reflexivity.
  cbn [expect]. rewrite Hc. reflexivity.
Qed.

Lemma parse_value_quote fuel s rest :
  Forall codeUnit s ->
  parse_value (S fuel) (quote s ++ rest) = Ok (JString s) rest.
Proof.
  intros Hs. rewrite parse_value_S, quote_head.
  rewrite skip_ws_head by reflexivity.
  change (34 =? 91)%N with false. change (34 =? 123)%N with false.
  change (34 =? 34)%N with true. cbv iota.
  rewrite (parse_string_quoteChars rest Hs). reflexivity.
Qed.

Lemma parse_members_quote fuel key tail acc :
  Forall codeUnit key ->
  parse_members (S fuel) (quote key ++ 58%N :: tail) acc =
    match parse_value fuel tail with
    | Ok v r3 =>
        match expect 44 (skip_ws r3), expect 125 (skip_ws r3) with
        | Some r4, _ => parse_members fuel r4 ((key, v) :: acc)
        | None, Some r4 => Ok (JObject (rev ((key, v) :: acc))) r4
        | None, None => SyntaxError
        end
    | SyntaxError => SyntaxError
    | OutOfFuel => OutOfFuel
    end.
Proof.
  intros Hk. rewrite parse_members_S, quote_head.
  rewrite skip_ws_head by reflexivity.
  change (expect 34 (34%N :: ?x)) with (Some x).
  cbv iota.
  rewrite (parse_string_quoteChars (58%N :: tail) Hk).
  rewrite skip_ws_head by reflexivity.
  reflexivity.
Qed.

Lemma parse_elements_quoted (imgs : list jsstring) :
  forall (img : jsstring) fuel acc (rest : jsstring),
  length imgs + 2 <= fuel ->
  Forall (Forall codeUnit) (img :: imgs) ->
  parse_elements fuel
    (join (lit ",") (map quote (img :: imgs)) ++ 93%N :: rest) acc =
    Ok (JArray (rev acc ++ map JString (img :: imgs))) rest.
Proof.
  induction imgs as [|img' imgs IH]; intros img fuel acc rest Hf Hall;
    inversion Hall as [|? ? Himg Hrest]; subst;
    destruct fuel as [|[|fuel]]; try (simpl in Hf; lia);
    rewrite parse_elements_S.
  - cbn [List.map join]. rewrite (parse_value_quote _ _ Himg).
    rewrite skip_ws_head by reflexivity. reflexivity.
  - change (join (lit ",") (map quote (img :: img' :: imgs)))
      with (quote img ++ 44%N :: join (lit ",") (map quote (img' :: imgs))).
    rewrite <- app_assoc. rewrite (parse_value_quote _ _ Himg).
    rewrite <- app_comm_cons.
    rewrite skip_ws_head by reflexivity.
    change (expect 44 (44%N :: ?x)) with (Some x). cbv iota.
    rewrite IH by (simpl in *; try lia; assumption).
    cbn [rev]. rewrite <- app_assoc. reflexivity.
Qed.

Lemma stringify_shape (t : jsstring) (imgs : list jsstring) :
  stringify_text_images t imgs =
    123%N :: (quote (lit "text") ++ 58%N ::
      (quote t ++ 44%N ::
        (quote (lit "images") ++ 58%N :: 91%N ::
          (join (lit ",") (map quote imgs) ++ [93%N; 125%N])))).
Proof.
  unfold stringify_text_images.
  change (lit "{") with [123%N]. change (lit ":") with [58%N].
  change (lit ",") with [44%N]. change (lit ":[") with [58%N; 91%N].
  change (lit "]}") with [93%N; 125%N].
  cbn [app]. rewrite <- ?app_assoc. cbn [app].
  repeat (rewrite <- ?app_assoc; cbn [app]). reflexivity.
Qed.

Lemma literal_codeUnits : Forall codeUnit (lit "text") /\ Forall codeUnit (lit "images").
Proof. split; repeat constructor. Qed.

Lemma parse_array_quoted fuel (imgs : list jsstring) (rest : jsstring) :
  length imgs + 3 <= fuel ->
  Forall (Forall codeUnit) imgs ->
  parse_value fuel
    (91%N :: (join (lit ",") (map quote imgs) ++ 93%N :: rest)) =
    Ok (JArray (map JString imgs)) rest.
Proof.
  intros Hf Hall. destruct fuel as [|fuel]; [lia|].
  rewrite parse_value_S. rewrite skip_ws_head by reflexivity.
  change (91 =? 91)%N with true. cbv iota.
  destruct imgs as [|img imgs].
  - cbn [List.map join app]. rewrite skip_ws_head by reflexivity. reflexivity.
  - assert (Hq : exists tl,
        join (lit ",") (map quote (img :: imgs)) ++ 93%N :: rest = 34%N :: tl).
    { destruct imgs; cbn [List.map join]; unfold quote at 1;
        cbn [app]; eauto. }
    destruct Hq as (tl & Hq). rewrite Hq at 1.
    rewrite skip_ws_head by reflexivity.
    change (expect 93 (34%N :: tl)) with (@None jsstring). cbv iota.
    rewrite parse_elements_quoted by (simpl in *; try lia; assumption).
    reflexivity.
Qed.

Lemma parse_stringify fuel (t : jsstring) (imgs : list jsstring) :
  length imgs + 6 <= fuel ->
  Forall codeUnit t -> Forall (Forall codeUnit) imgs ->
  parse_value fuel (stringify_text_images t imgs) =
    Ok (JObject [(lit "text", JString t);
                 (lit "images", JArray (map JString imgs))]) [].
Proof.
  intros Hf Ht Himgs. destruct literal_codeUnits as [Hk1 Hk2].
  rewrite stringify_shape.
  destruct fuel as [|[|[|fuel]]]; try lia.
  rewrite parse_value_S. rewrite skip_ws_head by reflexivity.
  change (123 =? 91)%N with false. change (123 =? 123)%N with true. cbv iota.
  rewrite expect_quote by reflexivity.
  rewrite (parse_members_quote _ _ _ Hk1).
  rewrite (parse_value_quote _ _ Ht).
  rewrite skip_ws_head by reflexivity.
  change (expect 44 (44%N :: ?x)) with (Some x). cbv iota.
  rewrite (parse_members_quote _ _ _ Hk2).
  change [93%N; 125%N] with (93%N :: [125%N]).
  rewrite parse_array_quoted by (try lia; assumption).
  rewrite skip_ws_head by reflexivity.
  reflexivity.
Qed.

Lemma join_quote_length (imgs : list jsstring) :
  length imgs <= length (join (lit ",") (map quote imgs)).
Proof.
  induction imgs as [|img [|img' imgs] IH]; [simpl; lia | |].
  - cbn [List.map join]. unfold quote. rewrite !length_app. simpl. lia.
  - change (join (lit ",") (map quote (img :: img' :: imgs)))
      with (quote img ++ 44%N :: join (lit ",") (map quote (img' :: imgs))).
    rewrite length_app. simpl length at 2. simpl in IH |- *. lia.
Qed.

Lemma JSON_parse_stringify (t : jsstring) (imgs : list jsstring) :
  Forall codeUnit t -> Forall (Forall codeUnit) imgs ->
  JSON_parse (stringify_text_images t imgs) =
    Some (JObject [(lit "text", JString t);
                   (lit "images", JArray (map JString imgs))]).
Proof.
  intros Ht Himgs. unfold JSON_parse.
  rewrite parse_stringify; [reflexivity | | assumption | assumption].
  rewrite stringify_shape. pose proof (join_quote_length imgs).
  repeat first [rewrite length_app | rewrite length_cons].
  cbn [length]. unfold jsstring in *. lia.
Qed.

Lemma endsWith_app s suffix : endsWith (s ++ suffix) suffix = true.
Proof.
  unfold endsWith. rewrite rev_app_distr.
  generalize (rev suffix) (rev s). intros p q.
  induction p as [|x p IH]; simpl; [destruct q; reflexivity|].
  rewrite N.eqb_refl. exact IH.
Qed.

(** X1.  A message saved with at least one image decodes to the text and the
    images it was saved with, in order, whatever the text is (well-formed
    UTF-16 code units assumed): the stored content never misparses. *)
Theorem roundtrip_with_images (t img : jsstring) (imgs : list jsstring) :
  Forall codeUnit t -> Forall (Forall codeUnit) (img :: imgs) ->
  parseMessageContent (encodeContent t (Some (img :: imgs))) =
    {| text := JString t; images := map JString (img :: imgs) |}.
Proof.
  intros Ht Himgs. cbn [encodeContent]. unfold parseMessageContent. 
  rewrite (JSON_parse_stringify Ht Himgs).
  replace (startsWith (stringify_text_images t (img :: imgs)) (lit "{"))
    with true by (rewrite stringify_shape; reflexivity).
  replace (endsWith (stringify_text_images t (img :: imgs)) (lit "}"))
    with true.
  2:{ rewrite stringify_shape.
      change [93%N; 125%N] with ([93%N] ++ lit "}").
      rewrite !app_comm_cons, !app_assoc. symmetry. apply endsWith_app. }
  cbn [andb getProperty lookup].
  change (str_eqb (lit "images") (lit "text")) with false.
  change (str_eqb (lit "text") (lit "text")) with true.
  change (str_eqb (lit "images") (lit "images")) with true.
  change (str_eqb (lit "text") (lit "images")) with false.
  cbv iota. cbn [truthy].
  destruct t; reflexivity.
Qed.

Lemma roundtrip_with_images_witness :
  parseMessageContent
    (encodeContent (lit "Look") (Some [Inputs.picture; Inputs.picture])) =
  {| text := JString (lit "Look");
     images := [JString Inputs.picture; JString Inputs.picture] |}.
Proof.
  apply (@roundtrip_with_images (lit "Look") Inputs.picture [Inputs.picture]);
    repeat constructor.
Defined.

(** ** The session pipeline, continued *)

Lemma exec_bind {call : Type} {resp : call -> Type} {W A B : Type}
    (h : forall c : call, W -> resp c * W) (p : prog call resp A)
    (f : A -> prog call resp B) (w : W) :
  exec h (bind p f) w = exec h (f (fst (exec h p w))) (snd (exec h p w)).
Proof.
  revert w. induction p as [a|c k IH]; intros w; [reflexivity|].
  cbn. destruct (h c w) as [x w']. apply IH.
Qed.

(** The log only grows. *)
Lemma run_log_grows {A} (o : oracle) (p : chat A) (w : World) :
  exists made, log (snd (run o p w)) = log w ++ made.
Proof.
  unfold run. revert w. induction p as [a|c k IH]; intros w.
  - exists []. cbn. rewrite app_nil_r. reflexivity.
  - destruct c as [a|q].
    + destruct a; cbn;
        match goal with
        | |- context [exec _ (k ?x) ?w'] => exact (IH x w')
        end.
    + cbn. destruct (IH (o (log w) q)
        {| state := state w; history := history w; next_ref := next_ref w;
           log := log w ++ [q] |}) as (made & Hm).
      exists (q :: made). rewrite Hm. cbn. rewrite <- app_assoc. reflexivity.
Qed.

(** X2.  A Send that passes the guard always ends with [sending] cleared,
    whatever the collaborators answer and whatever the state was. *)
Theorem sendMessage_resets_sending env chatId user mode avail model content
    images (o : oracle) (w : World) :
  sendable content images user chatId ->
  sending (state (snd (run o
    (sendMessage env chatId user mode avail model content images) w))) = false.
Proof.
  intros Hs. unfold sendMessage. rewrite (sendable_guard Hs).
  unfold run. rewrite exec_bind. rewrite exec_bind. reflexivity.
Qed.

Lemma sendMessage_resets_sending_witness :
  sendable (lit "Hello") None (Some Samples.alice) (lit "chat-1") /\
  sending (state (snd (run Samples.storeDown
    (sendMessage Samples.groqEnv (lit "chat-1") (Some Samples.alice) online
       false (lit "gemma3:4b-it-q4_K_M") (lit "Hello") None)
    (Samples.world Samples.busy)))) = false.
Proof.
  split; [split; [left; reflexivity | split; [discriminate | reflexivity]]|].
  apply (@sendMessage_resets_sending Samples.groqEnv (lit "chat-1")
           (Some Samples.alice) online false (lit "gemma3:4b-it-q4_K_M")
           (lit "Hello") None Samples.storeDown (Samples.world Samples.busy)).
  split; [left; reflexivity | split; [discriminate | reflexivity]].
Defined.

(** X3.  [sendMessage] returns without touching the state or the
    collaborators exactly when its guard refuses the input: no text after
    trimming and no image, nobody signed in, or no conversation. *)
Theorem sendMessage_noop_iff env chatId user mode avail model content images
    (o : oracle) (w : World) :
  run o (sendMessage env chatId user mode avail model content images) w
    = (tt, w) <-> ~ sendable content images user chatId.
Proof.
  split.
  - intros Hrun Hs.
    assert (Hlog : log (snd (run o
      (sendMessage env chatId user mode avail model content images) w))
        = log w) by (rewrite Hrun; reflexivity).
    clear Hrun. revert Hlog.
    unfold sendMessage. rewrite (sendable_guard Hs).
    unfold run, sendMessageTry, storeMessageInDB.
    cbn -[lit encodeContent app sendMessageInnerTry].
    match goal with
    | |- log (snd (exec (handler o) ?p ?w')) = _ -> _ =>
        destruct (run_log_grows o p w') as (made & Hm); unfold run in Hm;
        rewrite Hm
    end.
    cbn [log]. intros H. apply (f_equal (@length request)) in H.
    rewrite !length_app in H. simpl in H. lia.
  - intros Hn. unfold sendMessage.
    destruct (nonEmpty (trim content)) eqn:Ec;
      destruct (noImages images) eqn:Ei;
      destruct user as [u|]; destruct (nonEmpty chatId) eqn:Eid;
      try reflexivity;
      exfalso; apply Hn; repeat split; auto; discriminate.
Qed.

Lemma Forall_filter_keep {A} (P : A -> Prop) f l :
  Forall P l -> Forall P (filter f l).
Proof.
  rewrite !Forall_forall. intros H e He. apply filter_In in He. apply H, He.
Qed.

Lemma Forall_map_replace {A} (P : A -> Prop) (c : A -> bool) b l :
  P b -> Forall P l -> Forall P (map (fun m => if c m then b else m) l).
Proof.
  intros Hb. induction 1; cbn; constructor; auto.
  destruct (c x); assumption.
Qed.

Lemma noThinking_okBut k l : noThinking l -> Forall (okBut k) l.
Proof. apply Forall_impl. intros e He. left. exact He. Qed.

Lemma okBut_filter k mm l :
  Forall (okBut k) l ->
  noThinking
    (filter (fun m => negb (same_object m {| ref := Some k; msg := mm |})) l).
Proof.
  unfold noThinking. rewrite !Forall_forall. intros H e He.
  apply filter_In in He. destruct He as [Hin Hf].
  destruct (H e Hin) as [Hc|Hr]; [exact Hc|].
  unfold same_object in Hf. rewrite Hr in Hf. cbn in Hf.
  rewrite Nat.eqb_refl in Hf. discriminate Hf.
Qed.

Ltac clean_list :=
  repeat first
    [ assumption
    | apply Forall_nil
    | apply Forall_app; split
    | apply okBut_filter
    | apply Forall_filter_keep
    | apply Forall_map_replace; [first [reflexivity | left; reflexivity] |]
    | apply noThinking_okBut; assumption
    | apply Forall_cons;
        [first [reflexivity | left; reflexivity | right; reflexivity] |] ].

(** X4.  A Send never leaves a thinking placeholder behind: if the sequence
    held none before, it holds none after, on every path and for every
    answer of the collaborators. *)
Theorem sendMessage_leaves_no_thinking env chatId user mode avail model
    content images (o : oracle) (w : World) :
  noThinking (messages (state w)) ->
  noThinking (messages (state (snd (run o
    (sendMessage env chatId user mode avail model content images) w)))).
Proof.
  intros Hclean. unfold sendMessage.
  destruct ((negb (nonEmpty (trim content)) && noImages images)
            || match user with None => true | Some _ => false end
            || negb (nonEmpty chatId)); [exact Hclean|].
  unfold run, sendMessageTry, sendMessageInnerTry, sendMessageInnerCatch,
    updateTitle, requestCompletion, storeMessageInDB, noThinking.
  repeat (cbn -[lit encodeContent app processMessage List.map Nat.leb newTitle
               str_eqb isThinking filter];
          match goal with
          | |- context [match ?x with _ => _ end] => destruct x
          | |- context [if ?x then _ else _] => destruct x
          end).
  all: cbn -[lit encodeContent app processMessage List.map Nat.leb newTitle
             str_eqb isThinking filter].
  all: fold (noThinking (messages (state w))) in Hclean.
  all: unfold noThinking in *; clean_list.
Qed.

Lemma sendMessage_leaves_no_thinking_witness :
  noThinking (messages (state (snd (run Samples.providerDown
    (sendMessage Samples.groqEnv (lit "chat-1") (Some Samples.alice) online
       false (lit "gemma3:4b-it-q4_K_M") (lit "Hello") None)
    (Samples.world Samples.idle))))).
Proof.
  apply (@sendMessage_leaves_no_thinking Samples.groqEnv (lit "chat-1")
           (Some Samples.alice) online false (lit "gemma3:4b-it-q4_K_M")
           (lit "Hello") None Samples.providerDown
           (Samples.world Samples.idle)).
  apply Forall_nil.
Defined.







(** X6.  When the active provider is not ready (no API key online, server not
    seen offline) a Send calls no provider: it stores the user message,
    reads the context, stores a synthetic apology as an assistant message,
    and displays the error. *)
Theorem sendMessage_provider_not_ready (env : Api.Env) (chatId : jsstring)
    (user : option User) (mode : Mode) (avail : bool) (model : jsstring)
    (content : jsstring) (images : option (list jsstring))
    (o : oracle) (w : World) (rows : list Message) :
  let q1 := InsertMessage chatId Types.user (encodeContent content images) in
  let q2 := SelectMessages chatId in
  let l1 := log w ++ [DateNow] in
  let l2 := l1 ++ [q1] in
  let l3 := l2 ++ [q2] in
  let l4 := l3 ++ [DateNow] in
  let shown :=
    match mode with
    | online => lit "Please set a valid Groq Chat API key in your .env file"
    | offline =>
        lit "Ollama is not running. Please start Ollama and try again."
    end in
  sendable content images user chatId ->
  db_error (o l1 q1) = None ->
  db_error (o l2 q2) = None ->
  data (o l2 q2) = Some rows ->
  ~ providerReady env mode avail ->
  let w' :=
    snd (run o (sendMessage env chatId user mode avail model content images)
           w) in
  log w' =
    l4 ++ [InsertMessage chatId assistant
             (lit "Sorry, I encountered an error while processing your request: "
              ++ shown ++ lit ". Please try again.")] /\
  filter isProviderCall (log w') = filter isProviderCall (log w) /\
  error (state w') = Some (lit "AI response error: " ++ shown) /\
  sending (state w') = false.
Proof.
  intros q1 q2 l1 l2 l3 l4 shown Hs H1 H2 H2d Hnot w'.
  assert (Hlog : log w' =
    l4 ++ [InsertMessage chatId assistant
             (lit "Sorry, I encountered an error while processing your request: "
              ++ shown ++ lit ". Please try again.")] /\
    error (state w') = Some (lit "AI response error: " ++ shown) /\
    sending (state w') = false).
  { subst w' l4 l3 l2 l1 q1 q2 shown.
    unfold sendMessage. rewrite (sendable_guard Hs).
    unfold run, sendMessageTry, sendMessageInnerTry, sendMessageInnerCatch,
      updateTitle, requestCompletion, storeMessageInDB.
    destruct mode; cbn [providerReady] in Hnot.
    - destruct (Api.VITE_GROQ_CHAT_API_KEY env) as [[|k key]|];
        try (exfalso; apply Hnot; reflexivity).
      all: repeat run_step.
      all: change (encodeContent ?x (Some [])) with x.
      all: repeat split; rewrite <- ?app_assoc; reflexivity.
    - destruct avail; [exfalso; apply Hnot; reflexivity|].
      repeat run_step.
      all: change (encodeContent ?x (Some [])) with x.
      all: repeat split; rewrite <- ?app_assoc; reflexivity. }
  destruct Hlog as (Hlog & Herr & Hsend).
  repeat split; try assumption.
  rewrite Hlog. subst l4 l3 l2 l1 q1 q2.
  rewrite !filter_app. cbn. rewrite !app_nil_r. reflexivity.
Qed.

Lemma sendMessage_provider_not_ready_witness :
  filter isProviderCall (log (snd (run Samples.happy
    (sendMessage Samples.groqEnv (lit "chat-1") (Some Samples.alice) offline
       false (lit "gemma3:4b-it-q4_K_M") (lit "Hello") None)
    (Samples.world Samples.idle)))) = [] /\
  error (state (snd (run Samples.happy
    (sendMessage Samples.groqEnv (lit "chat-1") (Some Samples.alice) offline
       false (lit "gemma3:4b-it-q4_K_M") (lit "Hello") None)
    (Samples.world Samples.idle)))) =
  Some (lit "AI response error: Ollama is not running. Please start Ollama and try again.").
Proof.
  assert (Hs : sendable (lit "Hello") None (Some Samples.alice)
                 (lit "chat-1")) by (split; [left; reflexivity | split; [discriminate | reflexivity]]).
  assert (Hn : ~ providerReady Samples.groqEnv offline false)
    by (intros H; discriminate H).
  pose proof (@sendMessage_provider_not_ready Samples.groqEnv (lit "chat-1")
    (Some Samples.alice) offline false (lit "gemma3:4b-it-q4_K_M")
    (lit "Hello") None Samples.happy (Samples.world Samples.idle)
    [Samples.stored (lit "chat-1") Types.user (lit "Hello")]
    Hs eq_refl eq_refl eq_refl Hn) as (_ & Hcalls & Herr & _).
  split; [exact Hcalls | exact Herr].
Defined.

(** X7.  A mode switch that is allowed (towards online, or towards offline
    with the server seen) flips the mode and changes nothing else in the
    state, whatever the persistence layer answers; the preference is written
    once when somebody is signed in and not at all otherwise. *)
Theorem toggleMode_switches (user : option User) (o : oracle) (w : World) :
  mode (state w) = offline \/ ollamaAvailable (state w) = true ->
  let w' := snd (run o (requestToggleMode user (state w)) w) in
  state w' = with_mode (flipMode (mode (state w))) (state w) /\
  log w' = log w ++
    match user with
    | Some u => [UpdatePreferredMode (user_id u) (flipMode (mode (state w)))]
    | None => []
    end.
Proof.
  intros H w'. subst w'. unfold requestToggleMode, toggleDisabled, toggleMode.
  destruct (mode (state w)) eqn:Em, (ollamaAvailable (state w)) eqn:Ea;
    try (destruct H; discriminate);
    destruct user; cbn; rewrite ?app_nil_r; split; reflexivity.
Qed.

Lemma toggleMode_switches_witness :
  let w' := snd (run Samples.storeDown
    (requestToggleMode (Some Samples.alice) Inputs.offlineIdle)
    (Samples.world Inputs.offlineIdle)) in
  mode (state w') = online /\
  log w' = [UpdatePreferredMode (lit "user-1") online].
Proof.
  intros w'.
  destruct (@toggleMode_switches (Some Samples.alice) Samples.storeDown
              (Samples.world Inputs.offlineIdle) (or_introl eq_refl))
    as (Hst & Hlog).
  split; [|exact Hlog].
  change (mode (state w')) with (mode (state (snd (run Samples.storeDown
    (requestToggleMode (Some Samples.alice)
       (state (Samples.world Inputs.offlineIdle)))
    (Samples.world Inputs.offlineIdle))))).
  rewrite Hst. reflexivity.
Defined.

(** X8.  The subscription callback keeps identifiers distinct: merging a
    notification into a sequence without duplicate ids gives a sequence
    without duplicate ids. *)
Theorem mergeInsert_NoDup (newMessage : Entry) (prev : list Entry) :
  NoDup (ids prev) -> NoDup (ids (mergeInsert newMessage prev)).
Proof.
  intros Hnd. unfold mergeInsert.
  destruct (existsb _ prev) eqn:E; [exact Hnd|].
  unfold ids. rewrite map_app. cbn.
  rewrite <- (rev_involutive (map _ prev ++ _)). apply NoDup_rev.
  rewrite rev_app_distr. cbn. constructor.
  - rewrite <- in_rev. intros Hin. apply in_map_iff in Hin.
    destruct Hin as (m & Hid & Hm).
    apply not_true_iff_false in E. apply E. apply existsb_exists.
    exists m. split; [exact Hm | apply id_eqb_eq; exact Hid].
  - apply NoDup_rev. exact Hnd.
Qed.

Lemma mergeInsert_NoDup_witness :
  NoDup (ids (mergeInsert (fromStore (Samples.sample 1))
                [fromStore (Samples.sample 0)])).
Proof.
  apply (@mergeInsert_NoDup (fromStore (Samples.sample 1))
           [fromStore (Samples.sample 0)]).
  apply NoDup_cons; [intros H; destruct H | apply NoDup_nil].
Defined.

(** X9.  Two notifications with different ids can arrive in either order: the
    resulting sequences hold the same elements (the order of arrival only
    decides their order). *)
Theorem mergeInsert_commutes (a b : Entry) (prev : list Entry) :
  id (msg a) <> id (msg b) ->
  Permutation (mergeInsert a (mergeInsert b prev))
              (mergeInsert b (mergeInsert a prev)).
Proof.
  intros Hne. unfold mergeInsert.
  assert (Hab : id_eqb (id (msg a)) (id (msg b)) = false).
  { apply not_true_iff_false. rewrite id_eqb_eq. exact Hne. }
  assert (Hba : id_eqb (id (msg b)) (id (msg a)) = false).
  { apply not_true_iff_false. rewrite id_eqb_eq. congruence. }
  destruct (existsb (fun m => id_eqb (id (msg m)) (id (msg a))) prev) eqn:Ea;
    destruct (existsb (fun m => id_eqb (id (msg m)) (id (msg b))) prev) eqn:Eb;
    rewrite ?existsb_app, ?Ea, ?Eb; cbn; rewrite ?Hab, ?Hba; cbn;
    try apply Permutation_refl.
  rewrite <- !app_assoc. apply Permutation_app_head. cbn. apply perm_swap.
Qed.

Lemma mergeInsert_commutes_witness :
  Permutation
    (mergeInsert (fromStore (Samples.sample 0))
       (mergeInsert (fromStore (Samples.sample 1)) []))
    (mergeInsert (fromStore (Samples.sample 1))
       (mergeInsert (fromStore (Samples.sample 0)) [])).
Proof.
  apply (@mergeInsert_commutes (fromStore (Samples.sample 0))
           (fromStore (Samples.sample 1)) []).
  intros H. discriminate H.
Defined.

(** ** What a Send never does *)

Lemma sendable_guard_inv content images user chatId :
  (negb (nonEmpty (trim content)) && noImages images)
     || match user with None => true | Some _ => false end
     || negb (nonEmpty chatId) = false ->
  sendable content images user chatId.
Proof.
  unfold sendable.
  destruct (nonEmpty (trim content)), (noImages images), user,
    (nonEmpty chatId); simpl; try discriminate; intros _;
    repeat split; auto; discriminate.
Qed.

(** X10.  A Send calls a provider at most once, and only after the user message
    was stored and the context was read, with the provider ready. *)
Theorem sendMessage_provider_call_guarded (env : Api.Env) (chatId : jsstring)
    (user : option User) (mode : Mode) (avail : bool) (model : jsstring)
    (content : jsstring) (images : option (list jsstring))
    (o : oracle) (w : World) :
  let q1 := InsertMessage chatId Types.user (encodeContent content images) in
  let q2 := SelectMessages chatId in
  let l1 := log w ++ [DateNow] in
  let l2 := l1 ++ [q1] in
  let w' :=
    snd (run o (sendMessage env chatId user mode avail model content images)
           w) in
  let calls := fun l : list request => length (filter isProviderCall l) in
  calls (log w') <= S (calls (log w)) /\
  (calls (log w') = S (calls (log w)) ->
     sendable content images user chatId /\
     providerReady env mode avail /\
     db_error (o l1 q1) = None /\
     db_error (o l2 q2) = None /\
     data (o l2 q2) <> None).
Proof.
  cbv zeta. unfold sendMessage.
  destruct ((negb (nonEmpty (trim content)) && noImages images)
            || match user with None => true | Some _ => false end
            || negb (nonEmpty chatId)) eqn:G.
  { cbn. split; [lia | intros H; lia]. }
  apply sendable_guard_inv in G.
  assert (Hready : providerReady env mode avail \/
    (match mode with
     | online => match Api.VITE_GROQ_CHAT_API_KEY env with
                 | Some (_ :: _) => false | _ => true end
     | offline => negb avail
     end = true)).
  { unfold providerReady. destruct mode.
    - destruct (Api.VITE_GROQ_CHAT_API_KEY env) as [[|? ?]|]; auto.
    - destruct avail; auto. }
  unfold run, sendMessageTry, sendMessageInnerTry, sendMessageInnerCatch,
    updateTitle, requestCompletion, storeMessageInDB.
  destruct mode; [destruct (Api.VITE_GROQ_CHAT_API_KEY env) as [[|? ?]|]
                 | destruct avail]; cbn [negb] in *;
  repeat (cbn -[lit encodeContent app processMessage List.map Nat.leb newTitle
               str_eqb isProviderCall filter providerReady];
          match goal with
          | |- context [match ?x with _ => _ end] => destruct x eqn:?
          | |- context [if ?x then _ else _] => destruct x eqn:?
          end).
  all: cbn -[lit encodeContent app processMessage List.map Nat.leb newTitle
             str_eqb isProviderCall filter providerReady].
  all: rewrite ?filter_app, ?length_app; cbn [filter isProviderCall length app].
  all: split; [lia|].
  all: try (intros Hc; exfalso; lia).
  all: intros _; split; [exact G|]; split;
    [destruct Hready as [?|?]; [assumption | discriminate]|].
  all: repeat split; try assumption; congruence.
Qed.

(** X11.  An enabled Send with something to send always ends with the input
    emptied, whether or not [sendMessage] accepts it: with nobody signed in
    the text typed is dropped without a request and without a message or an
    error shown. *)
Theorem requestSend_clears_input (env : Api.Env) (chatId : jsstring)
    (user : option User) (o : oracle) (w : World) :
  inputDisabled (state w) = false ->
  nonEmpty (trim (input_message (state w))) = true \/
    input_images (state w) <> [] ->
  let w' := snd (run o (requestSend env chatId user (state w)) w) in
  input_message (state w') = [] /\
  input_images (state w') = [] /\
  (user = None ->
     log w' = log w /\ messages (state w') = messages (state w) /\
     error (state w') = error (state w)).
Proof.
  intros Hd Hin w'. subst w'. unfold requestSend, handleSend.
  rewrite Hd.
  assert (Hg : (nonEmpty (trim (input_message (state w)))
                || (0 <? length (input_images (state w)))) && negb false
               = true).
  { destruct Hin as [-> | Hi]; [reflexivity|].
    destruct (input_images (state w)); [congruence|].
    simpl. rewrite orb_true_r. reflexivity. }
  rewrite Hg. unfold run. rewrite exec_bind.
  split; [reflexivity|]. split; [reflexivity|].
  intros ->. unfold sendMessage.
  rewrite orb_true_r. cbn. auto.
Qed.

Lemma requestSend_clears_input_witness :
  let w' := snd (run Samples.happy
    (requestSend Samples.groqEnv (lit "chat-1") None Samples.idle)
    (Samples.world Samples.idle)) in
  input_message Samples.idle = lit "Hello" /\
  input_message (state w') = [] /\ log w' = [] /\ messages (state w') = [].
Proof.
  intros w'.
  destruct (@requestSend_clears_input Samples.groqEnv (lit "chat-1") None
              Samples.happy (Samples.world Samples.idle) eq_refl
              (or_introl eq_refl)) as (Hm & _ & Hnone).
  destruct (Hnone eq_refl) as (Hlog & Hmsgs & _).
  split; [reflexivity|]. split; [exact Hm|].
  split; [exact Hlog | exact Hmsgs].
Defined.

(** ** The provider clients, continued *)

Lemma slice_last_exact {A} n (l : list A) :
  length (slice_last n l) = Nat.min n (length l).
Proof. unfold slice_last. rewrite length_skipn. lia. Qed.

Lemma slice_last_suffix {A} n (l : list A) :
  exists older, l = older ++ slice_last n l.
Proof.
  exists (firstn (length l - n) l). unfold slice_last.
  symmetry. apply firstn_skipn.
Qed.

Lemma last_elem_split {A} (l : list A) x :
  last_elem l = Some x -> l = slice_init l ++ [x].
Proof.
  unfold last_elem, slice_init.
  induction l as [|a l' _] using rev_ind; [discriminate|].
  rewrite length_app. simpl.
  replace (length l' + 1 - 1) with (length l') by lia.
  rewrite nth_error_app2, Nat.sub_diag by lia. simpl.
  intros [= ->]. rewrite firstn_app, Nat.sub_diag, firstn_all. simpl.
  rewrite app_nil_r. reflexivity.
Qed.

Lemma arr_includes_In (l : list jsstring) (x : jsstring) :
  arr_includes l x = true -> In x l.
Proof.
  unfold arr_includes. rewrite existsb_exists.
  intros (y & Hy & Heq). apply str_eqb_eq in Heq. subst. exact Hy.
Qed.

Lemma arr_includes_head (x : jsstring) (l : list jsstring) :
  arr_includes (x :: l) x = true.
Proof.
  unfold arr_includes. simpl.
  rewrite (proj2 (str_eqb_eq x x) eq_refl). reflexivity.
Qed.

Lemma checkOllamaModel_installed tags model m :
  Api.checkOllamaModel tags model = inr m ->
  exists names, tags = Api.TagsModels names /\ In m names.
Proof.
  destruct tags as [e|status| |names]; simpl; try discriminate.
  destruct (arr_includes names model) eqn:Hinc; simpl.
  - intros [= <-]. exists names. split; [reflexivity|].
    apply arr_includes_In. exact Hinc.
  - destruct names as [|first rest]; [discriminate|].
    intros [= <-]. exists (first :: rest). split; [reflexivity|].
    left. reflexivity.
Qed.

Lemma ollamaRequestBody_exact messages model imageData body :
  Api.ollamaRequestBody messages model imageData = inr body ->
  length (Api.ollama_messages body) = Nat.min 10 (length messages) /\
  Api.ollama_model body = model /\ Api.stream body = false.
Proof.
  unfold Api.ollamaRequestBody.
  pose proof (slice_last_exact 10 messages) as Hlen.
  destruct (ImageHandling.modelSupportsVision model);
    [destruct imageData as [[|img imgs]|] |]; cbn beta iota;
    try (intros [= <-]; cbn; rewrite length_map; auto).
  destruct (last_elem (slice_last 10 messages)) as [lastMessage|] eqn:El;
    [|discriminate].
  intros [= <-]. cbn -[Nat.min].
  apply last_elem_split in El.
  rewrite length_app, length_map. simpl.
  rewrite El in Hlen at 1. rewrite length_app in Hlen. simpl in Hlen.
  auto.
Qed.

(** X12.  Every chat request of the Local client carries exactly the last ten
    messages of the history (all of them when there are fewer), is not
    streamed, and names a model the server listed. *)
Theorem getOllamaCompletion_request (o : Api.oracle) (messages : list Message)
    (model : option jsstring) (imageData : option (list jsstring))
    (body : Api.OllamaRequest) :
  In (Api.fetchOllamaChat body)
     (snd (Api.run o (Api.getOllamaCompletion messages model imageData))) ->
  length (Api.ollama_messages body) = Nat.min 10 (length messages) /\
  Api.stream body = false /\
  exists names, o [] Api.fetchOllamaTags = Api.TagsModels names /\
                In (Api.ollama_model body) names.
Proof.
  unfold Api.run, Api.getOllamaCompletion.
  cbn -[Api.ollamaRequestBody Api.checkOllamaModel Nat.min].
  destruct (Api.checkOllamaModel _ _) as [e|m] eqn:Em;
    cbn -[Api.ollamaRequestBody Nat.min].
  { intros [H|[]]; discriminate H. }
  destruct (Api.ollamaRequestBody messages m imageData) as [e|b] eqn:Eb;
    cbn -[Nat.min].
  { intros [H|[]]; discriminate H. }
  apply ollamaRequestBody_exact in Eb. destruct Eb as (Hlen & Hm & Hst).
  apply checkOllamaModel_installed in Em.
  match goal with |- context [match ?x with _ => _ end] => destruct x end;
    cbn -[Nat.min]; intros [H|[H|[]]]; try discriminate H;
    injection H as <-; rewrite Hm; auto.
Qed.

Lemma getOllamaCompletion_request_witness :
  let history := map Samples.sample (seq 0 12) in
  let body :=
    {| Api.ollama_model := lit "llama3:8b";
       Api.ollama_messages :=
         map Api.toOllamaMessage (map Samples.sample (seq 2 10));
       Api.stream := false |} in
  In (Api.fetchOllamaChat body)
     (snd (Api.run Inputs.oneModel
             (Api.getOllamaCompletion history None None))) /\
  length (Api.ollama_messages body) = 10.
Proof.
  intros history body.
  assert (Hin : In (Api.fetchOllamaChat body)
     (snd (Api.run Inputs.oneModel
             (Api.getOllamaCompletion history None None))))
    by (right; left; reflexivity).
  split; [exact Hin|].
  exact (proj1 (@getOllamaCompletion_request Inputs.oneModel history None
                  None body Hin)).
Defined.

(** X13.  When the model the request will name has no vision support, the
    images handed to the Local client change nothing: the calls made and the
    result are those of the call without images. *)
Theorem getOllamaCompletion_ignores_images (o : Api.oracle)
    (messages : list Message) (model : option jsstring)
    (imageData : option (list jsstring)) :
  (forall m,
     Api.checkOllamaModel (o [] Api.fetchOllamaTags)
       (match model with Some m => m | None => Api.ollamaDefaultModel end)
       = inr m ->
     ImageHandling.modelSupportsVision m = false) ->
  Api.run o (Api.getOllamaCompletion messages model imageData) =
  Api.run o (Api.getOllamaCompletion messages model None).
Proof.
  intros Hv. unfold Api.run, Api.getOllamaCompletion.
  cbn -[Api.ollamaRequestBody Api.checkOllamaModel].
  destruct (Api.checkOllamaModel _ _) as [e|m] eqn:Em; [reflexivity|].
  specialize (Hv m eq_refl).
  unfold Api.ollamaRequestBody. rewrite Hv. reflexivity.
Qed.

Lemma getOllamaCompletion_ignores_images_witness :
  Api.run Inputs.oneModel
    (Api.getOllamaCompletion [Samples.sample 0] None (Some [Inputs.picture]))
  = Api.run Inputs.oneModel
      (Api.getOllamaCompletion [Samples.sample 0] None None).
Proof.
  apply (@getOllamaCompletion_ignores_images Inputs.oneModel
           [Samples.sample 0] None (Some [Inputs.picture])).
  intros m H. injection H as <-. reflexivity.
Defined.

(** X14.  With images attached the Remote client sends the last ten messages
    of the history in order; the earlier ones as plain text, and only the
    final one as a multimodal body, which lists every image after the
    text. *)
Theorem groqApiMessages_vision_shape (messages : list Message)
    (img : jsstring) (imgs : list jsstring) (apiMessages : list ApiMessage) :
  Api.groqApiMessages messages (Some (img :: imgs)) = inr apiMessages ->
  exists older earlier lastMessage,
    messages = older ++ earlier ++ [lastMessage] /\
    length (earlier ++ [lastMessage]) = Nat.min 10 (length messages) /\
    apiMessages =
      map Api.toApiMessage earlier ++
      [{| api_role := role lastMessage;
          api_content :=
            Parts (TextPart (ImageHandling.textOrDefault (content lastMessage))
                   :: map ImageUrlPart (img :: imgs)) |}].
Proof.
  unfold Api.groqApiMessages.
  destruct (last_elem (slice_last 10 messages)) as [lastMessage|] eqn:El;
    [|discriminate].
  intros [= <-].
  destruct (slice_last_suffix 10 messages) as (older & Hold).
  pose proof (last_elem_split _ El) as Hsplit.
  exists older, (slice_init (slice_last 10 messages)), lastMessage.
  rewrite <- Hsplit. split; [exact Hold|].
  split; [apply slice_last_exact | reflexivity].
Qed.

Lemma groqApiMessages_vision_shape_witness :
  exists older earlier lastMessage,
    map Samples.sample (seq 0 12) = older ++ earlier ++ [lastMessage] /\
    length (earlier ++ [lastMessage]) = 10.
Proof.
  destruct (@groqApiMessages_vision_shape (map Samples.sample (seq 0 12))
              Inputs.picture []
              (map Api.toApiMessage (map Samples.sample (seq 2 9)) ++
               [{| api_role := role (Samples.sample 11);
                   api_content :=
                     Parts [TextPart (content (Samples.sample 11));
                            ImageUrlPart Inputs.picture] |}])
              eq_refl) as (older & earlier & lastMessage & H1 & H2 & _).
  exists older, earlier, lastMessage. split; [exact H1 | exact H2].
Defined.

(** X15.  The Remote client makes no request exactly when the API key is
    missing or images come with an empty history; in every other case it
    makes exactly one. *)
Theorem getGroqCompletion_requests (o : Api.oracle) (env : Api.Env)
    (messages : list Message) (imageData : option (list jsstring)) :
  let made :=
    snd (Api.run o (Api.getGroqCompletion env messages imageData)) in
  (made = [] <->
     Capability.configured (Api.VITE_GROQ_CHAT_API_KEY env) = false \/
     (messages = [] /\ noImages imageData = false)) /\
  length made <= 1.
Proof.
  unfold Api.run, Api.getGroqCompletion.
  destruct (Api.VITE_GROQ_CHAT_API_KEY env) as [[|k key]|]; cbn -[lit].
  1, 3: split; [split; auto | lia].
  destruct imageData as [[|img imgs]|]; cbn -[lit slice_last slice_init].
  1, 3:
    match goal with |- context [match ?x with _ => _ end] => destruct x end;
    cbn; (split; [split; [discriminate | intros [H|[_ H]]; discriminate H]
                 | lia]).
  destruct (last_elem (slice_last 10 messages)) as [lastMessage|] eqn:El;
    cbn -[lit slice_last slice_init].
  - match goal with |- context [match ?x with _ => _ end] => destruct x end;
      cbn; (split; [split; [discriminate |] | lia]);
      intros [H|[-> _]]; try discriminate H; discriminate El.
  - split; [|lia]. split; [|reflexivity]. intros _. right.
    split; [|reflexivity].
    destruct messages as [|m ms]; [reflexivity|].
    exfalso. pose proof (slice_last_exact 10 (m :: ms)) as Hlen.
    unfold last_elem in El. apply nth_error_None in El.
    change (length (m :: ms)) with (S (length ms)) in Hlen.
    lia.
Qed.

(** ** The title *)

(** X16.  A title never exceeds thirty-three code units and always starts as
    the message does. *)
Theorem newTitle_bounded (content : jsstring) :
  length (newTitle content) <= 33 /\
  firstn 30 (newTitle content) = firstn 30 content.
Proof.
  rewrite newTitle_spec.
  destruct (Nat.leb_spec (length content) 30) as [Hle|Hgt].
  - split; [lia | reflexivity].
  - split.
    + rewrite length_app, length_firstn.
      change (length (lit "...")) with 3. unfold jsstring in *. lia.
    + rewrite firstn_app, length_firstn, Nat.min_l by lia.
      rewrite Nat.sub_diag, firstn_O, app_nil_r, firstn_firstn.
      reflexivity.
Qed.

(** ** The two vision registries *)

Lemma startsWith_spec (s p : jsstring) :
  startsWith s p = true <-> exists post, s = p ++ post.
Proof.
  revert s. induction p as [|c p IH]; intros s; simpl.
  - split; [intros _; exists s; reflexivity | destruct s; reflexivity].
  - destruct s as [|d s]; simpl.
    + split; [discriminate | intros (post & H); discriminate H].
    + rewrite andb_true_iff, N.eqb_eq, IH. split.
      * intros (-> & post & ->). exists post. reflexivity.
      * intros (post & [= -> ->]). split; [reflexivity|].
        exists post. reflexivity.
Qed.

Lemma includes_spec (s sub : jsstring) :
  includes s sub = true <-> exists pre post, s = pre ++ sub ++ post.
Proof.
  induction s as [|c s IH].
  - change (includes [] sub) with (startsWith [] sub || false).
    rewrite orb_false_r, startsWith_spec. split.
    + intros (post & H). exists [], post. exact H.
    + intros (pre & post & H). destruct pre as [|x pre]; [|discriminate H].
      exists post. exact H.
  - change (includes (c :: s) sub)
      with (startsWith (c :: s) sub || includes s sub).
    rewrite orb_true_iff, startsWith_spec, IH. split.
    + intros [(post & H)|(pre & post & H)].
      * exists [], post. exact H.
      * exists (c :: pre), post. rewrite H. reflexivity.
    + intros (pre & post & H). destruct pre as [|x pre].
      * left. exists post. exact H.
      * right. injection H as _ H. exists pre, post. exact H.
Qed.

Lemma includes_trans (s mid sub : jsstring) :
  includes s mid = true -> includes mid sub = true -> includes s sub = true.
Proof.
  rewrite !includes_spec.
  intros (pre & post & ->) (pre' & post' & ->).
  exists (pre ++ pre'), (post' ++ post).
  rewrite <- !app_assoc. reflexivity.
Qed.

(** X17.  The capability check of the interface ([modelSupportsGroqVision])
    and the one of the image helpers ([modelSupportsVision]) give the same
    answer for every configured model name: the two registries cannot
    disagree. *)
Theorem modelSupportsGroqVision_agrees (env : Api.Env) :
  Capability.modelSupportsGroqVision env =
  ImageHandling.modelSupportsVision
    (orElse (Api.VITE_GROQ_CHAT_MODEL env) Api.groqDefaultModel).
Proof.
  unfold Capability.modelSupportsGroqVision, ImageHandling.modelSupportsVision,
    Capability.visionModels.
  set (model := orElse _ _). cbn [existsb]. rewrite orb_false_r.
  destruct (includes model (lit "llama-4-scout")) eqn:Hs.
  { rewrite !orb_true_r. reflexivity. }
  destruct (includes model (lit "llama-4-maverick")) eqn:Hm.
  { rewrite !orb_true_r. reflexivity. }
  destruct (includes model
              (lit "meta-llama/llama-4-scout-17b-16e-instruct")) eqn:Hfs.
  { rewrite (includes_trans _ _ (lit "llama-4-scout") Hfs eq_refl) in Hs. discriminate Hs. }
  destruct (includes model
              (lit "meta-llama/llama-4-maverick-17b-128e-instruct")) eqn:Hfm.
  { rewrite (includes_trans _ _ (lit "llama-4-maverick") Hfm eq_refl) in Hm. discriminate Hm. }
  reflexivity.
Qed.

(** ** [processFile], whatever the file *)

(** X18.  Every run of [processFile] ends by clearing the uploading and drag
    flags, and in between does exactly one of two things: it hands one image
    over, or it displays one error.  The image handed over is the data URL
    of the compressed file, and the file passed the validation. *)
Theorem processFile_outcome (o : ImageUploader.oracle)
    (file : ImageHandling.File) :
  let made := snd (ImageUploader.run o (ImageUploader.processFile file)) in
  (exists before,
     made = before ++ [ImageUploader.setUploading false;
                       ImageUploader.setDragActive false]) /\
  length (filter Upload.isHandOver made)
    + length (filter Upload.isErrorReport made) = 1 /\
  (forall dataUrl, In (ImageUploader.onImageUpload dataUrl) made ->
     ImageHandling.isValidImageFile file = true /\
     exists compressedFile,
       In (ImageUploader.compressImage file) made /\
       In (ImageUploader.fileToBase64 compressedFile) made /\
       o [ImageUploader.setUploading true; ImageUploader.setError None]
         (ImageUploader.compressImage file) = inr compressedFile /\
       o [ImageUploader.setUploading true; ImageUploader.setError None;
          ImageUploader.compressImage file]
         (ImageUploader.fileToBase64 compressedFile) = inr dataUrl).
Proof.
  unfold ImageUploader.run, ImageUploader.processFile,
    ImageUploader.processFileTry.
  destruct (ImageHandling.isValidImageFile file) eqn:Hv; cbn -[lit].
  - destruct (o _ (ImageUploader.compressImage file))
      as [e|compressedFile] eqn:Ec; cbn -[lit].
    + split; [eexists [_; _; _; _]; reflexivity|].
      split; [reflexivity|].
      intros dataUrl H. repeat destruct H as [H|H]; try discriminate H.
      destruct H.
    + destruct (o _ (ImageUploader.fileToBase64 compressedFile))
        as [e|dataUrl'] eqn:Ed; cbn -[lit].
      * split; [eexists [_; _; _; _; _]; reflexivity|].
        split; [reflexivity|].
        intros dataUrl H. repeat destruct H as [H|H]; try discriminate H.
        destruct H.
      * split; [eexists [_; _; _; _; _]; reflexivity|].
        split; [reflexivity|].
        intros dataUrl H. repeat destruct H as [H|H]; try discriminate H;
          [|destruct H].
        injection H as <-. split; [reflexivity|].
        exists compressedFile.
        split; [cbn; auto 10|]. split; [cbn; auto 10|].
        split; [reflexivity | exact Ed].
  - split; [eexists [_; _; _]; reflexivity|].
    split; [reflexivity|].
    intros dataUrl H. repeat destruct H as [H|H]; try discriminate H.
    destruct H.
Qed.

(** ** The availability monitor *)

(** X19.  A probe that does not find the server marks the local provider
    unavailable after a single request and leaves the list of models and
    the selected model as they were. *)
Theorem checkOllama_not_running (o : Monitor.oracle) (selected : jsstring)
    (w : Monitor.World) :
  Monitor.answersOk (o (Monitor.probes w)) = false ->
  Monitor.run o (Monitor.checkOllama selected) w =
    (tt, {| Monitor.state :=
              {| Monitor.ollamaAvailable := false;
                 Monitor.availableModels :=
                   Monitor.availableModels (Monitor.state w);
                 Monitor.ollamaModel :=
                   Monitor.ollamaModel (Monitor.state w);
                 Monitor.error := Monitor.error (Monitor.state w) |};
            Monitor.probes := S (Monitor.probes w) |}).
Proof.
  unfold Monitor.run, Monitor.checkOllama, Monitor.isOllamaRunning.
  cbn. destruct (o (Monitor.probes w)) as [|[|] models]; cbn;
    try discriminate; reflexivity.
Qed.

Lemma checkOllama_not_running_witness :
  Monitor.state (snd (Monitor.run Inputs.serverDown
    (Monitor.checkOllama (lit "gemma3:4b-it-q4_K_M")) Inputs.monitorStart)) =
  {| Monitor.ollamaAvailable := false;
     Monitor.availableModels := [lit "gemma3:4b-it-q4_K_M"];
     Monitor.ollamaModel := lit "gemma3:4b-it-q4_K_M";
     Monitor.error := None |}.
Proof.
  rewrite (@checkOllama_not_running Inputs.serverDown
             (lit "gemma3:4b-it-q4_K_M") Inputs.monitorStart eq_refl).
  reflexivity.
Defined.

(** X20.  A probe that finds the server marks the local provider available and
    asks for the models with a second request.  When the list it stores is
    not empty the selected model is one of the list afterwards; when it is
    empty the selection is kept. *)
Theorem checkOllama_selects_installed (o : Monitor.oracle)
    (w : Monitor.World) :
  Monitor.answersOk (o (Monitor.probes w)) = true ->
  let w' :=
    snd (Monitor.run o
           (Monitor.checkOllama (Monitor.ollamaModel (Monitor.state w))) w) in
  Monitor.ollamaAvailable (Monitor.state w') = true /\
  Monitor.probes w' = S (S (Monitor.probes w)) /\
  (Monitor.availableModels (Monitor.state w') <> [] ->
     arr_includes (Monitor.availableModels (Monitor.state w'))
                  (Monitor.ollamaModel (Monitor.state w')) = true) /\
  (Monitor.availableModels (Monitor.state w') = [] ->
     Monitor.ollamaModel (Monitor.state w') =
     Monitor.ollamaModel (Monitor.state w)).
Proof.
  unfold Monitor.run, Monitor.checkOllama, Monitor.isOllamaRunning,
    Monitor.getOllamaModels.
  cbn. destruct (o (Monitor.probes w)) as [|[|] models]; cbn;
    try discriminate. intros _.
  destruct (o (S (Monitor.probes w))) as [|[|] [names|]]; cbn;
    try (repeat apply conj;
         [reflexivity | reflexivity | intros H; now destruct H | reflexivity]).
  destruct names as [|first rest]; cbn -[arr_includes].
  { repeat apply conj;
      [reflexivity | reflexivity | intros H; now destruct H | reflexivity]. }
  destruct (arr_includes (first :: rest)
              (Monitor.ollamaModel (Monitor.state w))) eqn:Hinc;
    cbn -[arr_includes].
  - repeat apply conj;
      [reflexivity | reflexivity | intros _; exact Hinc | discriminate].
  - repeat apply conj; [reflexivity | reflexivity | intros _ | discriminate].
    unfold arr_includes. simpl.
    rewrite (proj2 (str_eqb_eq first first) eq_refl). reflexivity.
Qed.

Lemma checkOllama_selects_installed_witness :
  let w' := snd (Monitor.run Inputs.serverUp
    (Monitor.checkOllama (lit "gemma3:4b-it-q4_K_M")) Inputs.monitorStart) in
  Monitor.availableModels (Monitor.state w') = [lit "llama3:8b"] /\
  arr_includes (Monitor.availableModels (Monitor.state w'))
               (Monitor.ollamaModel (Monitor.state w')) = true.
Proof.
  intros w'. split; [reflexivity|].
  destruct (@checkOllama_selects_installed Inputs.serverUp
              Inputs.monitorStart eq_refl) as (_ & _ & Hin & _).
  apply Hin. discriminate.
Defined.

(** ** Loading and resetting the conversation *)

(** X21.  Loading a conversation asks for its rows once and ends with the
    loading flag cleared.  On success the sequence is replaced wholesale by
    the rows returned, whatever it held; on failure the sequence is kept and
    the error is displayed. *)
Theorem fetchMessages_outcome (o : History.oracle) (chatId : jsstring)
    (w : History.World) :
  chatId <> [] ->
  let q := History.SelectMessages chatId in
  let r := o (History.log w) q in
  let w' := snd (History.run o (History.fetchMessages chatId) w) in
  History.log w' = History.log w ++ [q] /\
  History.loading (History.state w') = false /\
  match db_error r with
  | None =>
      History.messages (History.state w') =
        option_map (map fromStore) (data r) /\
      History.error (History.state w') = None
  | Some _ =>
      History.messages (History.state w') =
        History.messages (History.state w) /\
      History.error (History.state w') = Some (lit "Failed to load messages")
  end.
Proof.
  intros Hc. destruct chatId as [|c chatId]; [congruence|].
  unfold History.run, History.fetchMessages. cbn -[lit].
  match goal with
  | |- context [match db_error ?x with _ => _ end] => destruct (db_error x)
  end; cbn -[lit]; auto.
Qed.

Lemma fetchMessages_outcome_witness :
  let w' := snd (History.run (Inputs.historyOk true)
                   (History.fetchMessages (lit "chat-1")) Inputs.page) in
  History.log w' = [History.SelectMessages (lit "chat-1")] /\
  History.loading (History.state w') = false.
Proof.
  intros w'.
  assert (Hc : lit "chat-1" <> []) by discriminate.
  destruct (@fetchMessages_outcome (Inputs.historyOk true) (lit "chat-1")
              Inputs.page Hc) as (Hlog & Hload & _).
  split; [exact Hlog | exact Hload].
Defined.

(** X22.  Resetting asks for confirmation first.  Declined, it does nothing
    more; confirmed, it requests the deletion once, and empties the sequence
    and clears the error only if the deletion succeeds; a failed deletion
    keeps the sequence and displays the error. *)
Theorem resetChat_outcome (o : History.oracle) (chatId : jsstring)
    (w : History.World) :
  chatId <> [] ->
  let c := History.Confirm (lit
    "Are you sure you want to reset this chat? All messages will be deleted.")
  in
  let q := History.DeleteMessages chatId in
  let w' := snd (History.run o (History.resetChat chatId) w) in
  if o (History.log w) c then
    History.log w' = History.log w ++ [c; q] /\
    History.loading (History.state w') = false /\
    match db_error (o (History.log w ++ [c]) q) with
    | None =>
        History.messages (History.state w') = Some [] /\
        History.error (History.state w') = None
    | Some _ =>
        History.messages (History.state w') =
          History.messages (History.state w) /\
        History.error (History.state w') = Some (lit "Failed to reset chat")
    end
  else
    History.state w' = History.state w /\
    History.log w' = History.log w ++ [c].
Proof.
  intros Hc. destruct chatId as [|ch chatId]; [congruence|].
  unfold History.run, History.resetChat. cbn -[lit].
  match goal with
  | |- context [if ?x then _ else _] => destruct x
  end; cbn -[lit]; [|auto].
  rewrite <- app_assoc. cbn -[lit].
  match goal with
  | |- context [match db_error ?x with _ => _ end] => destruct (db_error x)
  end; cbn -[lit]; auto.
Qed.

Lemma resetChat_outcome_witness :
  History.state (snd (History.run (Inputs.historyOk false)
                        (History.resetChat (lit "chat-1")) Inputs.page)) =
  History.state Inputs.page.
Proof.
  assert (Hc : lit "chat-1" <> []) by discriminate.
  exact (proj1 (@resetChat_outcome (Inputs.historyOk false) (lit "chat-1")
                  Inputs.page Hc)).
Defined.

(** ** The password form *)

Lemma valid_dec_shape (password confirmPassword : jsstring) :
  PasswordForm.valid password confirmPassword <->
  (negb (nonEmpty password) || negb (nonEmpty confirmPassword) = false /\
   negb (str_eqb password confirmPassword) = false /\
   (length password <? 6) = false).
Proof.
  unfold PasswordForm.valid.
  rewrite orb_false_iff, !negb_false_iff, str_eqb_eq, Nat.ltb_ge.
  destruct password as [|p ps]; simpl.
  - split; [intros ([] & _); reflexivity | intros ((H & _) & _); discriminate].
  - split.
    + intros (_ & -> & Hl). auto.
    + intros ((_ & Hne) & Heq & Hl). subst. split; [discriminate | auto].
Qed.

(** X23.  The password form asks for the update exactly when both fields are
    filled, equal and at least six code units long, and then once, with the
    password typed; it then ends by clearing the loading flag, and schedules
    the redirect only if the update reported no error.  Otherwise it
    displays one error and makes no request. *)
Theorem handleSubmit_guard (o : PasswordForm.oracle)
    (password confirmPassword : jsstring) :
  let made :=
    snd (PasswordForm.run o
           (PasswordForm.handleSubmit password confirmPassword)) in
  let before := [PasswordForm.preventDefault; PasswordForm.setError None;
                 PasswordForm.setLoading true] in
  (PasswordForm.valid password confirmPassword ->
     filter PasswordForm.isUpdate made =
       [PasswordForm.updatePassword password] /\
     last made PasswordForm.preventDefault = PasswordForm.setLoading false /\
     (In (PasswordForm.navigateLater (lit "/login") 2000) made <->
      o before (PasswordForm.updatePassword password) =
        PasswordForm.Resolved None)) /\
  (~ PasswordForm.valid password confirmPassword ->
     exists m, made = [PasswordForm.preventDefault;
                       PasswordForm.setError (Some m)]).
Proof.
  cbv zeta. rewrite valid_dec_shape.
  unfold PasswordForm.run, PasswordForm.handleSubmit.
  cbn -[lit nonEmpty str_eqb Nat.ltb length].
  destruct (negb (nonEmpty password) || negb (nonEmpty confirmPassword))
    eqn:H1; cbn -[lit str_eqb Nat.ltb length].
  { split; [intros (H & _); discriminate H | intros _; eexists; reflexivity]. }
  destruct (negb (str_eqb password confirmPassword)) eqn:H2;
    cbn -[lit Nat.ltb length].
  { split; [intros (_ & H & _); discriminate H
           | intros _; eexists; reflexivity]. }
  destruct (length password <? 6) eqn:H3; cbn -[lit].
  { split; [intros (_ & _ & H); discriminate H
           | intros _; eexists; reflexivity]. }
  split; [intros _ | intros H; exfalso; apply H; auto].
  destruct (o _ (PasswordForm.updatePassword password)) as [|[e|]] eqn:Eu;
    cbn -[lit]; (split; [reflexivity|]); (split; [reflexivity|]).
  - split; [|discriminate].
    intros H. repeat destruct H as [H|H]; try discriminate H. destruct H.
  - split; [|discriminate].
    intros H. repeat destruct H as [H|H]; try discriminate H. destruct H.
  - split; [reflexivity|]. intros _. auto 10.
Qed.

Lemma handleSubmit_guard_witness :
  PasswordForm.valid (lit "secret1") (lit "secret1") /\
  filter PasswordForm.isUpdate
    (snd (PasswordForm.run Inputs.updateOk
            (PasswordForm.handleSubmit (lit "secret1") (lit "secret1")))) =
  [PasswordForm.updatePassword (lit "secret1")].
Proof.
  assert (Hv : PasswordForm.valid (lit "secret1") (lit "secret1"))
    by (split; [discriminate | split; [reflexivity | simpl; lia]]).
  split; [exact Hv|].
  exact (proj1 (proj1 (@handleSubmit_guard Inputs.updateOk (lit "secret1")
                         (lit "secret1")) Hv)).
Defined.

(** ** Text to speech *)

(** X24.  [speakText] returns [null] without any call for an empty text or one
    of more than 5000 code units.  Every speech request it makes carries the
    text and the voice it was given and the configured key; and when it
    returns an audio element it made exactly three calls: the request, the
    object URL of the blob the request returned, and the playback of that
    URL. *)
Theorem speakText_requests (o : Tts.oracle) (key : option jsstring)
    (text voice : jsstring) :
  let r := Tts.run o (Tts.speakText key text voice) in
  (Tts.isSuitableForTTS text = false -> r = (Tts.Returns None, [])) /\
  (forall k body, In (Tts.fetchSpeech k body) (snd r) ->
     0 < length text <= 5000 /\ key = Some k /\ k <> [] /\
     body = {| Tts.speech_model := lit "playai-tts"; Tts.input := text;
               Tts.voice := voice; Tts.response_format := lit "wav" |}) /\
  (forall audio, fst r = Tts.Returns (Some audio) ->
     exists k body blob url,
       snd r = [Tts.fetchSpeech k body; Tts.createObjectURL blob;
                Tts.playAudio url] /\
       o [] (Tts.fetchSpeech k body) = Tts.SpeechOk blob /\
       o [Tts.fetchSpeech k body] (Tts.createObjectURL blob) = url).
Proof.
  cbv zeta. unfold Tts.run, Tts.speakText.
  destruct (Tts.isSuitableForTTS text) eqn:Hs; cbn -[lit].
  2: { split; [reflexivity|]. split; [intros k body []|discriminate]. }
  split; [discriminate|].
  assert (Hlen : 0 < length text <= 5000).
  { unfold Tts.isSuitableForTTS in Hs. apply andb_true_iff in Hs.
    destruct Hs as [H1 H2]. apply Nat.ltb_lt in H1. apply Nat.leb_le in H2.
    auto. }
  destruct Hlen as [Hpos Hmax].
  unfold Tts.textToSpeech.
  destruct key as [[|k key]|]; cbn -[lit].
  1, 3: split; [intros ? ? []|discriminate].
  destruct (o [] (Tts.fetchSpeech (k :: key) _)) as [e|status up|blob] eqn:Ef;
    cbn -[lit].
  1, 2: split; [|discriminate];
    intros k' body [H|[]]; injection H as <- <-;
    repeat split; auto; discriminate.
  split.
  - intros k' body H. repeat destruct H as [H|H]; try discriminate H;
      [|destruct H].
    injection H as <- <-. repeat split; auto; discriminate.
  - intros audio _. do 4 eexists. split; [reflexivity|].
    split; [exact Ef | reflexivity].
Qed.

Lemma speakText_requests_witness :
  Tts.isSuitableForTTS [] = false /\
  Tts.run Inputs.speaker
    (Tts.speakText (Some (lit "tts-key")) [] Tts.DEFAULT_VOICE) =
  (Tts.Returns None, []).
Proof.
  split; [reflexivity|].
  exact (proj1 (@speakText_requests Inputs.speaker (Some (lit "tts-key")) []
                  Tts.DEFAULT_VOICE) eq_refl).
Defined.

(** ** The connection test *)

(** X25.  The connection test of the local provider always displays one
    message, and tells a server that does not answer from one that lists no
    model.  It reports success only for a non-empty list, which it names,
    and the selected model is one of that list afterwards. *)
Theorem testOllamaConnection_outcome (o : Monitor.oracle)
    (w : Monitor.World) :
  let w' :=
    snd (Monitor.run o
           (Monitor.testOllamaConnection
              (Monitor.ollamaModel (Monitor.state w))) w) in
  let names := Monitor.listed (o (S (Monitor.probes w))) in
  if negb (Monitor.answersOk (o (Monitor.probes w))) then
    Monitor.error (Monitor.state w') =
      Some (lit "Ollama is not running. Please start Ollama and try again.")
    /\ Monitor.probes w' = S (Monitor.probes w)
    /\ Monitor.ollamaModel (Monitor.state w') =
       Monitor.ollamaModel (Monitor.state w)
  else
    Monitor.probes w' = S (S (Monitor.probes w)) /\
    match names with
    | [] =>
        Monitor.error (Monitor.state w') =
          Some (lit
            "Connected to Ollama, but no models were found. Please install at least one model.")
        /\ Monitor.ollamaModel (Monitor.state w') =
           Monitor.ollamaModel (Monitor.state w)
    | _ :: _ =>
        Monitor.error (Monitor.state w') =
          Some (lit "Ollama API connection successful. Available models: "
                ++ JSON.join (lit ", ") names)
        /\ arr_includes names (Monitor.ollamaModel (Monitor.state w')) = true
    end.
Proof.
  unfold Monitor.run, Monitor.testOllamaConnection, Monitor.isOllamaRunning,
    Monitor.getOllamaModels.
  cbn -[lit]. destruct (o (Monitor.probes w)) as [|[|] models]; cbn -[lit];
    auto.
  destruct (o (S (Monitor.probes w))) as [|[|] [[|first rest]|]];
    cbn -[lit arr_includes JSON.join]; auto.
  destruct (arr_includes (first :: rest)
              (Monitor.ollamaModel (Monitor.state w))) eqn:Hinc;
    cbn -[lit arr_includes JSON.join]; auto.
  repeat split. unfold arr_includes. simpl.
  rewrite (proj2 (str_eqb_eq first first) eq_refl). reflexivity.
Qed.

(** ** The list of conversations *)

Lemma otherThan_filter chatId chats :
  ~ In chatId (map ChatPage.id (filter (ChatPage.otherThan chatId) chats)).
Proof.
  intros Hin. apply in_map_iff in Hin. destruct Hin as (c & Hid & Hc).
  apply filter_In in Hc. destruct Hc as [_ Hc].
  unfold ChatPage.otherThan in Hc. apply negb_true_iff in Hc.
  apply not_true_iff_false in Hc. apply Hc. apply str_eqb_eq. exact Hid.
Qed.

(** X26.  A confirmed deletion that the persistence layer accepts, with a
    conversation left or with another conversation active, ends with the
    list filtered: the deleted id is not listed any more, it is not the
    active conversation, and no conversation was created. *)
Theorem deleteChat_removes (o : ChatPage.oracle) (user : option User)
    (chats : list ChatPage.ChatRecord) (activeChat : option jsstring)
    (chatId : jsstring) (w : ChatPage.World) :
  let c := ChatPage.Confirm (lit "Are you sure you want to delete this chat?")
  in
  let q := ChatPage.DeactivateChat chatId in
  let remaining := filter (ChatPage.otherThan chatId) chats in
  ChatPage.activeChat (ChatPage.state w) = activeChat ->
  o (ChatPage.log w) c = true ->
  db_error (o (ChatPage.log w ++ [c]) q) = None ->
  remaining <> [] \/ ChatPage.isActive activeChat chatId = false ->
  let w' :=
    snd (ChatPage.run o (ChatPage.deleteChat user chats activeChat chatId) w)
  in
  ChatPage.chats (ChatPage.state w') = Some remaining /\
  ~ In chatId (map ChatPage.id remaining) /\
  ChatPage.activeChat (ChatPage.state w') <> Some chatId /\
  (ChatPage.isActive activeChat chatId = false ->
   ChatPage.activeChat (ChatPage.state w') = activeChat) /\
  ChatPage.log w' = ChatPage.log w ++ [c; q].
Proof.
  intros c q remaining Hact Hc Hq Hrem w'. subst w' c q.
  unfold ChatPage.run, ChatPage.deleteChat. cbn -[lit filter].
  rewrite Hc. cbn -[lit filter]. rewrite Hq. cbn -[lit filter].
  rewrite <- app_assoc. cbn [app].
  pose proof (otherThan_filter chatId chats) as Hnot.
  fold remaining in Hnot |- *.
  destruct (ChatPage.isActive activeChat chatId) eqn:Ha.
  - destruct Hrem as [Hrem|Hrem]; [|discriminate Hrem].
    destruct remaining as [|first rest] eqn:Er; [congruence|].
    cbn -[lit]. repeat split; auto; try discriminate.
    intros [= Hid]. apply Hnot. left. exact Hid.
  - cbn -[lit]. repeat split; auto.
    rewrite Hact. intros ->. simpl in Ha.
    rewrite (proj2 (str_eqb_eq chatId chatId) eq_refl) in Ha. discriminate Ha.
Qed.

Lemma deleteChat_removes_witness :
  let w' := snd (ChatPage.run (Inputs.chatsOk [])
    (ChatPage.deleteChat (Some Samples.alice) [Inputs.chatA; Inputs.chatB]
       (Some (lit "chat-a")) (lit "chat-a"))
    (Inputs.sidebar [Inputs.chatA; Inputs.chatB] (Some (lit "chat-a")))) in
  ChatPage.chats (ChatPage.state w') = Some [Inputs.chatB] /\
  ChatPage.activeChat (ChatPage.state w') <> Some (lit "chat-a").
Proof.
  intros w'.
  assert (Hleft : filter (ChatPage.otherThan (lit "chat-a"))
                    [Inputs.chatA; Inputs.chatB] <> []) by discriminate.
  destruct (@deleteChat_removes (Inputs.chatsOk []) (Some Samples.alice)
              [Inputs.chatA; Inputs.chatB] (Some (lit "chat-a"))
              (lit "chat-a")
              (Inputs.sidebar [Inputs.chatA; Inputs.chatB]
                 (Some (lit "chat-a")))
              eq_refl eq_refl eq_refl (or_introl Hleft))
    as (Hchats & _ & Hact & _).
  split; [exact Hchats | exact Hact].
Defined.

(** X27.  Deleting the active conversation when no other is left creates a new
    one, and the list then ends as the new conversation followed by the
    list as it was before the deletion: the conversation just deleted is
    listed again. *)
Theorem deleteChat_last_is_listed_again (o : ChatPage.oracle) (u : User)
    (chats : list ChatPage.ChatRecord) (chatId : jsstring)
    (w : ChatPage.World) (newChat : ChatPage.ChatRecord)
    (more : list ChatPage.ChatRecord) :
  let c := ChatPage.Confirm (lit "Are you sure you want to delete this chat?")
  in
  let q := ChatPage.DeactivateChat chatId in
  let i := ChatPage.InsertChat (user_id u) (lit "New Chat") in
  o (ChatPage.log w) c = true ->
  db_error (o (ChatPage.log w ++ [c]) q) = None ->
  filter (ChatPage.otherThan chatId) chats = [] ->
  db_error (o (ChatPage.log w ++ [c; q]) i) = None ->
  data (o (ChatPage.log w ++ [c; q]) i) = Some (newChat :: more) ->
  let w' :=
    snd (ChatPage.run o
           (ChatPage.deleteChat (Some u) chats (Some chatId) chatId) w) in
  ChatPage.chats (ChatPage.state w') = Some (newChat :: chats) /\
  ChatPage.activeChat (ChatPage.state w') = Some (ChatPage.id newChat) /\
  (forall chat, In chat chats -> ChatPage.id chat = chatId) /\
  ChatPage.log w' = ChatPage.log w ++ [c; q; i].
Proof.
  intros c q i Hc Hq Hnone Hi Hd w'. subst w' c q i.
  unfold ChatPage.run, ChatPage.deleteChat, ChatPage.createNewChat,
    ChatPage.createNewChatThen.
  cbn -[lit filter]. rewrite Hc. cbn -[lit filter]. rewrite Hq.
  cbn -[lit filter].
  rewrite (proj2 (str_eqb_eq chatId chatId) eq_refl). rewrite Hnone.
  cbn -[lit]. rewrite <- !app_assoc. cbn [app] in *.
  rewrite Hi, Hd. cbn -[lit].
  repeat split; auto.
  intros chat Hin. apply str_eqb_eq.
  destruct (str_eqb (ChatPage.id chat) chatId) eqn:E; [reflexivity|].
  assert (Hf : In chat (filter (ChatPage.otherThan chatId) chats)).
  { apply filter_In. split; [exact Hin|]. unfold ChatPage.otherThan.
    rewrite E. reflexivity. }
  rewrite Hnone in Hf. destruct Hf.
Qed.

Lemma deleteChat_last_is_listed_again_witness :
  ChatPage.chats (ChatPage.state (snd (ChatPage.run (Inputs.chatsOk [])
    (ChatPage.deleteChat (Some Samples.alice) [Inputs.chatA]
       (Some (lit "chat-a")) (lit "chat-a"))
    (Inputs.sidebar [Inputs.chatA] (Some (lit "chat-a")))))) =
  Some [Inputs.fresh; Inputs.chatA].
Proof.
  exact (proj1 (@deleteChat_last_is_listed_again (Inputs.chatsOk [])
    Samples.alice [Inputs.chatA] (lit "chat-a")
    (Inputs.sidebar [Inputs.chatA] (Some (lit "chat-a"))) Inputs.fresh []
    eq_refl eq_refl eq_refl eq_refl eq_refl)).
Defined.

(** X28.  A deletion that is declined makes no request and changes nothing; one
    the persistence layer refuses keeps the list and the active
    conversation and displays the error. *)
Theorem deleteChat_refused (o : ChatPage.oracle) (user : option User)
    (chats : list ChatPage.ChatRecord) (activeChat : option jsstring)
    (chatId : jsstring) (w : ChatPage.World) :
  let c := ChatPage.Confirm (lit "Are you sure you want to delete this chat?")
  in
  let q := ChatPage.DeactivateChat chatId in
  let w' :=
    snd (ChatPage.run o (ChatPage.deleteChat user chats activeChat chatId) w)
  in
  (o (ChatPage.log w) c = false ->
     ChatPage.state w' = ChatPage.state w /\
     ChatPage.log w' = ChatPage.log w ++ [c]) /\
  (o (ChatPage.log w) c = true ->
   db_error (o (ChatPage.log w ++ [c]) q) <> None ->
     ChatPage.chats (ChatPage.state w') = ChatPage.chats (ChatPage.state w) /\
     ChatPage.activeChat (ChatPage.state w') =
       ChatPage.activeChat (ChatPage.state w) /\
     ChatPage.error (ChatPage.state w') =
       Some (lit "Failed to delete chat") /\
     ChatPage.log w' = ChatPage.log w ++ [c; q]).
Proof.
  cbv zeta. unfold ChatPage.run, ChatPage.deleteChat. cbn -[lit filter].
  split.
  - intros ->. cbn -[lit]. split; [|reflexivity].
    destruct w as [[] ?]; reflexivity.
  - intros -> Hq. cbn -[lit filter].
    destruct (db_error _) eqn:E; [|congruence].
    cbn -[lit]. rewrite <- app_assoc. auto.
Qed.

(** X29.  Loading the list of conversations ends with the loading flag cleared.
    With rows returned the list is replaced by them and the first one
    becomes active, without any insert; with none a conversation titled
    [New Chat] is requested and put in front of the list the effect closed
    over. *)
Theorem fetchChats_outcome (o : ChatPage.oracle) (u : User)
    (chats : list ChatPage.ChatRecord) (w : ChatPage.World) :
  let q := ChatPage.SelectChats (user_id u) in
  let r := o (ChatPage.log w) q in
  let i := ChatPage.InsertChat (user_id u) (lit "New Chat") in
  db_error r = None ->
  let w' := snd (ChatPage.run o (ChatPage.fetchChats (Some u) chats) w) in
  ChatPage.loading (ChatPage.state w') = false /\
  match data r with
  | Some (first :: rest) =>
      ChatPage.chats (ChatPage.state w') = Some (first :: rest) /\
      ChatPage.activeChat (ChatPage.state w') = Some (ChatPage.id first) /\
      ChatPage.log w' = ChatPage.log w ++ [q]
  | _ =>
      ChatPage.log w' = ChatPage.log w ++ [q; i] /\
      match db_error (o (ChatPage.log w ++ [q]) i),
            data (o (ChatPage.log w ++ [q]) i) with
      | None, Some (newChat :: _) =>
          ChatPage.chats (ChatPage.state w') = Some (newChat :: chats) /\
          ChatPage.activeChat (ChatPage.state w') =
            Some (ChatPage.id newChat)
      | None, _ =>
          ChatPage.chats (ChatPage.state w') = data r /\
          ChatPage.activeChat (ChatPage.state w') =
            ChatPage.activeChat (ChatPage.state w)
      | Some _, _ =>
          ChatPage.chats (ChatPage.state w') = data r /\
          ChatPage.error (ChatPage.state w') =
            Some (lit "Failed to create new chat")
      end
  end.
Proof.
  intros q r i Hr w'. subst w' r q i.
  unfold ChatPage.run, ChatPage.fetchChats, ChatPage.createNewChatThen.
  cbn -[lit]. rewrite Hr. cbn -[lit].
  destruct (data (o (ChatPage.log w) (ChatPage.SelectChats (user_id u))))
    as [[|first rest]|]; cbn -[lit]; auto;
    rewrite <- app_assoc; cbn [app];
    set (r2 := o (ChatPage.log w ++ [ChatPage.SelectChats (user_id u)])
                 (ChatPage.InsertChat (user_id u) (lit "New Chat")));
    destruct (db_error r2); cbn -[lit]; auto;
    destruct (data r2) as [[|newChat more]|]; cbn -[lit]; auto.
Qed.

Lemma fetchChats_outcome_witness :
  let w' := snd (ChatPage.run (Inputs.chatsOk [Inputs.chatB; Inputs.chatA])
    (ChatPage.fetchChats (Some Samples.alice) []) (Inputs.sidebar [] None)) in
  ChatPage.loading (ChatPage.state w') = false /\
  ChatPage.chats (ChatPage.state w') = Some [Inputs.chatB; Inputs.chatA] /\
  ChatPage.activeChat (ChatPage.state w') = Some (lit "chat-b").
Proof.
  intros w'.
  destruct (@fetchChats_outcome (Inputs.chatsOk [Inputs.chatB; Inputs.chatA])
              Samples.alice [] (Inputs.sidebar [] None) eq_refl)
    as (Hload & Hchats & Hact & _).
  split; [exact Hload|]. split; [exact Hchats | exact Hact].
Defined.

(** ** The login form *)

(** X30.  The login form asks to sign in exactly when both fields are filled,
    and then once, with the values typed; it navigates to the chat page
    exactly when the sign-in reported no error, and otherwise displays one
    error. *)
Theorem login_handleSubmit_guard (o : LoginForm.oracle)
    (email password : jsstring) :
  let made :=
    snd (LoginForm.run o (LoginForm.handleSubmit email password)) in
  let before := [LoginForm.preventDefault; LoginForm.setError None;
                 LoginForm.setLoading true] in
  (email <> [] /\ password <> [] ->
     filter LoginForm.isSignIn made = [LoginForm.signIn email password] /\
     last made LoginForm.preventDefault = LoginForm.setLoading false /\
     (filter LoginForm.isNavigate made =
        if match o before (LoginForm.signIn email password) with
           | LoginForm.Resolved None => true
           | _ => false
           end
        then [LoginForm.navigate (lit "/chat")] else [])) /\
  (email = [] \/ password = [] ->
     made = [LoginForm.preventDefault;
             LoginForm.setError (Some (lit "Please fill in all fields"))]).
Proof.
  cbv zeta. unfold LoginForm.run, LoginForm.handleSubmit.
  destruct email as [|e email], password as [|p password]; cbn -[lit].
  1-3: split; [intros [H1 H2]; congruence | reflexivity].
  split; [intros _ | intros [H|H]; discriminate H].
  destruct (o _ (LoginForm.signIn _ _)) as [|[err|]]; cbn -[lit];
    repeat split; reflexivity.
Qed.
